(** * GyanMitra: the NCERT doubt-solver query pipeline

    A shallow embedding of the query-processing core of the repository
    (opea_microservices/llm/mistral_service.py,
     opea_microservices/orchestration/rag_orchestrator.py,
     scripts/api_server.py) and the properties of it that the
    specification states.

    Conventions of the embedding:
    - a Python [str] is a list of Unicode code points, so that [len],
      slicing and [in] count code points as Python does;
    - a Python [float] (distance, relevance, confidence) is an exact
      rational of [Q]; [round(x, 3)] rounds half to even;
    - the external collaborators (embedding model, vector store, language
      model) are functions handed to the pipeline, returning either a value
      or an exception; the calls made are recorded in a trace;
    - the tables of the Python runtime that are not part of the repository
      (Unicode case mappings, alphanumeric and decimal classes, the template
      parser of [re.sub]) are the fields of the class [Py.runtime]. *)

From Stdlib Require Import String Ascii Decimal.
From Stdlib Require Import List Bool Arith NArith ZArith QArith Qround Lia Lqa.
From Stdlib Require Import Permutation Sorted.
Import ListNotations.
Close Scope string_scope.
Close Scope Q_scope.
Open Scope nat_scope.

Set Implicit Arguments.

(* ================================================================== *)
(** * Part I: the program *)
(* ================================================================== *)

(** ** Python strings and the pieces of the runtime the code calls *)

Module Py.

Definition codepoint := N.
Definition str := list codepoint.

(** Source literals are written as they are in the Python files; the UTF-8
    bytes of the literal are decoded to code points. *)
Fixpoint utf8_go (bs : list N) (need : nat) (acc : N) : str :=
  match bs with
  | [] => []
  | b :: bs' =>
      match need with
      | O =>
          if (b <? 128)%N then b :: utf8_go bs' 0 0%N
          else if (b <? 224)%N then utf8_go bs' 1 (b - 192)%N
          else if (b <? 240)%N then utf8_go bs' 2 (b - 224)%N
          else utf8_go bs' 3 (b - 240)%N
      | S n =>
          let acc' := (acc * 64 + (b - 128))%N in
          match n with
          | O => acc' :: utf8_go bs' 0 0%N
          | S _ => utf8_go bs' n acc'
          end
      end
  end.

Definition lit (s : String.string) : str :=
  utf8_go (map Ascii.N_of_ascii (String.list_ascii_of_string s)) 0 0%N.
Arguments lit s%_string : simpl never.

Definition NL : codepoint := 10%N.
Definition DQUOTE : codepoint := 34%N.

(** [len(s)] *)
Definition len (s : str) : nat := length s.

(** [s[:n]] *)
Definition slice_to (n : nat) (s : str) : str := firstn n s.

Definition str_eqb (a b : str) : bool :=
  if list_eq_dec N.eq_dec a b then true else false.

(** [x in [a, b, ...]] on strings *)
Definition in_list (x : str) (l : list str) : bool := existsb (str_eqb x) l.

(** [s.isascii()] *)
Definition isascii (s : str) : bool := forallb (fun c => (c <? 128)%N) s.

(** [c.isspace()]: the ASCII table of CPython (TAB..CR, FS..US, space) and
    the code points with the Unicode White_Space property. *)
Definition isspace (c : codepoint) : bool :=
  ((9 <=? c) && (c <=? 13) || (28 <=? c) && (c <=? 32)
   || (c =? 133) || (c =? 160) || (c =? 5760)
   || (8192 <=? c) && (c <=? 8202)
   || (c =? 8232) || (c =? 8233) || (c =? 8239) || (c =? 8287)
   || (c =? 12288))%N.

Fixpoint lstrip (s : str) : str :=
  match s with
  | c :: s' => if isspace c then lstrip s' else s
  | [] => []
  end.

Definition rstrip (s : str) : str := rev (lstrip (rev s)).

(** [s.strip()] *)
Definition strip (s : str) : str := rstrip (lstrip s).

(** [s.split()]: the maximal runs of non-whitespace code points.
    [cur] is the run being read, in reverse. *)
Fixpoint split_go (cur : str) (s : str) : list str :=
  match s with
  | [] => match cur with [] => [] | _ => [rev cur] end
  | c :: s' =>
      if isspace c
      then match cur with
           | [] => split_go [] s'
           | _ => rev cur :: split_go [] s'
           end
      else split_go (c :: cur) s'
  end.

Definition split (s : str) : list str := split_go [] s.

(** [sep.join(parts)] *)
Fixpoint join (sep : str) (parts : list str) : str :=
  match parts with
  | [] => []
  | [p] => p
  | p :: rest => p ++ sep ++ join sep rest
  end.

(** [' '.join(s.split())] *)
Definition collapse_ws (s : str) : str := join [32%N] (split s).

Fixpoint startswith (p s : str) : bool :=
  match p, s with
  | [], _ => true
  | _ :: _, [] => false
  | a :: p', b :: s' => (a =? b)%N && startswith p' s'
  end.

(** [sub in s] *)
Fixpoint contains (s sub : str) : bool :=
  startswith sub s ||
  match s with
  | [] => false
  | _ :: s' => contains s' sub
  end.

(** [s.replace(old, new)]: every non-overlapping occurrence, left to right.
    [skip] counts the code points of an occurrence still to pass over. *)
Fixpoint replace_go (old new : str) (skip : nat) (s : str) : str :=
  match s with
  | [] => []
  | c :: s' =>
      match skip with
      | S k => replace_go old new k s'
      | O =>
          if startswith old s
          then new ++ replace_go old new (length old - 1) s'
          else c :: replace_go old new 0 s'
      end
  end.

Definition replace (s old new : str) : str :=
  match old with
  | [] => new ++ flat_map (fun c => c :: new) s
  | _ :: _ => replace_go old new 0 s
  end.

(** [str(n)] for integers *)
Fixpoint digits (d : Decimal.uint) : str :=
  match d with
  | Nil => []
  | D0 d => 48%N :: digits d
  | D1 d => 49%N :: digits d
  | D2 d => 50%N :: digits d
  | D3 d => 51%N :: digits d
  | D4 d => 52%N :: digits d
  | D5 d => 53%N :: digits d
  | D6 d => 54%N :: digits d
  | D7 d => 55%N :: digits d
  | D8 d => 56%N :: digits d
  | D9 d => 57%N :: digits d
  end.

Definition str_of_nat (n : nat) : str := digits (Nat.to_uint n).

Definition str_of_Z (z : Z) : str :=
  match Z.to_int z with
  | Decimal.Pos d => digits d
  | Decimal.Neg d => 45%N :: digits d
  end.

(** Exceptions: the class name and [str(e)]. *)
Record exn := Exn { exn_class : str; exn_str : str }.

Inductive result (A : Type) :=
| Ok (a : A)
| Raise (e : exn).
Arguments Ok {A} a.
Arguments Raise {A} e.

Definition bind {A B} (r : result A) (f : A -> result B) : result B :=
  match r with
  | Ok a => f a
  | Raise e => Raise e
  end.

(** What the code uses of the Python runtime and is not in the repository. *)
Class runtime := {
  (** [s.lower()], [s.upper()], [s.capitalize()], [s.title()] *)
  lower : str -> str;
  upper : str -> str;
  capitalize : str -> str;
  title : str -> str;
  (** [c.isalnum()]: with the underscore, the word characters of [re] *)
  isalnum : codepoint -> bool;
  (** [c.isdecimal()]: the class [\d] of [re] *)
  isdecimal : codepoint -> bool;
  (** does the pattern literal [p] match the code point [c] under
      [re.IGNORECASE] *)
  ignorecase_eq : codepoint -> codepoint -> bool;
  (** the replacement template of [re.sub] for a pattern without groups:
      the text to insert, or [re.error] *)
  expand_template : str -> result str
}.

(** The tables on the basic Latin and the Devanagari blocks (Unicode 14),
    the two scripts of the repository: Devanagari has no case, its letters
    and digits are alphanumeric, its signs and marks are not; every code
    point outside the two blocks is taken as caseless, not alphanumeric and
    not a digit, and a template is taken literally when it has no backslash.
    It runs the model on inputs written in the two scripts. *)
Definition is_upper_ascii (c : codepoint) : bool := ((65 <=? c) && (c <=? 90))%N.
Definition is_lower_ascii (c : codepoint) : bool := ((97 <=? c) && (c <=? 122))%N.
Definition is_digit_ascii (c : codepoint) : bool := ((48 <=? c) && (c <=? 57))%N.
Definition lower_ascii (c : codepoint) : codepoint :=
  if is_upper_ascii c then (c + 32)%N else c.
Definition upper_ascii (c : codepoint) : codepoint :=
  if is_lower_ascii c then (c - 32)%N else c.

Fixpoint title_go (previous_is_cased : bool) (s : str) : str :=
  match s with
  | [] => []
  | c :: s' =>
      (if previous_is_cased then lower_ascii c else upper_ascii c)
      :: title_go (is_upper_ascii c || is_lower_ascii c) s'
  end.

Definition is_devanagari_digit (c : codepoint) : bool :=
  ((2406 <=? c) && (c <=? 2415))%N.
Definition is_devanagari_alnum (c : codepoint) : bool :=
  ((2308 <=? c) && (c <=? 2361) || (c =? 2365) || (c =? 2384)
   || (2392 <=? c) && (c <=? 2401) || (2406 <=? c) && (c <=? 2415)
   || (2417 <=? c) && (c <=? 2431))%N.

Definition latin_devanagari : runtime := {|
  lower := map lower_ascii;
  upper := map upper_ascii;
  capitalize := fun s =>
    match s with
    | [] => []
    | c :: s' => upper_ascii c :: map lower_ascii s'
    end;
  title := title_go false;
  isalnum := fun c =>
    is_upper_ascii c || is_lower_ascii c || is_digit_ascii c
    || is_devanagari_alnum c;
  isdecimal := fun c => is_digit_ascii c || is_devanagari_digit c;
  ignorecase_eq := fun p c => (lower_ascii p =? lower_ascii c)%N;
  expand_template := fun t =>
    if existsb (fun c => (c =? 92)%N) t
    then Raise (Exn (lit "error") (lit "bad escape"))
    else Ok t
|}.

End Py.

(** ** The fragment of [re] the sanitizers use

    CPython's [re] is a backtracking matcher: alternatives are tried in
    order, a greedy repetition tries the longest run first and a lazy one the
    shortest, and the first success is the match.  [run] is that search, in
    continuation-passing style; it answers the number of code points the
    match spans.  Repetition is needed over character classes only. *)

Module Re.
Import Py.

Inductive regex :=
| Eps
| Chr (p : codepoint -> bool)
| Cat (r1 r2 : regex)
| Alt (r1 r2 : regex)
| Star (p : codepoint -> bool)
| StarLazy (p : codepoint -> bool)
| WordBoundary.

Definition Lit (c : codepoint) : regex := Chr (N.eqb c).
Definition Seq (rs : list regex) : regex := fold_right Cat Eps rs.
Definition Word (s : str) : regex := Seq (map Lit s).
Definition Plus (p : codepoint -> bool) : regex := Cat (Chr p) (Star p).
Definition Opt (r : regex) : regex := Alt r Eps.

(** [[a-zA-Z]], [.], [[^c]] *)
Definition ascii_letter (c : codepoint) : bool :=
  is_lower_ascii c || is_upper_ascii c.
Definition dot (c : codepoint) : bool := negb (c =? NL)%N.
Definition other_than (x : codepoint) (c : codepoint) : bool := negb (c =? x)%N.

Section Engine.
Context `{runtime}.

(** [\w] *)
Definition is_word (c : codepoint) : bool := isalnum c || (c =? 95)%N.

(** [\b]: exactly one of the code points around the position is a word
    character; [prev] is the code point before the position. *)
Definition at_boundary (prev : option codepoint) (s : str) : bool :=
  xorb (match prev with Some c => is_word c | None => false end)
       (match s with c :: _ => is_word c | [] => false end).

Definition cont := option codepoint -> str -> nat -> option nat.

Fixpoint star_greedy (p : codepoint -> bool) (k : cont)
    (prev : option codepoint) (s : str) (n : nat) : option nat :=
  match s with
  | c :: s' =>
      if p c
      then match star_greedy p k (Some c) s' (S n) with
           | Some m => Some m
           | None => k prev s n
           end
      else k prev s n
  | [] => k prev s n
  end.

Fixpoint star_lazy (p : codepoint -> bool) (k : cont)
    (prev : option codepoint) (s : str) (n : nat) : option nat :=
  match k prev s n with
  | Some m => Some m
  | None =>
      match s with
      | c :: s' => if p c then star_lazy p k (Some c) s' (S n) else None
      | [] => None
      end
  end.

Fixpoint run (r : regex) (k : cont)
    (prev : option codepoint) (s : str) (n : nat) : option nat :=
  match r with
  | Eps => k prev s n
  | Chr p =>
      match s with
      | c :: s' => if p c then k (Some c) s' (S n) else None
      | [] => None
      end
  | Cat r1 r2 => run r1 (run r2 k) prev s n
  | Alt r1 r2 =>
      match run r1 k prev s n with
      | Some m => Some m
      | None => run r2 k prev s n
      end
  | Star p => star_greedy p k prev s n
  | StarLazy p => star_lazy p k prev s n
  | WordBoundary => if at_boundary prev s then k prev s n else None
  end.

(** The match starting at the current position, as its length.
    [must_advance] refuses the empty match, as the scanner asks right after
    an empty match at the same position. *)
Definition match_at (r : regex) (must_advance : bool)
    (prev : option codepoint) (s : str) : option nat :=
  run r (fun _ _ n => if must_advance && (n =? 0) then None else Some n)
      prev s 0.

(** The scan of [re.sub] and [re.findall] over the text: at each position
    outside a match the pattern is tried; a match of [S m] code points is
    passed over with [skip]; after an empty match the same position is tried
    once more for a match that advances. *)
Fixpoint sub_go (r : regex) (repl : str) (skip : nat)
    (prev : option codepoint) (s : str) : str :=
  match s with
  | [] =>
      match skip with
      | S _ => []
      | O => match match_at r false prev [] with
             | Some _ => repl
             | None => []
             end
      end
  | c :: s' =>
      match skip with
      | S k => sub_go r repl k (Some c) s'
      | O =>
          match match_at r false prev s with
          | None => c :: sub_go r repl 0 (Some c) s'
          | Some (S m) => repl ++ sub_go r repl m (Some c) s'
          | Some O =>
              repl ++
              match match_at r true prev s with
              | Some (S m) => repl ++ sub_go r repl m (Some c) s'
              | _ => c :: sub_go r repl 0 (Some c) s'
              end
          end
      end
  end.

Fixpoint findall_go (r : regex) (skip : nat)
    (prev : option codepoint) (s : str) : list str :=
  match s with
  | [] =>
      match skip with
      | S _ => []
      | O => match match_at r false prev [] with
             | Some _ => [[]]
             | None => []
             end
      end
  | c :: s' =>
      match skip with
      | S k => findall_go r k (Some c) s'
      | O =>
          match match_at r false prev s with
          | None => findall_go r 0 (Some c) s'
          | Some (S m) => firstn (S m) s :: findall_go r m (Some c) s'
          | Some O =>
              [] ::
              match match_at r true prev s with
              | Some (S m) => firstn (S m) s :: findall_go r m (Some c) s'
              | _ => findall_go r 0 (Some c) s'
              end
          end
      end
  end.

(** [re.findall(r, s)] for a pattern without groups *)
Definition findall (r : regex) (s : str) : list str := findall_go r 0 None s.

(** [re.sub(r, repl, s)]: a replacement with no backslash is inserted as it
    is, any other goes through the template parser first. *)
Definition sub (r : regex) (repl : str) (s : str) : result str :=
  if existsb (fun c => (c =? 92)%N) repl
  then bind (expand_template repl) (fun t => Ok (sub_go r t 0 None s))
  else Ok (sub_go r repl 0 None s).

(** [re.sub(r, '', s)] *)
Definition remove (r : regex) (s : str) : str := sub_go r [] 0 None s.

(** [r'\b' + re.escape(term) + r'\b'] compiled with [re.IGNORECASE] *)
Definition whole_word_ignorecase (term : str) : regex :=
  Cat WordBoundary
      (Cat (Seq (map (fun p => Chr (ignorecase_eq p)) term)) WordBoundary).

(** [r'\[(?:Source|स्रोत|संदर्भ)\s*\d+[^\]]*\]'] *)
Definition source_marker : regex :=
  Seq [ Lit 91%N;
        Alt (Word (lit "Source")) (Alt (Word (lit "स्रोत")) (Word (lit "संदर्भ")));
        Star isspace;
        Plus isdecimal;
        Star (other_than 93%N);
        Lit 93%N ].

(** [r'\[.*?(?:Page|पृष्ठ):?\s*\d+.*?\]'] *)
Definition page_marker : regex :=
  Seq [ Lit 91%N;
        StarLazy dot;
        Alt (Word (lit "Page")) (Word (lit "पृष्ठ"));
        Opt (Lit 58%N);
        Star isspace;
        Plus isdecimal;
        StarLazy dot;
        Lit 93%N ].

(** [r'[a-zA-Z]{4,}'] *)
Definition english_word : regex :=
  Seq [ Chr ascii_letter; Chr ascii_letter; Chr ascii_letter;
        Chr ascii_letter; Star ascii_letter ].

(** [r'\([^)]*[a-zA-Z][^)]*\)'] *)
Definition latin_parenthetical : regex :=
  Seq [ Lit 40%N;
        Star (other_than 41%N);
        Chr ascii_letter;
        Star (other_than 41%N);
        Lit 41%N ].

End Engine.
End Re.

(** ** The data passed along the pipeline *)

Module Data.
Import Py.

(** The flattened metadata record of a stored chunk; a key may be missing. *)
Record metadata := {
  md_chapter : option str;
  md_section : option str;
  md_page_num : option Z;
  md_token_count : option Z;
  md_grade : option Z;
  md_subject : option str;
  md_meta_source_file : option str
}.

(** An element of the list [OPEAVectorStore.search] returns; the formatters
    read every key with [.get] and a default, so a key may be missing. *)
Record retrieved_chunk := {
  rc_chunk_id : option str;
  rc_text : option str;
  rc_metadata : option metadata;
  rc_distance : option Q
}.

(** [{'text': ..., 'metadata': ...}], as [process_query] builds it. *)
Record context_chunk := {
  cc_text : str;
  cc_metadata : metadata
}.

(** A glossary: a dict from English terms to Hindi terms, in insertion
    order; [None] when no glossary is passed. *)
Definition glossary := list (str * str).

(** [if hindi_terms:] *)
Definition truthy (hindi_terms : option glossary) : bool :=
  match hindi_terms with
  | Some (_ :: _) => true
  | _ => false
  end.

Definition items (hindi_terms : option glossary) : glossary :=
  match hindi_terms with
  | Some g => g
  | None => []
  end.

(** [sorted(l, key=..., reverse=True)] and [l.sort(key=..., reverse=True)]:
    the order is by decreasing key and the sort is stable, so an element
    goes in front of the first one that is not strictly above it.
    [above y x] reads: the key of [y] is greater than the key of [x]. *)
Section StableSort.
Variable A : Type.
Variable above : A -> A -> bool.

Fixpoint insert_desc (x : A) (l : list A) : list A :=
  match l with
  | [] => [x]
  | y :: l' => if above y x then y :: insert_desc x l' else x :: l
  end.

Fixpoint sort_desc (l : list A) : list A :=
  match l with
  | [] => []
  | x :: l' => insert_desc x (sort_desc l')
  end.
End StableSort.

(** [sorted(hindi_terms.items(), key=lambda x: len(x[0]), reverse=True)] *)
Definition longest_first (g : glossary) : glossary :=
  sort_desc (fun y x => len (fst x) <? len (fst y)) g.

(** What the run leaves behind: the calls to the collaborators and the
    warnings and errors logged. *)
Record sampling := {
  s_max_tokens : Z;
  s_temperature : Q;
  s_top_p : Q;
  s_top_k : Z;
  s_stop : list str;
  s_echo : bool
}.

Inductive event :=
| CallEncode (text : str)
| CallSearch (embedding : list Q) (grade : Z) (subject : option str)
             (language : str) (top_k : option Z)
| CallModel (prompt : str) (params : sampling)
| WarnEnglishWords (count : nat)
| ErrorGeneration (e : exn)
| ErrorGenerationFailed (detail : option str).

Definition trace := list event.

End Data.

(** ** opea_microservices/llm/mistral_service.py *)

Module MistralService.
Import Py Data.

Record MistralConfig := {
  model_path : str;
  n_ctx : Z;
  n_threads : Z;
  n_gpu_layers : Z;
  temperature : Q;
  top_p : Q;
  top_k : Z;
  max_tokens : Z;
  verbose : bool
}.

Definition default_config : MistralConfig := {|
  model_path := lit "../models/mistral-7b-instruct-v0.2.gguf";
  n_ctx := 4096;
  n_threads := 8;
  n_gpu_layers := 0;
  temperature := 3 # 10;
  top_p := 95 # 100;
  top_k := 40;
  max_tokens := 512;
  verbose := false
|}.

(** The completion [self.model(prompt, ...)] returns: the code reads
    [response['choices'][0]['text']] and
    [response['usage']['completion_tokens']]. *)
Record completion := {
  choices : list (option str);
  usage_completion_tokens : option Z
}.

(** The call [self.model(prompt, max_tokens=..., ..., echo=False)]: a
    completion, or an exception of the class [Exception], the ones that
    [except Exception] catches. *)
Definition llama := str -> sampling -> result completion.

Record service := {
  config : MistralConfig;
  model : llama
}.

(** The dict [generate_answer] returns. *)
Record generation := {
  answer : str;
  tokens_used : Z;
  model_name : str;
  success : bool;
  error : option str
}.

Definition max_context_chars : nat := 3500.
Definition chunk_ceiling : nat := 800.
Definition ellipsis : str := lit "...".

Definition lines (ls : list str) : str := join [NL] ls.

Section Service.
Context `{runtime}.

(** [language.lower() in ["hindi", "hi"]] *)
Definition is_hindi (language : str) : bool :=
  in_list (lower language) [lit "hindi"; lit "hi"].

(** Lines 83-84: the per-chunk truncation. *)
Definition truncate_chunk (chunk_text : str) : str :=
  if chunk_ceiling <? len chunk_text
  then slice_to chunk_ceiling chunk_text ++ ellipsis
  else chunk_text.

(** Line 87: the labelled content of the [i]-th chunk. *)
Definition chunk_content (is_hindi_query : bool) (i : nat) (chunk_text : str)
  : str :=
  if is_hindi_query
  then lit "संदर्भ " ++ str_of_nat i ++ lit ":" ++ [NL] ++ chunk_text ++ [NL; NL]
  else lit "Context " ++ str_of_nat i ++ lit ":" ++ [NL] ++ chunk_text ++ [NL; NL].

(** Lines 79-93: the loop over [enumerate(context_chunks, 1)], on the state
    [(context_text, total_chars)]; [break] returns the state as it is. *)
Fixpoint context_loop (is_hindi_query : bool) (i : nat)
    (context_chunks : list context_chunk)
    (context_text : str) (total_chars : nat) : str * nat :=
  match context_chunks with
  | [] => (context_text, total_chars)
  | chunk :: rest =>
      let chunk_text := truncate_chunk (cc_text chunk) in
      let content := chunk_content is_hindi_query i chunk_text in
      if max_context_chars <? total_chars + len content
      then (context_text, total_chars)
      else context_loop is_hindi_query (S i) rest
             (context_text ++ content) (total_chars + len content)
  end.

Definition build_context (is_hindi_query : bool)
    (context_chunks : list context_chunk) : str :=
  fst (context_loop is_hindi_query 1 context_chunks [] 0).

Definition hindi_instruction (grade : Z) (subject : str) : str :=
  lines [
    lit "आप Grade " ++ str_of_Z grade ++ lit " के छात्रों के लिए एक विशेषज्ञ NCERT "
      ++ subject ++ lit " पाठ्यपुस्तक शिक्षक हैं।";
    [];
    lit "बहुत महत्वपूर्ण निर्देश:";
    lit "1. उत्तर केवल हिंदी में दें (देवनागरी लिपि में)";
    lit "2. अंग्रेजी शब्दों का बिल्कुल प्रयोग न करें";
    lit "3. वैज्ञानिक शब्दों के लिए हिंदी पारिभाषिक शब्दों का प्रयोग करें";
    lit "4. केवल दिए गए संदर्भ के आधार पर उत्तर दें";
    lit "5. उत्तर में [Source] या [स्रोत] टैग न लिखें";
    lit "6. सरल और स्पष्ट भाषा में लिखें";
    lit "7. Grade " ++ str_of_Z grade ++ lit " के छात्रों के स्तर के अनुसार उत्तर दें" ].

(** Lines 109-113: at most 15 pairs of the glossary. *)
Definition terms_block (hindi_terms : option glossary) : str :=
  if truthy hindi_terms
  then [NL; NL] ++ lit "हिंदी शब्दावली (केवल संदर्भ के लिए):" ++ [NL]
       ++ flat_map (fun p => lit "• " ++ fst p ++ lit " = " ++ snd p ++ [NL])
                   (firstn 15 (items hindi_terms))
  else [].

Definition english_instruction (grade : Z) (subject : str) : str :=
  lines [
    lit "You are an expert NCERT textbook tutor for Grade " ++ str_of_Z grade
      ++ lit " " ++ subject ++ lit " students.";
    [];
    lit "CRITICAL INSTRUCTIONS:";
    lit "1. Answer in English only";
    lit "2. Answer ONLY the student's specific question";
    lit "3. Base your answer ONLY on the provided context";
    lit "4. Do NOT include [Source X] or citations within your answer text";
    lit "5. Write in clear, flowing paragraphs";
    lit "6. Keep your answer suitable for Grade " ++ str_of_Z grade
      ++ lit " students";
    lit "7. If context doesn't contain the answer, say " ++ [DQUOTE]
      ++ lit "I don't have enough information" ++ [DQUOTE];
    lit "8. Do NOT answer any example questions found in the context" ].

(** Lines 137-144: the f-string of the prompt. *)
Definition instruction_format (system_instruction context_header context_text
    question_header query answer_instruction : str) : str :=
  lit "[INST] " ++ system_instruction ++ [NL; NL]
  ++ context_header ++ [NL]
  ++ context_text ++ [NL; NL]
  ++ question_header ++ lit " " ++ query ++ [NL; NL]
  ++ answer_instruction ++ lit " [/INST]".

(** Lines 96-144: the instruction envelope around a context. *)
Definition envelope (is_hindi_query : bool) (query : str) (context_text : str)
    (grade : Z) (subject : str) (hindi_terms : option glossary) : str :=
  let system_instruction :=
    if is_hindi_query
    then hindi_instruction grade subject ++ terms_block hindi_terms
    else english_instruction grade subject in
  let context_header :=
    if is_hindi_query then lit "NCERT पाठ्यपुस्तक से संदर्भ सामग्री:"
    else lit "Reference Material from NCERT Textbooks:" in
  let question_header :=
    if is_hindi_query then lit "छात्र का प्रश्न:" else lit "Student's Question:" in
  let answer_instruction :=
    if is_hindi_query
    then lit "उत्तर (केवल हिंदी में, बिना किसी स्रोत उद्धरण के):"
    else lit "Answer (in English, without source citations in text):" in
  instruction_format system_instruction context_header context_text
                     question_header query answer_instruction.

Definition build_mistral_prompt (query : str)
    (context_chunks : list context_chunk) (grade : Z) (language : str)
    (subject : str) (hindi_terms : option glossary) : str :=
  let is_hindi_query := is_hindi language in
  envelope is_hindi_query query (build_context is_hindi_query context_chunks)
           grade subject hindi_terms.

(** Line 184: the stop sequences; lines 178-186: the sampling parameters. *)
Definition stop_sequences : list str :=
  [lit "[INST]"; lit "Student:"; lit "Context:"; lit "संदर्भ:"; lit "छात्र का प्रश्न:"].

Definition sampling_of (cfg : MistralConfig) : sampling := {|
  s_max_tokens := max_tokens cfg;
  s_temperature := temperature cfg;
  s_top_p := top_p cfg;
  s_top_k := top_k cfg;
  s_stop := stop_sequences;
  s_echo := false
|}.

(** [response['choices'][0]['text']] *)
Definition first_choice_text (response : completion) : result str :=
  match choices response with
  | [] => Raise (Exn (lit "IndexError") (lit "list index out of range"))
  | None :: _ => Raise (Exn (lit "KeyError") (lit "'text'"))
  | Some t :: _ => Ok t
  end.

(** [response['usage']['completion_tokens']] *)
Definition completion_tokens (response : completion) : result Z :=
  match usage_completion_tokens response with
  | Some n => Ok n
  | None => Raise (Exn (lit "KeyError") (lit "'completion_tokens'"))
  end.

(** Lines 192-194: the citation markers are removed and the whitespace
    collapsed. *)
Definition clean_citations (answer_text : str) : str :=
  collapse_ws (Re.remove Re.page_marker (Re.remove Re.source_marker answer_text)).

(** Line 204-205: the loop over the glossary, longest English term first. *)
Definition substitute_terms (hindi_terms : option glossary) (answer_text : str)
  : result str :=
  fold_left
    (fun acc p =>
       bind acc (Re.sub (Re.whole_word_ignorecase (fst p)) (snd p)))
    (longest_first (items hindi_terms))
    (Ok answer_text).

(** Lines 196-205: the check of a Hindi answer for English words. *)
Definition purity_pass (language : str) (hindi_terms : option glossary)
    (answer_text : str) : trace * result str :=
  if is_hindi language
  then
    let english_words := Re.findall Re.english_word answer_text in
    if 5 <? length english_words
    then ([WarnEnglishWords (length english_words)],
          if truthy hindi_terms
          then substitute_terms hindi_terms answer_text
          else Ok answer_text)
    else ([], Ok answer_text)
  else ([], Ok answer_text).

Definition model_label : str := lit "Mistral-7B-Instruct-v0.2".

(** Lines 176-216: the body of the [try]. *)
Definition try_generate (svc : service) (prompt : str)
    (language : str) (hindi_terms : option glossary)
  : trace * result generation :=
  let params := sampling_of (config svc) in
  match model svc prompt params with
  | Raise e => ([CallModel prompt params], Raise e)
  | Ok response =>
      match first_choice_text response with
      | Raise e => ([CallModel prompt params], Raise e)
      | Ok raw =>
          let answer_text := clean_citations (strip raw) in
          let (log, purified) := purity_pass language hindi_terms answer_text in
          (CallModel prompt params :: log,
           bind purified (fun answer_text =>
           bind (completion_tokens response) (fun tokens_used =>
           Ok {| answer := answer_text;
                 tokens_used := tokens_used;
                 model_name := model_label;
                 success := true;
                 error := None |})))
      end
  end.

(** Lines 153-226: [generate_answer]; the prompt is built before the [try],
    and [except Exception] turns a failure of the body into the failure
    dict. *)
Definition generate_answer (svc : service) (query : str)
    (context_chunks : list context_chunk) (grade : Z) (language : str)
    (subject : str) (hindi_terms : option glossary) : trace * generation :=
  let prompt :=
    build_mistral_prompt query context_chunks grade language subject hindi_terms in
  let (log, outcome) := try_generate svc prompt language hindi_terms in
  match outcome with
  | Ok g => (log, g)
  | Raise e =>
      (log ++ [ErrorGeneration e],
       {| answer := lit "Error: Could not generate response";
          tokens_used := 0;
          model_name := model_label;
          success := false;
          error := Some (exn_str e) |})
  end.

End Service.
End MistralService.

(** ** opea_microservices/orchestration/rag_orchestrator.py *)

Module RagOrchestrator.
Import Py Data.

(** [{'chapter': ..., 'page': ...}]: the page is the stored number or the
    string ['Unknown']. *)
Record citation := {
  chapter : str;
  page : Z + str
}.

Record QueryResponse := {
  answer : str;
  language : str;
  confidence : Q;
  citations : list citation;
  retrieved_chunks : list retrieved_chunk
}.

(** The orchestrator object: [embedding_model.encode([text])[0].tolist()],
    [vector_store.search(...)] and the language model service, which is
    [None] when Mistral is not used. *)
Record orchestrator := {
  embedding_model : str -> result (list Q);
  vector_store : list Q -> Z -> option str -> str -> option Z
                 -> result (list retrieved_chunk);
  llm_service : option MistralService.service
}.

(** Lines 58-76, in the order of the dict. *)
Definition hindi_to_english : list (str * str) := [
  (lit "प्रकाश संश्लेषण", lit "photosynthesis");
  (lit "प्रकाश", lit "light");
  (lit "संश्लेषण", lit "synthesis");
  (lit "पौधे", lit "plants");
  (lit "पत्ते", lit "leaves");
  (lit "हरा", lit "green");
  (lit "भोजन", lit "food");
  (lit "कार्बन डाइऑक्साइड", lit "carbon dioxide");
  (lit "पानी", lit "water");
  (lit "सूर्य का प्रकाश", lit "sunlight");
  (lit "ऑक्सीजन", lit "oxygen");
  (lit "वायुमंडल", lit "atmosphere");
  (lit "परावर्तन", lit "reflection");
  (lit "छाया", lit "shadow");
  (lit "पारदर्शी", lit "transparent");
  (lit "अपारदर्शी", lit "opaque");
  (lit "अर्धपारदर्शी", lit "translucent") ].

(** Lines 78-83: the membership test reads the query as it came, the
    replacement works on the query as rewritten so far. *)
Definition translate_hindi_query (query : str) : str :=
  fold_left
    (fun translated_query p =>
       if contains query (fst p)
       then replace translated_query (fst p) (snd p)
       else translated_query)
    hindi_to_english query.

(** Lines 147-149: the string that is embedded. *)
Definition search_query_of (query : str) : str :=
  if negb (isascii query) then translate_hindi_query query else query.

(** Lines 87-122. *)
Definition get_hindi_terms : glossary := [
  (lit "photosynthesis", lit "प्रकाश संश्लेषण");
  (lit "light", lit "प्रकाश");
  (lit "plants", lit "पौधे");
  (lit "leaves", lit "पत्ते");
  (lit "green", lit "हरा");
  (lit "food", lit "भोजन");
  (lit "carbon dioxide", lit "कार्बन डाइऑक्साइड");
  (lit "water", lit "पानी");
  (lit "sunlight", lit "सूर्य का प्रकाश");
  (lit "oxygen", lit "ऑक्सीजन");
  (lit "atmosphere", lit "वायुमंडल");
  (lit "reflection", lit "परावर्तन");
  (lit "shadow", lit "छाया");
  (lit "transparent", lit "पारदर्शी");
  (lit "opaque", lit "अपारदर्शी");
  (lit "translucent", lit "अर्धपारदर्शी");
  (lit "process", lit "प्रक्रिया");
  (lit "energy", lit "ऊर्जा");
  (lit "chlorophyll", lit "हरितलवक");
  (lit "glucose", lit "ग्लूकोज");
  (lit "starch", lit "स्टार्च");
  (lit "production", lit "उत्पादन");
  (lit "results", lit "परिणाम");
  (lit "presence", lit "उपस्थिति");
  (lit "using", lit "का उपयोग करके");
  (lit "make", lit "बनाते हैं");
  (lit "their", lit "अपना");
  (lit "by which", lit "जिसके द्वारा");
  (lit "is a", lit "एक");
  (lit "and", lit "तथा");
  (lit "in the", lit "में");
  (lit "of", lit "का");
  (lit "sun", lit "सूर्य") ].

Definition degraded_answer : str := lit "Error: Could not generate response".
Definition no_service_answer : str := lit "Error: LLM service not available".

Section Orchestrator.
Context `{runtime}.

(** Lines 238-242: the four replacements made for one term. *)
Definition replace_term (answer : str) (p : str * str) : str :=
  let eng_term := fst p in
  let hindi_term := snd p in
  let answer := replace answer eng_term hindi_term in
  let answer := replace answer (capitalize eng_term) hindi_term in
  let answer := replace answer (upper eng_term) hindi_term in
  replace answer (lower eng_term) hindi_term.

(** Lines 235-246: what a Hindi answer goes through when a glossary is
    there. *)
Definition replace_english_terms (hindi_terms : option glossary) (answer : str)
  : str :=
  let answer := fold_left replace_term (longest_first (items hindi_terms)) answer in
  let answer := Re.remove Re.latin_parenthetical answer in
  collapse_ws answer.

(** Lines 228-248: the answer of a successful generation. *)
Definition polish (language : str) (hindi_terms : option glossary)
    (answer : str) : str :=
  let answer := MistralService.clean_citations answer in
  if MistralService.is_hindi language && truthy hindi_terms
  then replace_english_terms hindi_terms answer
  else answer.

(** Lines 204-253: [OPEARAGOrchestrator.generate_answer]. *)
Definition generate_answer (o : orchestrator) (query : str)
    (context_chunks : list context_chunk) (grade : Z) (subject : str)
    (language : str) (hindi_terms : option glossary) : trace * str :=
  match llm_service o with
  | Some svc =>
      let (log, result) :=
        MistralService.generate_answer svc query context_chunks grade language
                                       subject hindi_terms in
      if MistralService.success result
      then (log, polish language hindi_terms (MistralService.answer result))
      else (log ++ [ErrorGenerationFailed (MistralService.error result)],
            degraded_answer)
  | None => ([], no_service_answer)
  end.

(** Lines 165-171: [chunk['text']] and [chunk['metadata']] raise [KeyError]
    on a chunk without the key. *)
Definition context_chunk_of (chunk : retrieved_chunk) : result context_chunk :=
  match rc_text chunk with
  | None => Raise (Exn (lit "KeyError") (lit "'text'"))
  | Some t =>
      match rc_metadata chunk with
      | None => Raise (Exn (lit "KeyError") (lit "'metadata'"))
      | Some m => Ok {| cc_text := t; cc_metadata := m |}
      end
  end.

Fixpoint context_chunks_of (chunks : list retrieved_chunk)
  : result (list context_chunk) :=
  match chunks with
  | [] => Ok []
  | chunk :: rest =>
      bind (context_chunk_of chunk) (fun c =>
      bind (context_chunks_of rest) (fun cs => Ok (c :: cs)))
  end.

(** Lines 188-194. *)
Definition citation_of (c : context_chunk) : citation := {|
  chapter := match md_chapter (cc_metadata c) with
             | Some ch => ch
             | None => lit "Unknown"
             end;
  page := match md_page_num (cc_metadata c) with
          | Some n => inl n
          | None => inr (lit "Unknown")
          end
|}.

(** [x or default] on strings *)
Definition or_default (x : option str) (default : str) : str :=
  match x with
  | Some (c :: s) => c :: s
  | _ => default
  end.

(** Lines 124-202: [process_query]. *)
Definition process_query (o : orchestrator) (query : str) (grade : Z)
    (subject : option str) (top_k : option Z) (language : option str)
  : trace * result QueryResponse :=
  let response_language := or_default language (lit "english") in
  let search_query := search_query_of query in
  match embedding_model o search_query with
  | Raise e => ([CallEncode search_query], Raise e)
  | Ok query_embedding =>
      let calls :=
        [CallEncode search_query;
         CallSearch query_embedding grade subject (lit "english") top_k] in
      match vector_store o query_embedding grade subject (lit "english") top_k with
      | Raise e => (calls, Raise e)
      | Ok retrieved =>
          match context_chunks_of retrieved with
          | Raise e => (calls, Raise e)
          | Ok context_chunks =>
              let (log, answer) :=
                generate_answer o query context_chunks grade
                  (or_default subject (lit "science"))
                  response_language
                  (if MistralService.is_hindi response_language
                   then Some get_hindi_terms else None) in
              let confidence := (9 # 10)%Q in
              (calls ++ log,
               Ok {| answer := answer;
                     language := response_language;
                     confidence := confidence;
                     citations := map citation_of context_chunks;
                     retrieved_chunks := retrieved |})
          end
      end
  end.

End Orchestrator.
End RagOrchestrator.

(** ** scripts/api_server.py *)

Module ApiServer.
Import Py Data.

Record QueryRequest := {
  query : str;
  grade : Z;
  subject : str;
  language : option str;
  top_k : option Z
}.

Record Citation := {
  id : nat;
  source : str;
  chapter : str;
  section : str;
  page : Z;
  excerpt : str;
  relevance : Q;
  chunk_id : str
}.

Record SourceMetadata := {
  sm_page : Z;
  sm_chapter : str;
  sm_section : str;
  sm_token_count : Z;
  sm_grade : Z;
  sm_subject : str;
  sm_source_file : str
}.

Record SourceChunk := {
  sc_chunk_id : str;
  sc_full_text : str;
  sc_metadata : SourceMetadata;
  sc_relevance : Q
}.

Record QueryMetadata := {
  qm_grade : Z;
  qm_subject : str;
  qm_language : str;
  qm_query_language : str;
  qm_model : str;
  qm_tokens_used : Z;
  qm_confidence : Q;
  qm_chunks_retrieved : nat;
  qm_processing_time_ms : Z
}.

Record QueryResponse := {
  answer : str;
  metadata : QueryMetadata;
  citations : list Citation;
  source_chunks : list SourceChunk
}.

Record HTTPException := {
  status_code : Z;
  detail : str
}.

(** [round(x)] to the nearest integer, a half going to the even one. *)
Definition round_half_even (x : Q) : Z :=
  let f := Qfloor x in
  match Qcompare (x - inject_Z f) (1 # 2) with
  | Lt => f
  | Gt => (f + 1)%Z
  | Eq => if Z.even f then f else (f + 1)%Z
  end.

(** [round(x, 3)] *)
Definition round3 (x : Q) : Q := Qmake (round_half_even (x * 1000)) 1000.

(** [dict.get(key, default)] *)
Definition get {A} (field : option A) (default : A) : A :=
  match field with
  | Some v => v
  | None => default
  end.

Definition no_metadata : Data.metadata := {|
  md_chapter := None; md_section := None; md_page_num := None;
  md_token_count := None; md_grade := None; md_subject := None;
  md_meta_source_file := None
|}.

Definition excerpt_limit : nat := 150.

(** Lines 133-136. *)
Definition excerpt_of (full_text : str) : str :=
  let excerpt := strip (slice_to excerpt_limit full_text) in
  if excerpt_limit <? len full_text then excerpt ++ lit "..." else excerpt.

(** Lines 138-139. *)
Definition relevance_of (chunk : retrieved_chunk) : Q :=
  let distance := get (rc_distance chunk) (1 # 2)%Q in
  round3 (1 - distance).

(** Lines 117-119. *)
Definition detect_query_language (query : str) : str :=
  if negb (isascii query) then lit "hindi" else lit "english".

(** [enumerate(l)] *)
Fixpoint enumerate_from {A} (i : nat) (l : list A) : list (nat * A) :=
  match l with
  | [] => []
  | x :: l' => (i, x) :: enumerate_from (S i) l'
  end.

Definition set_id (c : Citation) (i : nat) : Citation := {|
  id := i;
  source := source c;
  chapter := chapter c;
  section := section c;
  page := page c;
  excerpt := excerpt c;
  relevance := relevance c;
  chunk_id := chunk_id c
|}.

(** [key(y) > key(x)] for the key [x['relevance']] *)
Definition more_relevant (y x : Citation) : bool :=
  match Qcompare (relevance x) (relevance y) with
  | Lt => true
  | _ => false
  end.

Definition more_relevant_chunk (y x : SourceChunk) : bool :=
  match Qcompare (sc_relevance x) (sc_relevance y) with
  | Lt => true
  | _ => false
  end.

Section Server.
Context `{runtime}.

(** Lines 126-153: the citation built for the chunk at index [idx]. *)
Definition citation_of (grade : Z) (subject : str) (idx : nat)
    (chunk : retrieved_chunk) : Citation :=
  let metadata := get (rc_metadata chunk) no_metadata in
  let chapter := get (md_chapter metadata) (lit "Unknown") in
  let section := get (md_section metadata) (lit "General") in
  let chapter :=
    if str_eqb chapter (lit "Unknown") && negb (str_eqb section (lit "General"))
    then section else chapter in
  let full_text := get (rc_text chunk) [] in
  let subject_title := title (replace subject (lit "_") (lit " ")) in
  {| id := idx + 1;
     source := lit "NCERT " ++ subject_title ++ lit " Grade " ++ str_of_Z grade;
     chapter := chapter;
     section := section;
     page := get (md_page_num metadata) 0%Z;
     excerpt := excerpt_of full_text;
     relevance := relevance_of chunk;
     chunk_id := get (rc_chunk_id chunk) [] |}.

(** Lines 121-160: [format_citations]. *)
Definition format_citations (retrieved_chunks : list retrieved_chunk)
    (grade : Z) (subject : str) : list Citation :=
  let citations :=
    map (fun ic => citation_of grade subject (fst ic) (snd ic))
        (enumerate_from 0 retrieved_chunks) in
  let citations := sort_desc more_relevant citations in
  map (fun ic => set_id (snd ic) (fst ic + 1)) (enumerate_from 0 citations).

Definition source_chunk_of (chunk : retrieved_chunk) : SourceChunk :=
  let metadata := get (rc_metadata chunk) no_metadata in
  {| sc_chunk_id := get (rc_chunk_id chunk) [];
     sc_full_text := get (rc_text chunk) [];
     sc_metadata := {|
       sm_page := get (md_page_num metadata) 0%Z;
       sm_chapter := get (md_chapter metadata) (lit "Unknown");
       sm_section := get (md_section metadata) (lit "General");
       sm_token_count := get (md_token_count metadata) 0%Z;
       sm_grade := get (md_grade metadata) 0%Z;
       sm_subject := get (md_subject metadata) [];
       sm_source_file := get (md_meta_source_file metadata) [] |};
     sc_relevance := relevance_of chunk |}.

(** Lines 162-187: [format_source_chunks]. *)
Definition format_source_chunks (retrieved_chunks : list retrieved_chunk)
  : list SourceChunk :=
  sort_desc more_relevant_chunk (map source_chunk_of retrieved_chunks).

(** Line 310: [min(request.top_k, 3)] for a Hindi answer; [min] raises
    [TypeError] on [None]. *)
Definition adjust_top_k (response_language : str) (top_k : option Z)
  : result (option Z) :=
  if MistralService.is_hindi response_language
  then match top_k with
       | Some k => Ok (Some (Z.min k 3))
       | None =>
           Raise (Exn (lit "TypeError")
                      (lit "'<' not supported between instances of 'int' and 'NoneType'"))
       end
  else Ok top_k.

(** Lines 328-330. *)
Definition reported_tokens (o : RagOrchestrator.orchestrator) : Z :=
  match RagOrchestrator.llm_service o with
  | Some svc => MistralService.max_tokens (MistralService.config svc)
  | None => 512%Z
  end.

(** Lines 301-358: the body of the [try]; [elapsed_ms] is what the clock
    gives for [int((time.time() - start_time) * 1000)]. *)
Definition try_process_query (o : RagOrchestrator.orchestrator)
    (elapsed_ms : Z) (request : QueryRequest) : trace * result QueryResponse :=
  let query_language := detect_query_language (query request) in
  let response_language :=
    RagOrchestrator.or_default (language request) (lit "english") in
  match adjust_top_k response_language (top_k request) with
  | Raise e => ([], Raise e)
  | Ok adjusted_top_k =>
      let (log, outcome) :=
        RagOrchestrator.process_query o (query request) (grade request)
          (Some (subject request)) adjusted_top_k (Some response_language) in
      match outcome with
      | Raise e => (log, Raise e)
      | Ok rag_response =>
          let tokens_used := reported_tokens o in
          let retrieved := RagOrchestrator.retrieved_chunks rag_response in
          (log,
           Ok {| answer := RagOrchestrator.answer rag_response;
                 metadata := {|
                   qm_grade := grade request;
                   qm_subject := subject request;
                   qm_language := response_language;
                   qm_query_language := query_language;
                   qm_model := lit "Mistral-7B-Instruct-v0.2";
                   qm_tokens_used := tokens_used;
                   qm_confidence := RagOrchestrator.confidence rag_response;
                   qm_chunks_retrieved := length retrieved;
                   qm_processing_time_ms := elapsed_ms |};
                 citations :=
                   format_citations retrieved (grade request) (subject request);
                 source_chunks := format_source_chunks retrieved |})
      end
  end.

(** Lines 272-362: the [/query] operation; [rag_orchestrator] is the global,
    [None] before start-up. *)
Definition process_query (rag_orchestrator : option RagOrchestrator.orchestrator)
    (elapsed_ms : Z) (request : QueryRequest)
  : trace * (HTTPException + QueryResponse) :=
  match rag_orchestrator with
  | None =>
      ([], inl {| status_code := 503;
                  detail := lit "RAG orchestrator not initialized" |})
  | Some o =>
      let (log, outcome) := try_process_query o elapsed_ms request in
      match outcome with
      | Ok response => (log, inr response)
      | Raise e =>
          (log, inl {| status_code := 500;
                       detail := lit "Query processing failed: " ++ exn_str e |})
      end
  end.

End Server.
End ApiServer.

Unset Implicit Arguments.

(** ** The vocabulary of the properties and the inputs of the example runs *)

Module Spec.
Import Py Data Re.

(** *** Context assembly *)

(** The labelled contents of the chunks of a list, numbered from [i], one
    after the other: what the blob holds when all of them are taken. *)
Fixpoint labelled (is_hindi_query : bool) (i : nat)
    (chunks : list context_chunk) : str :=
  match chunks with
  | [] => []
  | chunk :: rest =>
      MistralService.chunk_content is_hindi_query i
        (MistralService.truncate_chunk (cc_text chunk))
      ++ labelled is_hindi_query (S i) rest
  end.

(** The label put in front of the [i]-th chunk. *)
Definition label (is_hindi_query : bool) (i : nat) : str :=
  (if is_hindi_query then lit "संदर्भ " else lit "Context ")
  ++ str_of_nat i ++ lit ":" ++ [NL].

(** *** Sorting and citations *)

(** [in_order above idx a b]: in a list sorted by [above], [b] may follow
    [a]: [b] is not above [a], and when their keys are tied [a] had the
    earlier position [idx] before the sort. *)
Definition in_order {A : Type} (above : A -> A -> bool) (idx : A -> nat)
    (a b : A) : Prop :=
  above b a = false /\ (above a b = false -> idx a < idx b).

(** The position a citation had before the sort, read off the id the first
    loop gave it. *)
Definition position (c : ApiServer.Citation) : nat := ApiServer.id c - 1.

(** The text does not start with whitespace. *)
Definition starts_clean (s : str) : bool :=
  match s with
  | c :: _ => negb (isspace c)
  | [] => true
  end.

(** Neither the first nor the last code point is whitespace. *)
Definition edge_clean (s : str) : bool :=
  starts_clean s && starts_clean (rev s).

(** *** Sanitizing *)

(** The number of maximal runs of basic Latin letters that are at least 4
    long; [run] is the length of the run the text read so far ends with. *)
Fixpoint count_long_runs (run : nat) (s : str) : nat :=
  match s with
  | [] => if 4 <=? run then 1 else 0
  | c :: s' =>
      if ascii_letter c
      then count_long_runs (S run) s'
      else (if 4 <=? run then 1 else 0) + count_long_runs 0 s'
  end.

(** The length of the longest prefix in the class [p]. *)
Fixpoint prefix_len (p : codepoint -> bool) (s : str) : nat :=
  match s with
  | c :: s' => if p c then S (prefix_len p s') else 0
  | [] => 0
  end.

(** The code point before the position reached after reading [l]. *)
Definition last_of (prev : option codepoint) (l : str) : option codepoint :=
  match rev l with
  | [] => prev
  | c :: _ => Some c
  end.

(** *** The pipeline *)

(** The query holds none of the Hindi terms of the table. *)
Definition no_known_term (query : str) : bool :=
  forallb (fun p => negb (contains query (fst p)))
          RagOrchestrator.hindi_to_english.

(** The dict of the [except] branch. *)
Definition failure_dict (e : exn) : MistralService.generation := {|
  MistralService.answer := lit "Error: Could not generate response";
  MistralService.tokens_used := 0;
  MistralService.model_name := MistralService.model_label;
  MistralService.success := false;
  MistralService.error := Some (exn_str e)
|}.

(** The orchestrator with another language model behind the same
    configuration. *)
Definition with_model (o : RagOrchestrator.orchestrator)
    (m : MistralService.llama) : RagOrchestrator.orchestrator := {|
  RagOrchestrator.embedding_model := RagOrchestrator.embedding_model o;
  RagOrchestrator.vector_store := RagOrchestrator.vector_store o;
  RagOrchestrator.llm_service :=
    option_map
      (fun svc => {| MistralService.config := MistralService.config svc;
                     MistralService.model := m |})
      (RagOrchestrator.llm_service o)
|}.

Section WithRuntime.
Context `{runtime}.

(** The citations as built by the first loop, before the sort. *)
Definition unsorted (retrieved_chunks : list retrieved_chunk)
    (grade : Z) (subject : str) : list ApiServer.Citation :=
  map (fun ic => ApiServer.citation_of grade subject (fst ic) (snd ic))
      (ApiServer.enumerate_from 0 retrieved_chunks).

(** [term] stands at the start of [s], up to case. *)
Fixpoint ci_prefix (term s : str) : bool :=
  match term, s with
  | [], _ => true
  | _ :: _, [] => false
  | p :: term', c :: s' => ignorecase_eq p c && ci_prefix term' s'
  end.

(** The prompt of a model call is the one built from the raw [query]. *)
Definition prompt_of_raw_query (query : str) (prompt : str) : Prop :=
  exists context_chunks grade language subject hindi_terms,
    prompt = MistralService.build_mistral_prompt
               query context_chunks grade language subject hindi_terms.

(** What the trace of [process_query] may hold after the embedding call: no
    further embedding, a search with the embedding of the canonical string,
    model calls with a prompt built from the raw query, and log entries. *)
Definition after_embedding (o : RagOrchestrator.orchestrator) (query : str)
    (e : event) : Prop :=
  match e with
  | CallEncode _ => False
  | CallSearch embedding _ _ _ _ =>
      RagOrchestrator.embedding_model o (RagOrchestrator.search_query_of query)
      = Ok embedding
  | CallModel prompt _ => prompt_of_raw_query query prompt
  | _ => True
  end.

End WithRuntime.

(** *** Example inputs *)

(** A language model that answers [text] and reports [n] completion
    tokens. *)
Definition canned (text : str) (n : Z) : MistralService.llama :=
  fun _ _ => Ok {| MistralService.choices := [Some text];
                   MistralService.usage_completion_tokens := Some n |}.

(** A language model that raises. *)
Definition failing : MistralService.llama :=
  fun _ _ => Raise (Exn (lit "RuntimeError") (lit "llama_decode returned 1")).

(** The chunk of the usage example of mistral_service.py, at distance 0.25. *)
Definition counting_chunk : retrieved_chunk := {|
  rc_chunk_id := Some (lit "test_001");
  rc_text :=
    Some (lit "Natural numbers are numbers used for counting: 1, 2, 3, 4, ...");
  rc_metadata := Some {|
    md_chapter := Some (lit "Chapter 1: Numbers");
    md_section := None;
    md_page_num := Some 5%Z;
    md_token_count := None;
    md_grade := Some 6%Z;
    md_subject := Some (lit "mathematics");
    md_meta_source_file := None |};
  rc_distance := Some (1 # 4)%Q
|}.

(** An orchestrator around the language model [m]: the store returns the
    one chunk. *)
Definition demo (m : MistralService.llama) : RagOrchestrator.orchestrator := {|
  RagOrchestrator.embedding_model := fun _ => Ok [(1 # 2)%Q];
  RagOrchestrator.vector_store := fun _ _ _ _ _ => Ok [counting_chunk];
  RagOrchestrator.llm_service := Some {|
    MistralService.config := MistralService.default_config;
    MistralService.model := m |}
|}.

(** A request for grade 6 mathematics. *)
Definition request (query language : str) : ApiServer.QueryRequest := {|
  ApiServer.query := query;
  ApiServer.grade := 6%Z;
  ApiServer.subject := lit "mathematics";
  ApiServer.language := Some language;
  ApiServer.top_k := Some 3%Z
|}.

(** The response of the [/query] operation, when there is one. *)
Definition response_of {A B} (r : A + B) : option B :=
  match r with
  | inr b => Some b
  | inl _ => None
  end.

End Spec.

(** ** More vocabulary: whitespace, translation tables, traces *)

Module Props.
Import Py Data.

(** A token of [s.split()]: not empty and free of whitespace. *)
Definition is_token (w : str) : bool :=
  match w with
  | [] => false
  | _ :: _ => forallb (fun c => negb (isspace c)) w
  end.

Definition non_ascii (c : codepoint) : bool := negb (c <? 128)%N.

(** The number of code points outside ASCII. *)
Definition count_non_ascii (s : str) : nat := length (filter non_ascii s).

(** Not empty and without any ASCII code point. *)
Definition pure_non_ascii (t : str) : bool :=
  match t with
  | [] => false
  | _ :: _ => forallb non_ascii t
  end.

(** Not empty and ASCII. *)
Definition plain_ascii (t : str) : bool :=
  match t with
  | [] => false
  | _ :: _ => isascii t
  end.

(** The loop of [_translate_hindi_query] over another table. *)
Definition translate_with (table : list (str * str)) (query : str) : str :=
  fold_left
    (fun translated_query p =>
       if contains query (fst p)
       then replace translated_query (fst p) (snd p)
       else translated_query)
    table query.

(** The entries of a table that no earlier entry shadows: an entry is
    shadowed when its Hindi term holds the term of an earlier entry that is
    written without any ASCII code point.  [seen] are such earlier terms. *)
Fixpoint unshadowed (seen : list str) (table : list (str * str))
  : list (str * str) :=
  match table with
  | [] => []
  | p :: rest =>
      if existsb (contains (fst p)) seen
      then unshadowed seen rest
      else p :: unshadowed
                  (if pure_non_ascii (fst p) then fst p :: seen else seen) rest
  end.

(** Every Hindi term has a code point outside ASCII and every English term
    is ASCII and not empty. *)
Definition well_formed (table : list (str * str)) : bool :=
  forallb (fun p => (0 <? count_non_ascii (fst p)) && plain_ascii (snd p)) table.

(** The calls to the collaborators among the events of a run. *)
Definition is_call (e : event) : bool :=
  match e with
  | CallEncode _ | CallSearch _ _ _ _ _ | CallModel _ _ => true
  | _ => false
  end.

Definition calls (t : trace) : list event := filter is_call t.

(** A retrieved chunk with all four keys. *)
Definition complete (chunk : retrieved_chunk) : bool :=
  match rc_chunk_id chunk, rc_text chunk, rc_metadata chunk, rc_distance chunk with
  | Some _, Some _, Some _, Some _ => true
  | _, _, _, _ => false
  end.

(** What two runs have in common when they agree on the retrieval: the
    same exception, or responses with the same chunks and citations. *)
Definition same_retrieval (a b : result RagOrchestrator.QueryResponse) : Prop :=
  match a, b with
  | Ok r, Ok r' =>
      RagOrchestrator.retrieved_chunks r = RagOrchestrator.retrieved_chunks r'
      /\ RagOrchestrator.citations r = RagOrchestrator.citations r'
  | Raise e, Raise e' => e = e'
  | _, _ => False
  end.

(** The search calls of a run ask for [top_k] results. *)
Definition searches_ask (top_k : option Z) (t : trace) : Prop :=
  Forall (fun e =>
            match e with
            | CallSearch _ _ _ _ k => k = top_k
            | _ => True
            end) t.

End Props.

(** ** Python dicts with string keys, as the ingestion code uses them

    A dict is the list of its items in insertion order; the keys of a dict
    are distinct. *)

Module PyDict.
Import Py.

#[warnings="-register-all"]
Inductive value :=
| VNone
| VStr (s : str)
| VInt (z : Z)
| VFloat (q : Q)
| VList (l : list value)
| VDict (d : list (str * value)).

Definition dict := list (str * value).

(** [d.get(k)] as an option: [None] when the key is missing. *)
Fixpoint get (d : dict) (k : str) : option value :=
  match d with
  | [] => None
  | (k', v) :: d' => if str_eqb k k' then Some v else get d' k
  end.

(** [k in d] *)
Definition mem (d : dict) (k : str) : bool :=
  match get d k with
  | Some _ => true
  | None => false
  end.

(** [d.get(k, default)] *)
Definition get_default (d : dict) (k : str) (default : value) : value :=
  match get d k with
  | Some v => v
  | None => default
  end.

(** [d[k]]: [KeyError] when the key is missing; [str(e)] is the key
    between quotes (for a key that holds no quote or escape). *)
Definition item (d : dict) (k : str) : result value :=
  match get d k with
  | Some v => Ok v
  | None => Raise (Exn (lit "KeyError") (lit "'" ++ k ++ lit "'"))
  end.

(** [d[k] = v]: the value is replaced where the key stands, a new key goes
    at the end. *)
Fixpoint set (d : dict) (k : str) (v : value) : dict :=
  match d with
  | [] => [(k, v)]
  | (k', v') :: d' =>
      if str_eqb k k' then (k, v) :: d' else (k', v') :: set d' k v
  end.

(** [del d[k]], for a key that is there. *)
Definition del (d : dict) (k : str) : dict :=
  filter (fun kv => negb (str_eqb k (fst kv))) d.

Definition keys (d : dict) : list str := map fst d.

(** [[chunk[k] for chunk in chunks]] *)
Fixpoint items_of (chunks : list dict) (k : str) : result (list value) :=
  match chunks with
  | [] => Ok []
  | chunk :: rest =>
      bind (item chunk k) (fun v =>
      bind (items_of rest k) (fun vs => Ok (v :: vs)))
  end.

End PyDict.

(** ** opea_microservices/retrieval/vector_store.py *)

Module VectorStore.
Import Py Data PyDict.

(** One [{"field": {"$eq": value}}] of the [where] filter. *)
Inductive condition :=
| GradeEq (grade : Z)
| SubjectEq (subject : str)
| LanguageEq (language : str).

(** What [collection.query] returns: one inner list per query embedding. *)
Record query_result := {
  ids : list (list str);
  documents : list (list str);
  metadatas : list (list metadata);
  distances : list (list Q)
}.

(** [collection.query(query_embeddings=[e], n_results=k, where=f)]; the
    filter is [{"$and": conditions}] or [None]. *)
Definition collection_query :=
  list Q -> option Z -> option (list condition) -> result query_result.

Definition index_error : exn :=
  Exn (lit "IndexError") (lit "list index out of range").

(** [l[0]] and [l[i]] *)
Definition first {A} (l : list (list A)) : result (list A) :=
  match l with
  | x :: _ => Ok x
  | [] => Raise index_error
  end.

Definition at_index {A} (l : list A) (i : nat) : result A :=
  match nth_error l i with
  | Some x => Ok x
  | None => Raise index_error
  end.

(** Lines 95-100: the dict built for the result at index [i]. *)
Definition format_result (results : query_result) (i : nat)
  : result retrieved_chunk :=
  bind (first (ids results)) (fun ids0 =>
  bind (at_index ids0 i) (fun chunk_id =>
  bind (first (documents results)) (fun documents0 =>
  bind (at_index documents0 i) (fun text =>
  bind (first (metadatas results)) (fun metadatas0 =>
  bind (at_index metadatas0 i) (fun metadata =>
  bind (first (distances results)) (fun distances0 =>
  bind (at_index distances0 i) (fun distance =>
  Ok {| rc_chunk_id := Some chunk_id;
        rc_text := Some text;
        rc_metadata := Some metadata;
        rc_distance := Some distance |})))))))).

(** The loop [for i in range(n)] that appends [f(i)], stopping at the first
    exception. *)
Fixpoint collect {B} (f : nat -> result B) (indices : list nat)
  : result (list B) :=
  match indices with
  | [] => Ok []
  | i :: rest =>
      bind (f i) (fun b => bind (collect f rest) (fun bs => Ok (b :: bs)))
  end.

(** [if s:] on an optional string *)
Definition given (s : option str) : option str :=
  match s with
  | Some (c :: s') => Some (c :: s')
  | _ => None
  end.

Section Store.
Context `{runtime}.

(** Lines 75-83: the stored spelling of the language. *)
Definition language_condition (language : str) : condition :=
  if str_eqb (lower language) (lit "hindi") then LanguageEq (lit "Hindi")
  else if str_eqb (lower language) (lit "english")
       then LanguageEq (lit "english")
       else LanguageEq language.

(** Lines 69-85: the filter. *)
Definition where_filter (grade : option Z) (subject language : option str)
  : option (list condition) :=
  let where_conditions :=
    (match grade with Some g => [GradeEq g] | None => [] end)
    ++ (match given subject with Some s => [SubjectEq s] | None => [] end)
    ++ (match given language with
        | Some l => [language_condition l]
        | None => []
        end) in
  match where_conditions with
  | [] => None
  | _ :: _ => Some where_conditions
  end.

(** Lines 60-102: [search]. *)
Definition search (query : collection_query) (query_embedding : list Q)
    (grade : option Z) (subject language : option str) (top_k : option Z)
  : result (list retrieved_chunk) :=
  bind (query query_embedding top_k (where_filter grade subject language))
       (fun results =>
  bind (first (ids results)) (fun ids0 =>
  collect (format_result results) (seq 0 (length ids0)))).

(** The store as the orchestrator calls it, lines 156-162 of
    rag_orchestrator.py. *)
Definition as_store (query : collection_query)
  : list Q -> Z -> option str -> str -> option Z
    -> result (list retrieved_chunk) :=
  fun query_embedding grade subject language top_k =>
    search query query_embedding (Some grade) subject (Some language) top_k.

End Store.

(** What [collection.add] receives. *)
Record batch := {
  b_ids : list value;
  b_embeddings : list value;
  b_documents : list value;
  b_metadatas : list dict
}.

(** Lines 32-46: the flattened metadata of one chunk. *)
Definition flatten_metadata (chunk : dict) : dict :=
  let meta := [
    (lit "grade", get_default chunk (lit "grade") VNone);
    (lit "subject", get_default chunk (lit "subject") VNone);
    (lit "language", get_default chunk (lit "language") VNone);
    (lit "chapter", get_default chunk (lit "chapter") (VStr (lit "Unknown")));
    (lit "page_num", get_default chunk (lit "page_num") (VInt (-1)));
    (lit "section", get_default chunk (lit "section") (VStr (lit "Unknown")));
    (lit "chunk_index", get_default chunk (lit "chunk_index") VNone);
    (lit "token_count", get_default chunk (lit "token_count") VNone) ] in
  match get chunk (lit "metadata") with
  | Some (VDict nested) =>
      fold_left (fun meta kv => set meta (lit "meta_" ++ fst kv) (snd kv))
                nested meta
  | _ => meta
  end.

(** Lines 25-48: the four lists handed to [collection.add]. *)
Definition prepare (embedded_chunks : list dict) : result batch :=
  bind (items_of embedded_chunks (lit "chunk_id")) (fun ids =>
  bind (items_of embedded_chunks (lit "embedding")) (fun embeddings =>
  bind (items_of embedded_chunks (lit "text")) (fun documents =>
  Ok {| b_ids := ids;
        b_embeddings := embeddings;
        b_documents := documents;
        b_metadatas := map flatten_metadata embedded_chunks |}))).

(** Lines 22-58: [add_chunks]; [add] is [collection.add], on the state of
    the collection. *)
Definition add_chunks {collection : Type}
    (add : collection -> batch -> result collection)
    (store : collection) (embedded_chunks : list dict) : result collection :=
  bind (prepare embedded_chunks) (add store).

(** The metadata keys set from the top level of a chunk, with the default
    of each. *)
Definition base_fields : list (str * value) := [
  (lit "grade", VNone);
  (lit "subject", VNone);
  (lit "language", VNone);
  (lit "chapter", VStr (lit "Unknown"));
  (lit "page_num", VInt (-1));
  (lit "section", VStr (lit "Unknown"));
  (lit "chunk_index", VNone);
  (lit "token_count", VNone) ].

(** A chunk with the three keys [add_chunks] reads with [chunk[...]]. *)
Definition addable (chunk : dict) : bool :=
  mem chunk (lit "chunk_id") && mem chunk (lit "embedding")
  && mem chunk (lit "text").

(** A collection answering one result: the chunk of the usage example of
    mistral_service.py. *)
Definition one_result : collection_query :=
  fun _ _ _ =>
    Ok {| ids := [[lit "test_001"]];
          documents :=
            [[lit "Natural numbers are numbers used for counting: 1, 2, 3, 4, ..."]];
          metadatas := [[ {| md_chapter := Some (lit "Chapter 1: Numbers");
                             md_section := None;
                             md_page_num := Some 5%Z;
                             md_token_count := None;
                             md_grade := Some 6%Z;
                             md_subject := Some (lit "mathematics");
                             md_meta_source_file := None |} ]];
          distances := [[(1 # 4)%Q]] |}.

End VectorStore.

(** ** opea_microservices/llm/mistral_service.py: the life cycle *)

Module MistralLifecycle.
Import Py Data MistralService.

(** [Llama(model_path=..., n_ctx=..., n_threads=..., n_gpu_layers=...,
    verbose=...)]: the loaded model or the exception of the loader. *)
Definition loader := str -> Z -> Z -> Z -> bool -> result llama.

(** The service object: the fields [config], [model] and [gpu_enabled]. *)
Record instance := {
  svc : service;
  gpu_enabled : bool
}.

Definition not_found (config : MistralConfig) : exn :=
  Exn (lit "FileNotFoundError")
      (lit "Model not found at " ++ model_path config ++ [NL]
       ++ lit "Download from: https://huggingface.co/TheBloke/Mistral-7B-Instruct-v0.2-GGUF").

(** Lines 27-58: [__init__]; [path_exists] is [Path(...).exists()].  An
    exception of the loader is logged and raised again. *)
Definition init (path_exists : str -> bool) (Llama : loader)
    (config : option MistralConfig) : result instance :=
  let config := match config with Some c => c | None => default_config end in
  if negb (path_exists (model_path config))
  then Raise (not_found config)
  else
    bind (Llama (model_path config) (n_ctx config) (n_threads config)
                (n_gpu_layers config) (verbose config))
         (fun model =>
            Ok {| svc := {| config := config; model := model |};
                  gpu_enabled := (0 <? n_gpu_layers config)%Z |}).

Record model_info := {
  mi_model : str;
  mi_quantization : str;
  mi_size_gb : Q;
  mi_context_window : Z;
  mi_gpu_enabled : bool;
  mi_gpu_type : str;
  mi_n_gpu_layers : Z;
  mi_languages_supported : list str
}.

(** Lines 256-267. *)
Definition get_model_info (self : instance) : model_info := {|
  mi_model := lit "Mistral-7B-Instruct-v0.2";
  mi_quantization := lit "Q4_K_M (4-bit)";
  mi_size_gb := (41 # 10)%Q;
  mi_context_window := n_ctx (config (svc self));
  mi_gpu_enabled := gpu_enabled self;
  mi_gpu_type := if gpu_enabled self then lit "Metal (M2 Mac)" else lit "CPU";
  mi_n_gpu_layers :=
    if gpu_enabled self then n_gpu_layers (config (svc self)) else 0%Z;
  mi_languages_supported := [lit "English"; lit "Hindi"]
|}.

(** The configuration of scripts/run_rag_with_mistral.py, line 47:
    [MistralConfig(n_threads=8, n_gpu_layers=35)]. *)
Definition manager_config : MistralConfig := {|
  model_path := model_path default_config;
  n_ctx := n_ctx default_config;
  n_threads := 8;
  n_gpu_layers := 35;
  temperature := temperature default_config;
  top_p := top_p default_config;
  top_k := top_k default_config;
  max_tokens := max_tokens default_config;
  verbose := verbose default_config
|}.

(** A loader that gives the canned model, and the instance it builds. *)
Definition canned_loader : loader :=
  fun _ _ _ _ _ => Ok (Spec.canned (lit "ok") 1%Z).

Definition manager_instance : instance := {|
  svc := {| config := manager_config; model := Spec.canned (lit "ok") 1%Z |};
  gpu_enabled := true
|}.

End MistralLifecycle.

(** ** scripts/rebuild_vector_store_multilingual.py *)

Module RebuildScript.
Import Py Data PyDict.

(** Lines 22-32: the chunks of a file, without their old embeddings. *)
Definition load_chunks_without_embeddings (chunks : list dict) : list dict :=
  map (fun chunk =>
         if mem chunk (lit "embedding")
         then del chunk (lit "embedding")
         else chunk)
      chunks.

(** [model.encode(texts, ...)]: one vector per text. *)
Definition encoder := list value -> result (list (list Q)).

(** Lines 62-64: the loop over [zip(chunks, embeddings)]; the chunks
    beyond the last embedding stay as they are. *)
Fixpoint zip_set (chunks : list dict) (embeddings : list (list Q))
  : list dict :=
  match chunks, embeddings with
  | chunk :: chunks', embedding :: embeddings' =>
      set chunk (lit "embedding") (VList (map VFloat embedding))
      :: zip_set chunks' embeddings'
  | _, _ => chunks
  end.

(** Lines 35-66. *)
Definition generate_multilingual_embeddings (encode : encoder)
    (chunks : list dict) : result (list dict) :=
  bind (items_of chunks (lit "text")) (fun texts =>
  bind (encode texts) (fun embeddings =>
  Ok (zip_set chunks embeddings))).

(** [range(start, stop, step)] for a step above 0: at most [fuel]
    elements are produced, and [stop] of them are enough. *)
Fixpoint range_from (fuel start stop step : nat) : list nat :=
  match fuel with
  | O => []
  | S fuel' =>
      if start <? stop
      then start :: range_from fuel' (start + step) stop step
      else []
  end.

Definition range (start stop step : nat) : list nat :=
  range_from stop start stop step.

(** [l[i:j]] *)
Definition slice {A} (i j : nat) (l : list A) : list A :=
  skipn i (firstn j l).

Definition batch_size : nat := 100.

(** Lines 136-139: the batches of the loop
    [for i in range(0, len(all_chunks), batch_size)]. *)
Definition batches (all_chunks : list dict) : list (list dict) :=
  map (fun i => slice i (i + batch_size) all_chunks)
      (range 0 (length all_chunks) batch_size).

(** The loop: every batch is added in turn, an exception ends the run. *)
Fixpoint add_each {collection : Type}
    (add : collection -> VectorStore.batch -> result collection)
    (store : collection) (bs : list (list dict)) : result collection :=
  match bs with
  | [] => Ok store
  | b :: rest =>
      bind (VectorStore.add_chunks add store b)
           (fun store' => add_each add store' rest)
  end.

Definition add_in_batches {collection : Type}
    (add : collection -> VectorStore.batch -> result collection)
    (store : collection) (all_chunks : list dict) : result collection :=
  add_each add store (batches all_chunks).

(** Lines 69-160, from the loaded files on: new embeddings for all chunks,
    then the batches. *)
Definition rebuild {collection : Type} (encode : encoder)
    (add : collection -> VectorStore.batch -> result collection)
    (empty : collection) (files : list (list dict)) : result collection :=
  let all_chunks := flat_map load_chunks_without_embeddings files in
  bind (generate_multilingual_embeddings encode all_chunks)
       (add_in_batches add empty).

(** The batches a run hands to [add] when every [add] succeeds. *)
Fixpoint prepared (bs : list (list dict)) : result (list VectorStore.batch) :=
  match bs with
  | [] => Ok []
  | b :: rest =>
      bind (VectorStore.prepare b) (fun p =>
      bind (prepared rest) (fun ps => Ok (p :: ps)))
  end.

(** Two chunks of a file, the first with an old embedding, a model that
    answers the vector (1/2) for every text, and the chunks after the run. *)
Definition sample_chunks : list dict :=
  [[(lit "chunk_id", VStr (lit "a")); (lit "embedding", VList [VFloat (1 # 3)%Q]);
    (lit "text", VStr (lit "one"))];
   [(lit "chunk_id", VStr (lit "b")); (lit "text", VStr (lit "two"))]].

Definition sample_encoder : encoder :=
  fun texts => Ok (map (fun _ => [(1 # 2)%Q]) texts).

Definition sample_rebuilt : list dict :=
  [[(lit "chunk_id", VStr (lit "a")); (lit "text", VStr (lit "one"));
    (lit "embedding", VList [VFloat (1 # 2)%Q])];
   [(lit "chunk_id", VStr (lit "b")); (lit "text", VStr (lit "two"));
    (lit "embedding", VList [VFloat (1 # 2)%Q])]].

End RebuildScript.

(** ** scripts/run_rag_with_mistral.py *)

Module RagManager.
Import Py Data.

(** The dict [query] returns. *)
Record answer_dict := {
  question : str;
  answer : str;
  language : str;
  confidence : Q;
  citations : list RagOrchestrator.citation;
  grade : Z;
  subject : option str
}.

(** An entry of the questions file: a key may be missing. *)
Record question_data := {
  q_question : option str;
  q_grade : option Z;
  q_subject : option str
}.

Section Manager.
Context `{runtime}.

(** Lines 56-89: [query]; the orchestrator is called without a language. *)
Definition query (rag : RagOrchestrator.orchestrator) (question : str)
    (grade : Z) (subject : option str) (top_k : Z)
  : trace * result answer_dict :=
  let (log, outcome) :=
    RagOrchestrator.process_query rag question grade subject (Some top_k) None in
  (log,
   bind outcome (fun response =>
   Ok {| question := question;
         answer := RagOrchestrator.answer response;
         language := RagOrchestrator.language response;
         confidence := RagOrchestrator.confidence response;
         citations := RagOrchestrator.citations response;
         grade := grade;
         subject := subject |})).

(** Lines 176-180: the call for one entry; without a question the
    orchestrator fails on [query.isascii()] before any call. *)
Definition ask (rag : RagOrchestrator.orchestrator) (q_data : question_data)
  : trace * result answer_dict :=
  match q_question q_data with
  | Some question =>
      query rag question
            (match q_grade q_data with Some g => g | None => 6%Z end)
            (q_subject q_data) 5%Z
  | None =>
      ([], Raise (Exn (lit "AttributeError")
                      (lit "'NoneType' object has no attribute 'isascii'")))
  end.

(** Lines 173-182: the loop over the questions. *)
Fixpoint ask_all (rag : RagOrchestrator.orchestrator)
    (questions : list question_data) : trace * result (list answer_dict) :=
  match questions with
  | [] => ([], Ok [])
  | q_data :: rest =>
      let (log, outcome) := ask rag q_data in
      match outcome with
      | Raise e => (log, Raise e)
      | Ok r =>
          let (log', outcome') := ask_all rag rest in
          (log ++ log', bind outcome' (fun rs => Ok (r :: rs)))
      end
  end.

(** Lines 159-188: [batch_process] on the content of the questions file:
    the results handed to [json.dump], or the exception that is logged. *)
Definition batch_process (rag : RagOrchestrator.orchestrator)
    (questions : result (list question_data))
  : trace * (exn + list answer_dict) :=
  match questions with
  | Raise e => ([], inl e)
  | Ok qs =>
      let (log, outcome) := ask_all rag qs in
      (log, match outcome with Ok rs => inr rs | Raise e => inl e end)
  end.

End Manager.

(** The answer language of a run that goes through the English branch. *)
Definition english_only (question : str) (grade : Z) (subject : str)
    `{runtime} (e : event) : Prop :=
  match e with
  | CallModel prompt _ =>
      exists context_chunks,
        prompt = MistralService.build_mistral_prompt
                   question context_chunks grade (lit "english") subject None
  | WarnEnglishWords _ => False
  | _ => True
  end.

End RagManager.

(* ================================================================== *)
(** * Part II: the properties *)
(* ================================================================== *)

(** ** Context assembly (build_mistral_prompt, lines 75-93) *)

Module ContextAssembly.
Import Py Data MistralService Spec.

Lemma chunk_content_label h i t :
  chunk_content h i t = label h i ++ t ++ [NL; NL].
Proof.
  unfold chunk_content, label.
  destruct h; repeat rewrite <- app_assoc; reflexivity.
Qed.

Lemma labelled_snoc h chunks : forall i c,
  labelled h i (chunks ++ [c])
  = labelled h i chunks
    ++ chunk_content h (i + length chunks) (truncate_chunk (cc_text c)).
Proof.
  induction chunks as [|x xs IH]; intros i c; simpl.
  - now rewrite app_nil_r, Nat.add_0_r.
  - rewrite IH, <- app_assoc. do 3 f_equal. lia.
Qed.

Lemma labelled_firstn_le h j : forall chunks i,
  len (labelled h i (firstn j chunks)) <= len (labelled h i chunks).
Proof.
  unfold len.
  induction j as [|j IH]; intros [|c chunks] i; simpl; try lia.
  rewrite !length_app. specialize (IH chunks (S i)). lia.
Qed.

(** The loop, from any state within the budget: it takes a prefix of the
    chunks, stays within the budget, and the chunk it stopped at, if any,
    is one that would have gone over. *)
Lemma context_loop_spec h chunks : forall i context_text total_chars,
  total_chars <= max_context_chars ->
  exists k,
    k <= length chunks /\
    context_loop h i chunks context_text total_chars
    = (context_text ++ labelled h i (firstn k chunks),
       total_chars + len (labelled h i (firstn k chunks))) /\
    total_chars + len (labelled h i (firstn k chunks)) <= max_context_chars /\
    (forall c, nth_error chunks k = Some c ->
       max_context_chars
       < total_chars + len (labelled h i (firstn k chunks))
         + len (chunk_content h (i + k) (truncate_chunk (cc_text c)))).
Proof.
  induction chunks as [|chunk rest IH]; intros i ctx total Hle.
  - exists 0. simpl. rewrite app_nil_r, Nat.add_0_r.
    repeat split; auto. intros c Hc. discriminate.
  - simpl.
    destruct (max_context_chars <?
              total + len (chunk_content h i (truncate_chunk (cc_text chunk))))
      eqn:Hover.
    + apply Nat.ltb_lt in Hover.
      exists 0. simpl. rewrite app_nil_r, !Nat.add_0_r.
      repeat split; auto; try lia.
      intros c Hc. injection Hc as <-. exact Hover.
    + apply Nat.ltb_ge in Hover.
      destruct (IH (S i)
                   (ctx ++ chunk_content h i (truncate_chunk (cc_text chunk)))
                   (total + len (chunk_content h i (truncate_chunk (cc_text chunk))))
                   Hover)
        as (k & Hk & Heq & Hin & Hstop).
      exists (S k). simpl. unfold len in *.
      rewrite Heq, <- app_assoc, length_app.
      repeat split; try lia.
      * f_equal. lia.
      * intros c Hc. specialize (Hstop c Hc).
        replace (i + S k) with (S i + k) by lia. lia.
Qed.

(** C1: the blob never exceeds 3500 code points; it is made of the
    labelled, truncated contents of the first [k] chunks in retrieval order,
    every prefix of it is within the budget, and when [k] is not the whole
    list the chunk at position [k] is one whose content would have pushed the
    running total over 3500: it and every chunk after it are left out,
    whatever their size. *)
Theorem context_budget_monotone_stop
    (is_hindi_query : bool) (context_chunks : list context_chunk) :
  let blob := build_context is_hindi_query context_chunks in
  len blob <= 3500 /\
  exists k,
    k <= length context_chunks /\
    blob = labelled is_hindi_query 1 (firstn k context_chunks) /\
    (forall j, j <= k ->
       len (labelled is_hindi_query 1 (firstn j context_chunks)) <= 3500) /\
    (forall c, nth_error context_chunks k = Some c ->
       3500 < len blob
              + len (chunk_content is_hindi_query (S k)
                                   (truncate_chunk (cc_text c)))).
Proof.
  intros blob. subst blob. unfold build_context.
  destruct (context_loop_spec is_hindi_query context_chunks 1 [] 0)
    as (k & Hk & Heq & Hin & Hstop).
  { unfold max_context_chars. lia. }
  rewrite Heq. simpl fst. simpl in Hin.
  change max_context_chars with 3500 in *.
  split; [exact Hin|].
  exists k. repeat split; auto.
  intros j Hj.
    replace j with (Nat.min j k) by lia.
    rewrite <- firstn_firstn.
    eapply Nat.le_trans; [apply labelled_firstn_le | exact Hin].
Qed.

(** A run of C1's policy: four chunks of 800 code points are taken, the
    fifth overflows, and the sixth, which would have fitted after the
    fourth, is left out with it. *)
Example later_small_chunk_is_dropped :
  let mk t := {| cc_text := t; cc_metadata := ApiServer.no_metadata |} in
  let big := mk (repeat 97%N 800) in
  let chunks := [big; big; big; big; big; mk (repeat 99%N 10)] in
  build_context false chunks = labelled false 1 (firstn 4 chunks) /\
  len (build_context false chunks) = 3252 /\
  len (build_context false chunks)
  + len (chunk_content false 6 (truncate_chunk (repeat 99%N 10))) = 3275.
Proof. cbv zeta. repeat split; vm_compute; reflexivity. Qed.

(** C4: the text a chunk contributes is the first 800 code points of its
    text at most, followed by the marker exactly when the text was longer
    than 800; a text of 900 code points contributes its first 800 and the
    marker; and the blob is made of these texts, each between its label and
    a blank line. *)
Theorem chunk_text_within_ceiling (chunk_text : str) :
  exists body marker,
    truncate_chunk chunk_text = body ++ marker /\
    body = slice_to 800 chunk_text /\
    len body <= 800 /\
    (marker = lit "..." <-> 800 < len chunk_text) /\
    (marker = [] <-> len chunk_text <= 800) /\
    (len chunk_text = 900 ->
       truncate_chunk chunk_text = slice_to 800 chunk_text ++ lit "..." /\
       len (slice_to 800 chunk_text) = 800) /\
    (forall is_hindi_query i,
       chunk_content is_hindi_query i (truncate_chunk chunk_text)
       = label is_hindi_query i ++ body ++ marker ++ [NL; NL]).
Proof.
  unfold truncate_chunk, chunk_ceiling, slice_to, len, ellipsis.
  destruct (800 <? length chunk_text) eqn:Hlong.
  - apply Nat.ltb_lt in Hlong.
    exists (firstn 800 chunk_text), (lit "...").
    assert (Hlen : length (firstn 800 chunk_text) = 800)
      by (rewrite length_firstn; lia).
    split; [reflexivity|]. split; [reflexivity|]. split; [lia|].
    split; [split; [intros _; exact Hlong | reflexivity]|].
    split; [split; [discriminate | lia]|].
    split; [intros _; split; [reflexivity | exact Hlen]|].
    intros is_hindi_query i. now rewrite chunk_content_label, <- app_assoc.
  - apply Nat.ltb_ge in Hlong.
    exists chunk_text, [].
    split; [now rewrite app_nil_r|].
    split; [symmetry; now apply firstn_all2|]. split; [exact Hlong|].
    split; [split; [discriminate | lia]|].
    split; [split; [intros _; exact Hlong | reflexivity]|].
    split; [lia|].
    intros is_hindi_query i. now rewrite chunk_content_label.
Qed.

End ContextAssembly.

(** ** The stable sort in decreasing order of a key *)

Module SortFacts.
Import Data Spec.

Section Facts.
Variable A : Type.
Variable above : A -> A -> bool.

Lemma insert_desc_perm x l : Permutation (x :: l) (insert_desc above x l).
Proof.
  induction l as [|y l IH]; simpl; auto.
  destruct (above y x); auto.
  eapply perm_trans; [apply perm_swap|]. now constructor.
Qed.

Lemma sort_desc_perm l : Permutation l (sort_desc above l).
Proof.
  induction l as [|x l IH]; simpl; auto.
  eapply perm_trans; [|apply insert_desc_perm]. now constructor.
Qed.

Lemma sort_desc_length l : length (sort_desc above l) = length l.
Proof. symmetry. apply Permutation_length, sort_desc_perm. Qed.

(** [above] compares keys that are totally ordered: it is asymmetric and
    its complement is transitive. *)
Hypothesis above_asym : forall x y, above y x = true -> above x y = false.
Hypothesis above_neg_trans : forall x y z,
  above z y = false -> above y x = false -> above z x = false.

(** [idx] is the position an element had before the sort. *)
Variable idx : A -> nat.

Lemma insert_desc_in_order x l :
  Forall (fun y => idx x < idx y) l ->
  StronglySorted (in_order above idx) l ->
  StronglySorted (in_order above idx) (insert_desc above x l).
Proof.
  intros Hx Hs. induction Hs as [|y l Hs IH Hy]; simpl.
  - repeat constructor.
  - inversion Hx as [|? ? Hxy Hxl]; subst.
    destruct (above y x) eqn:Hyx.
    + constructor; [now apply IH|].
      apply (Permutation_Forall (insert_desc_perm x l)).
      constructor; [|exact Hy].
      split; [now apply above_asym | congruence].
    + constructor; [now constructor|].
      constructor; [split; auto|].
      rewrite Forall_forall in *. intros z Hz.
      split; [|intros _; now apply Hxl].
      destruct (Hy z Hz) as [Hzy _]. eapply above_neg_trans; eauto.
Qed.

Lemma sort_desc_in_order l :
  StronglySorted (fun a b => idx a < idx b) l ->
  StronglySorted (in_order above idx) (sort_desc above l).
Proof.
  induction 1 as [|x l Hs IH Hx]; simpl; [constructor|].
  apply insert_desc_in_order; [|exact IH].
  now apply (Permutation_Forall (sort_desc_perm l)).
Qed.

(** Without positions: no element of the sorted list is above an earlier
    one. *)
Lemma insert_desc_sorted x l :
  StronglySorted (fun a b => above b a = false) l ->
  StronglySorted (fun a b => above b a = false) (insert_desc above x l).
Proof.
  intros Hs. induction Hs as [|y l Hs IH Hy]; simpl.
  - repeat constructor.
  - destruct (above y x) eqn:Hyx.
    + constructor; [exact IH|].
      apply (Permutation_Forall (insert_desc_perm x l)).
      constructor; [now apply above_asym | exact Hy].
    + constructor; [now constructor|].
      constructor; [exact Hyx|].
      rewrite Forall_forall in *. intros z Hz.
      eapply above_neg_trans; eauto.
Qed.

Lemma sort_desc_sorted l :
  StronglySorted (fun a b => above b a = false) (sort_desc above l).
Proof.
  induction l as [|x l IH]; simpl; [constructor|].
  now apply insert_desc_sorted.
Qed.

End Facts.

Lemma StronglySorted_nth_error {A} (R : A -> A -> Prop) l :
  StronglySorted R l ->
  forall i j a b, i < j ->
    nth_error l i = Some a -> nth_error l j = Some b -> R a b.
Proof.
  induction 1 as [|x l Hs IH Hx]; intros i j a b Hij Ha Hb.
  - destruct i; discriminate.
  - destruct j as [|j]; [lia|]. simpl in Hb.
    destruct i as [|i]; simpl in Ha.
    + injection Ha as <-. rewrite Forall_forall in Hx.
      apply Hx. eapply nth_error_In; eauto.
    + apply (IH i j a b); [lia | exact Ha | exact Hb].
Qed.

End SortFacts.

(** ** Citation formatting (format_citations, api_server.py lines 121-160) *)

Module Citations.
Import Py Data ApiServer Spec.

Lemma nth_error_enumerate_from {A} (l : list A) : forall i k,
  nth_error (enumerate_from i l) k
  = option_map (fun x => (i + k, x)) (nth_error l k).
Proof.
  induction l as [|x l IH]; intros i [|k]; simpl; auto.
  - now rewrite Nat.add_0_r.
  - rewrite IH. destruct (nth_error l k); simpl; auto.
    do 2 f_equal. lia.
Qed.

Lemma length_enumerate_from {A} (l : list A) : forall i,
  length (enumerate_from i l) = length l.
Proof. induction l; intros i; simpl; auto. Qed.

Lemma map_enumerate_from {A B} (f : nat -> B) (l : list A) : forall i,
  map (fun ic => f (fst ic)) (enumerate_from i l) = map f (seq i (length l)).
Proof. induction l as [|x l IH]; intros i; simpl; auto. now rewrite IH. Qed.

Lemma sorted_of_map_seq {A} (f : A -> nat) (l : list A) : forall i,
  map f l = seq i (length l) ->
  StronglySorted (fun a b => f a < f b) l.
Proof.
  induction l as [|x l IH]; intros i Hmap; simpl in *; constructor.
  - injection Hmap as _ Hrest. eauto.
  - injection Hmap as Hx Hrest. rewrite Forall_forall. intros b Hb.
    apply (in_map f) in Hb. rewrite Hrest in Hb. apply in_seq in Hb. lia.
Qed.

Lemma more_relevant_false y x :
  more_relevant y x = false <-> (relevance y <= relevance x)%Q.
Proof.
  unfold more_relevant. rewrite Qle_alt.
  rewrite <- (Qcompare_antisym (relevance x) (relevance y)).
  destruct (relevance x ?= relevance y)%Q; simpl; split; congruence.
Qed.

Lemma more_relevant_asym x y :
  more_relevant y x = true -> more_relevant x y = false.
Proof.
  intros Hyx. apply more_relevant_false.
  unfold more_relevant in Hyx.
  destruct (relevance x ?= relevance y)%Q eqn:Hc; try discriminate.
  apply Qlt_le_weak. now apply Qlt_alt.
Qed.

Lemma more_relevant_neg_trans x y z :
  more_relevant z y = false -> more_relevant y x = false ->
  more_relevant z x = false.
Proof.
  rewrite !more_relevant_false. intros Hzy Hyx. eapply Qle_trans; eauto.
Qed.

(** *** Rounding *)

Lemma round_half_even_bounds x :
  (Qfloor x <= round_half_even x <= Qfloor x + 1)%Z.
Proof.
  unfold round_half_even.
  destruct (x - inject_Z (Qfloor x) ?= 1 # 2)%Q; try lia.
  destruct (Z.even (Qfloor x)); lia.
Qed.

Lemma round_half_even_mono x y :
  (x <= y)%Q -> (round_half_even x <= round_half_even y)%Z.
Proof.
  intros Hxy.
  pose proof (Qfloor_resp_le _ _ Hxy) as Hf.
  destruct (Z.eq_dec (Qfloor x) (Qfloor y)) as [Heq|Hne].
  - unfold round_half_even. rewrite <- Heq.
    destruct (Qcompare_spec (x - inject_Z (Qfloor x)) (1 # 2)) as [Hx|Hx|Hx];
    destruct (Qcompare_spec (y - inject_Z (Qfloor x)) (1 # 2)) as [Hy|Hy|Hy];
    try lia; try (destruct (Z.even (Qfloor x)); lia);
    exfalso; lra.
  - pose proof (round_half_even_bounds x).
    pose proof (round_half_even_bounds y). lia.
Qed.

(** A value below [k + 1/2] does not round above [k]. *)
Lemma round_half_even_below x k :
  (x < inject_Z k + (1 # 2))%Q -> (round_half_even x <= k)%Z.
Proof.
  intros Hx.
  pose proof (Qfloor_le x) as Hlo.
  assert (Hfl : (Qfloor x <= k)%Z).
  { destruct (Z_lt_le_dec k (Qfloor x)) as [Hlt|Hle]; [|exact Hle].
    exfalso. assert (Hk : (k + 1 <= Qfloor x)%Z) by lia.
    rewrite Zle_Qle, inject_Z_plus in Hk.
    change (inject_Z 1) with 1%Q in Hk. lra. }
  destruct (Z.eq_dec (Qfloor x) k) as [Heq|Hne].
  - unfold round_half_even. rewrite Heq.
    destruct (Qcompare_spec (x - inject_Z k) (1 # 2)) as [Hc|Hc|Hc];
      try lia; exfalso; lra.
  - pose proof (round_half_even_bounds x). lia.
Qed.

Lemma round3_mono x y : (x <= y)%Q -> (round3 x <= round3 y)%Q.
Proof.
  intros Hxy. unfold round3, Qle. simpl.
  apply Z.mul_le_mono_nonneg_r; [lia|].
  apply round_half_even_mono. lra.
Qed.

(** *** Excerpts *)

Lemma lstrip_starts_clean s : starts_clean s = true -> lstrip s = s.
Proof.
  destruct s as [|c s]; simpl; auto.
  intros Hc. apply negb_true_iff in Hc. now rewrite Hc.
Qed.

Lemma strip_edge_clean s : edge_clean s = true -> strip s = s.
Proof.
  unfold edge_clean, strip, rstrip. intros Hs.
  apply andb_true_iff in Hs. destruct Hs as [Hl Hr].
  rewrite (lstrip_starts_clean _ Hl), (lstrip_starts_clean _ Hr).
  apply rev_involutive.
Qed.

Section WithRuntime.
Context `{runtime}.

Lemma position_unsorted chunks grade subject :
  map position (unsorted chunks grade subject) = seq 0 (length chunks).
Proof.
  unfold unsorted. rewrite map_map.
  rewrite <- (map_id (seq 0 (length chunks))).
  rewrite <- (map_enumerate_from (fun i => i) chunks 0).
  apply map_ext. intros [i c]. unfold position. simpl. lia.
Qed.

Lemma in_unsorted chunks grade subject c :
  In c (unsorted chunks grade subject) ->
  exists chunk,
    nth_error chunks (position c) = Some chunk /\
    c = citation_of grade subject (position c) chunk.
Proof.
  unfold unsorted. intros Hin.
  apply In_nth_error in Hin. destruct Hin as [k Hk].
  rewrite nth_error_map, nth_error_enumerate_from in Hk.
  destruct (nth_error chunks k) as [chunk|] eqn:Hchunk; try discriminate.
  simpl in Hk. injection Hk as <-.
  assert (Hpos : position (citation_of grade subject k chunk) = k)
    by (unfold position; simpl; lia).
  rewrite Hpos. eauto.
Qed.

Lemma renumber_ids (l : list Citation) : forall i,
  map id (map (fun ic => set_id (snd ic) (fst ic + 1)) (enumerate_from i l))
  = seq (i + 1) (length l).
Proof.
  induction l as [|c l IH]; intros i; simpl; auto.
  f_equal. apply IH.
Qed.

(** C2: [format_citations] gives one citation per retrieved chunk, with the
    ids 1..n in output order.  The output is a rearrangement of the
    retrieved chunks ([order] lists the retrieval positions in output order
    and the citation at output position [i] is the one built for the chunk
    at retrieval position [order[i]], with id [i + 1]); relevance never
    increases along the output, and of two citations of equal relevance the
    one retrieved first stands first. *)
Theorem citations_ranked_stably
    (retrieved_chunks : list retrieved_chunk) (grade : Z) (subject : str) :
  let out := format_citations retrieved_chunks grade subject in
  let n := length retrieved_chunks in
  length out = n /\
  map id out = seq 1 n /\
  exists order : list nat,
    Permutation order (seq 0 n) /\
    (forall i c k,
       nth_error out i = Some c -> nth_error order i = Some k ->
       exists chunk,
         nth_error retrieved_chunks k = Some chunk /\
         c = set_id (citation_of grade subject k chunk) (i + 1) /\
         relevance c = relevance_of chunk) /\
    (forall i j ci cj ki kj,
       i < j ->
       nth_error out i = Some ci -> nth_error out j = Some cj ->
       nth_error order i = Some ki -> nth_error order j = Some kj ->
       (relevance cj <= relevance ci)%Q /\
       ((relevance ci == relevance cj)%Q -> ki < kj)).
Proof.
  intros out n. subst out n. unfold format_citations.
  fold (unsorted retrieved_chunks grade subject).
  set (pre := unsorted retrieved_chunks grade subject).
  set (sorted := sort_desc more_relevant pre).
  assert (Hlen : length sorted = length retrieved_chunks).
  { unfold sorted. rewrite SortFacts.sort_desc_length. unfold pre, unsorted.
    now rewrite length_map, length_enumerate_from. }
  assert (Hout : forall i,
            nth_error (map (fun ic => set_id (snd ic) (fst ic + 1))
                           (enumerate_from 0 sorted)) i
            = option_map (fun a => set_id a (i + 1)) (nth_error sorted i)).
  { intros i. rewrite nth_error_map, nth_error_enumerate_from.
    destruct (nth_error sorted i); reflexivity. }
  split; [now rewrite length_map, length_enumerate_from|].
  split; [now rewrite renumber_ids, Hlen|].
  exists (map position sorted).
  split.
  { rewrite <- (position_unsorted retrieved_chunks grade subject).
    apply Permutation_map, Permutation_sym, SortFacts.sort_desc_perm. }
  split.
  - intros i c k Hc Hk. rewrite Hout in Hc. rewrite nth_error_map in Hk.
    destruct (nth_error sorted i) as [a|] eqn:Ha; try discriminate.
    simpl in Hc, Hk. injection Hc as <-. injection Hk as <-.
    apply nth_error_In in Ha.
    apply (Permutation_in _ (Permutation_sym (SortFacts.sort_desc_perm _ more_relevant pre)))
      in Ha.
    destruct (in_unsorted _ _ _ _ Ha) as (chunk & Hchunk & Heq).
    exists chunk. split; [exact Hchunk|]. split.
    + now rewrite Heq at 1.
    + rewrite Heq. reflexivity.
  - intros i j ci cj ki kj Hij Hci Hcj Hki Hkj.
    rewrite Hout in Hci, Hcj. rewrite nth_error_map in Hki, Hkj.
    destruct (nth_error sorted i) as [a|] eqn:Ha; try discriminate.
    destruct (nth_error sorted j) as [b|] eqn:Hb; try discriminate.
    simpl in *.
    injection Hci as <-. injection Hcj as <-.
    injection Hki as <-. injection Hkj as <-. simpl.
    assert (Hord : in_order more_relevant position a b).
    { eapply (SortFacts.StronglySorted_nth_error _ sorted); eauto.
      apply SortFacts.sort_desc_in_order.
      - apply more_relevant_asym.
      - apply more_relevant_neg_trans.
      - apply (sorted_of_map_seq position pre 0).
        unfold pre. rewrite position_unsorted. f_equal.
        unfold unsorted. now rewrite length_map, length_enumerate_from. }
    destruct Hord as [Hba Htie]. split.
    + now apply more_relevant_false.
    + intros Heq. apply Htie. apply more_relevant_false.
      rewrite Heq. apply Qle_refl.
Qed.

(** C7, as the code has it: the excerpt is the first 150 code points of
    the text with the whitespace at both ends stripped, followed by the
    marker when the text is longer than 150 and by nothing otherwise.  When
    the first 150 code points neither start nor end with whitespace, this is
    the first 150 code points and the marker, or the text unchanged. *)
Theorem excerpt_is_stripped_prefix (full_text : str) :
  (150 < len full_text ->
     excerpt_of full_text = strip (slice_to 150 full_text) ++ lit "...") /\
  (len full_text <= 150 -> excerpt_of full_text = strip full_text) /\
  (edge_clean (slice_to 150 full_text) = true ->
     (150 < len full_text ->
        excerpt_of full_text = slice_to 150 full_text ++ lit "...") /\
     (len full_text <= 150 -> excerpt_of full_text = full_text)) /\
  (forall grade subject idx chunk,
     get (rc_text chunk) [] = full_text ->
     excerpt (citation_of grade subject idx chunk) = excerpt_of full_text).
Proof.
  unfold excerpt_of, excerpt_limit, slice_to, len.
  split; [|split; [|split]].
  - intros Hlong. apply Nat.ltb_lt in Hlong. now rewrite Hlong.
  - intros Hshort. rewrite firstn_all2 by exact Hshort.
    apply Nat.ltb_ge in Hshort. now rewrite Hshort.
  - intros Hclean. rewrite (strip_edge_clean _ Hclean). split.
    + intros Hlong. apply Nat.ltb_lt in Hlong. now rewrite Hlong.
    + intros Hshort. rewrite firstn_all2 by exact Hshort.
      apply Nat.ltb_ge in Hshort. now rewrite Hshort.
  - intros grade subject idx chunk <-. reflexivity.
Qed.

End WithRuntime.

(** C7 as stated fails on a text that starts with a blank: the excerpt is
    not the text unchanged. *)
Lemma excerpt_not_text_unchanged :
  len (lit " a") <= 150 /\
  excerpt_of (lit " a") = lit "a" /\
  excerpt_of (lit " a") <> lit " a".
Proof.
  split; [vm_compute; lia|]. split; [reflexivity|].
  vm_compute. discriminate.
Qed.

(** C3, as the code has it: the relevance is [round(1 - distance, 3)], with
    0.5 for a missing distance; it never increases when the distance grows;
    it is not clamped: it is at most 0 for a distance above 1, below 0 (at
    most -0.001) for a distance above 1.0005, and -1 at distance 2. *)
Theorem relevance_rounded_monotone_unclamped :
  (forall chunk,
     relevance_of chunk = round3 (1 - get (rc_distance chunk) (1 # 2)%Q)) /\
  (forall d1 d2 : Q,
     (d1 <= d2)%Q -> (round3 (1 - d2) <= round3 (1 - d1))%Q) /\
  (forall d : Q, (1 < d)%Q -> (round3 (1 - d) <= 0)%Q) /\
  (forall d : Q, (2001 # 2000 < d)%Q -> (round3 (1 - d) <= - (1 # 1000))%Q) /\
  (forall d : Q, (0 <= d)%Q -> (d <= 2)%Q ->
     (-1 <= round3 (1 - d))%Q /\ (round3 (1 - d) <= 1)%Q) /\
  (round3 (1 - 2) == -1)%Q.
Proof.
  split; [reflexivity|].
  split; [intros d1 d2 Hd; apply round3_mono; lra|].
  split.
  { intros d Hd. unfold round3, Qle. simpl.
    assert (Hr : (round_half_even ((1 - d) * 1000) <= 0)%Z)
      by (apply round_half_even_below; change (inject_Z 0) with 0%Q; lra).
    lia. }
  split.
  { intros d Hd. unfold round3, Qle. simpl.
    assert (Hr : (round_half_even ((1 - d) * 1000) <= -1)%Z)
      by (apply round_half_even_below; change (inject_Z (-1)) with (-1)%Q; lra).
    lia. }
  split; [|reflexivity].
  intros d Hlo Hhi. split.
  - apply Qle_trans with (round3 (1 - 2));
      [vm_compute; discriminate | apply round3_mono; lra].
  - apply Qle_trans with (round3 (1 - 0));
      [apply round3_mono; lra | vm_compute; discriminate].
Qed.

(** C3 as stated fails just above distance 1: the relevance of a chunk at
    distance 4097/4096 is 0, not a negative number. *)
Lemma relevance_zero_just_above_one :
  let chunk := {| rc_chunk_id := None; rc_text := None; rc_metadata := None;
                  rc_distance := Some (4097 # 4096)%Q |} in
  (1 < 4097 # 4096)%Q /\ (4097 # 4096 <= 2)%Q /\
  (relevance_of chunk == 0)%Q /\
  ~ (relevance_of chunk < 0)%Q.
Proof.
  cbv zeta. repeat split; try (vm_compute; congruence).
Qed.

End Citations.

(** ** The pipeline: canonical query, generation failures, confidence,
       reported tokens *)

Module Pipeline.
Import Py Data Spec Props.

(** *** Query canonicalization (_translate_hindi_query, lines 56-83) *)

Lemma translate_untouched (query : str) (table : list (str * str)) :
  forall translated_query,
  forallb (fun p => negb (contains query (fst p))) table = true ->
  fold_left
    (fun translated_query p =>
       if contains query (fst p)
       then replace translated_query (fst p) (snd p)
       else translated_query)
    table translated_query
  = translated_query.
Proof.
  induction table as [|p table IH]; intros t Hnone; simpl in *; auto.
  apply andb_true_iff in Hnone. destruct Hnone as [Hp Hrest].
  apply negb_true_iff in Hp. rewrite Hp. now apply IH.
Qed.

Lemma calls_app (a b : trace) : calls (a ++ b) = calls a ++ calls b.
Proof. apply filter_app. Qed.

Section WithRuntime.
Context `{runtime}.

(** *** What the trace of a run may hold after the embedding call *)

Lemma instruction_format_carries_query si ch ct qh query ai :
  exists before after,
    MistralService.instruction_format si ch ct qh query ai
    = before ++ query ++ after.
Proof.
  exists (lit "[INST] " ++ si ++ [NL; NL] ++ ch ++ [NL] ++ ct ++ [NL; NL]
          ++ qh ++ lit " "),
         ([NL; NL] ++ ai ++ lit " [/INST]").
  unfold MistralService.instruction_format.
  repeat rewrite <- app_assoc. reflexivity.
Qed.

Lemma prompt_carries_query query context_chunks grade language subject terms :
  exists before after,
    MistralService.build_mistral_prompt
      query context_chunks grade language subject terms
    = before ++ query ++ after.
Proof.
  unfold MistralService.build_mistral_prompt, MistralService.envelope.
  apply instruction_format_carries_query.
Qed.

Lemma purity_pass_log language terms answer_text :
  Forall (fun e => match e with WarnEnglishWords _ => True | _ => False end)
         (fst (MistralService.purity_pass language terms answer_text)).
Proof.
  unfold MistralService.purity_pass.
  destruct (MistralService.is_hindi language); simpl; auto.
  destruct (5 <? _); simpl; auto.
Qed.

Lemma try_generate_log o query svc cs grade language subject terms :
  Forall (after_embedding o query)
    (fst (MistralService.try_generate svc
            (MistralService.build_mistral_prompt
               query cs grade language subject terms)
            language terms)).
Proof.
  assert (Hcall : prompt_of_raw_query query
                    (MistralService.build_mistral_prompt
                       query cs grade language subject terms)).
  { unfold prompt_of_raw_query. eauto 10. }
  unfold MistralService.try_generate.
  destruct (MistralService.model svc _ _) as [response|e]; simpl;
    [|repeat constructor; exact Hcall].
  destruct (MistralService.first_choice_text response) as [raw|e]; simpl;
    [|repeat constructor; exact Hcall].
  pose proof (purity_pass_log language terms
                (MistralService.clean_citations (strip raw))) as Hlog.
  destruct (MistralService.purity_pass language terms _) as [log purified].
  simpl in *. constructor; [exact Hcall|].
  eapply Forall_impl; [|exact Hlog]. intros [] He; simpl in *; tauto.
Qed.

Lemma generate_answer_log o query cs grade subject language terms :
  Forall (after_embedding o query)
    (fst (RagOrchestrator.generate_answer o query cs grade subject language terms)).
Proof.
  unfold RagOrchestrator.generate_answer.
  destruct (RagOrchestrator.llm_service o) as [svc|]; simpl; auto.
  unfold MistralService.generate_answer.
  pose proof (try_generate_log o query svc cs grade language subject terms)
    as Hlog.
  destruct (MistralService.try_generate svc _ language terms) as [log outcome].
  simpl in Hlog.
  destruct outcome as [g|e]; simpl.
  - destruct (MistralService.success g); simpl; auto.
    apply Forall_app. split; auto. repeat constructor.
  - apply Forall_app. split; [|repeat constructor].
    apply Forall_app. split; auto. repeat constructor.
Qed.

(** The calls to the collaborators in the log of a generation. *)
Lemma calls_purity language terms text :
  calls (fst (MistralService.purity_pass language terms text)) = [].
Proof.
  unfold MistralService.purity_pass.
  destruct (MistralService.is_hindi language); [|reflexivity].
  destruct (5 <? _); reflexivity.
Qed.

Lemma calls_adapter svc query cs grade language subject terms :
  calls (fst (MistralService.generate_answer svc query cs grade language
                                             subject terms))
  = [CallModel (MistralService.build_mistral_prompt query cs grade language
                                                    subject terms)
               (MistralService.sampling_of (MistralService.config svc))].
Proof.
  unfold MistralService.generate_answer, MistralService.try_generate.
  destruct (MistralService.model svc _ _) as [response|e]; [|reflexivity].
  destruct (MistralService.first_choice_text response) as [raw|e];
    [|reflexivity].
  pose proof (calls_purity language terms
                (MistralService.clean_citations (strip raw))) as Hlog.
  destruct (MistralService.purity_pass language terms _) as [log purified].
  cbn [fst] in Hlog.
  destruct purified as [text|e];
    [destruct (MistralService.completion_tokens response) as [n|e]|];
    cbn [bind fst]; rewrite ?calls_app;
    change (calls (CallModel ?p ?q :: log)) with (CallModel p q :: calls log);
    cbn [calls filter is_call app]; fold (calls log); rewrite Hlog; reflexivity.
Qed.

Lemma calls_generate o query cs grade subject language terms :
  calls (fst (RagOrchestrator.generate_answer o query cs grade subject
                                              language terms))
  = match RagOrchestrator.llm_service o with
    | Some svc =>
        [CallModel (MistralService.build_mistral_prompt query cs grade language
                                                        subject terms)
                   (MistralService.sampling_of (MistralService.config svc))]
    | None => []
    end.
Proof.
  unfold RagOrchestrator.generate_answer.
  destruct (RagOrchestrator.llm_service o) as [svc|]; [|reflexivity].
  pose proof (calls_adapter svc query cs grade language subject terms) as Hlog.
  destruct (MistralService.generate_answer svc query cs grade language subject
                                           terms) as [log result].
  cbn [fst] in Hlog.
  destruct (MistralService.success result); cbn [fst]; [exact Hlog|].
  rewrite calls_app, Hlog. reflexivity.
Qed.

(** C6: a query that holds none of the Hindi terms of the table comes out
    of the canonicalization as it went in, so canonicalizing twice is
    canonicalizing once.  In every run of [process_query] the canonical
    string is what is embedded, first, and nothing else is embedded; every
    call of the language model gets a prompt built from the raw query, which
    holds the raw query as it came.  When the retrieval goes through, the
    collaborators are called exactly as follows: the embedding model on the
    canonical string, the store on the embedding with the caller's grade,
    subject and number of results, and, when a service is configured, the
    language model once, on the prompt built from the raw query, the
    retrieved chunks, the grade, the subject or "science", the answer
    language and its glossary; the log of the run after the two retrieval
    calls and the answer of the response are those of the generation on
    exactly these arguments, none of which is the canonical string. *)
Theorem canonical_query_for_retrieval_only :
  (forall query,
     no_known_term query = true ->
     RagOrchestrator.translate_hindi_query query = query /\
     RagOrchestrator.search_query_of query = query /\
     RagOrchestrator.search_query_of (RagOrchestrator.search_query_of query)
     = RagOrchestrator.search_query_of query) /\
  (forall o query grade subject top_k language,
     exists rest,
       fst (RagOrchestrator.process_query o query grade subject top_k language)
       = CallEncode (RagOrchestrator.search_query_of query) :: rest /\
       Forall (after_embedding o query) rest) /\
  (forall query prompt,
     prompt_of_raw_query query prompt ->
     exists before after, prompt = before ++ query ++ after) /\
  (forall o query grade subject top_k language emb retrieved cs,
     RagOrchestrator.embedding_model o (RagOrchestrator.search_query_of query)
     = Ok emb ->
     RagOrchestrator.vector_store o emb grade subject (lit "english") top_k
     = Ok retrieved ->
     RagOrchestrator.context_chunks_of retrieved = Ok cs ->
     let response_language :=
       RagOrchestrator.or_default language (lit "english") in
     let subject_name := RagOrchestrator.or_default subject (lit "science") in
     let hindi_terms :=
       if MistralService.is_hindi response_language
       then Some RagOrchestrator.get_hindi_terms else None in
     let generated :=
       RagOrchestrator.generate_answer o query cs grade subject_name
                                       response_language hindi_terms in
     let run :=
       RagOrchestrator.process_query o query grade subject top_k language in
     calls (fst run)
     = CallEncode (RagOrchestrator.search_query_of query)
       :: CallSearch emb grade subject (lit "english") top_k
       :: match RagOrchestrator.llm_service o with
          | Some svc =>
              [CallModel
                 (MistralService.build_mistral_prompt
                    query cs grade response_language subject_name hindi_terms)
                 (MistralService.sampling_of (MistralService.config svc))]
          | None => []
          end /\
     fst run
     = [CallEncode (RagOrchestrator.search_query_of query);
        CallSearch emb grade subject (lit "english") top_k]
       ++ fst generated /\
     exists response,
       snd run = Ok response /\
       RagOrchestrator.answer response = snd generated /\
       RagOrchestrator.retrieved_chunks response = retrieved).
Proof.
  split; [|split; [|split]].
  - intros query Hnone.
    assert (Ht : RagOrchestrator.translate_hindi_query query = query)
      by (apply translate_untouched; exact Hnone).
    assert (Hs : RagOrchestrator.search_query_of query = query).
    { unfold RagOrchestrator.search_query_of.
      destruct (negb (isascii query)); auto. }
    split; [exact Ht|]. split; [exact Hs|]. now rewrite !Hs.
  - intros o query grade subject top_k language.
    unfold RagOrchestrator.process_query.
    destruct (RagOrchestrator.embedding_model o _) as [emb|e] eqn:Hemb.
    2:{ eexists. split; [reflexivity|constructor]. }
    destruct (RagOrchestrator.vector_store o emb grade subject _ top_k)
      as [retrieved|e].
    2:{ eexists. split; [reflexivity|]. repeat constructor. exact Hemb. }
    destruct (RagOrchestrator.context_chunks_of retrieved) as [cs|e].
    2:{ eexists. split; [reflexivity|]. repeat constructor. exact Hemb. }
    match goal with
    | |- context [RagOrchestrator.generate_answer o query cs grade ?s ?l ?t] =>
        pose proof (generate_answer_log o query cs grade s l t) as Hlog;
        destruct (RagOrchestrator.generate_answer o query cs grade s l t)
          as [log answer]
    end.
    simpl in *. eexists. split; [reflexivity|].
    constructor; [exact Hemb | exact Hlog].
  - intros query prompt (cs & grade & language & subject & terms & ->).
    apply prompt_carries_query.
  - intros o query grade subject top_k language emb retrieved cs
           Hemb Hsearch Hcs.
    cbv zeta. unfold RagOrchestrator.process_query.
    rewrite Hemb, Hsearch, Hcs.
    match goal with
    | |- context [RagOrchestrator.generate_answer o query cs grade ?s ?l ?t] =>
        pose proof (calls_generate o query cs grade s l t) as Hcalls;
        destruct (RagOrchestrator.generate_answer o query cs grade s l t)
          as [log answer]
    end.
    cbn [fst snd] in *. split; [|split; [reflexivity|]].
    + rewrite calls_app, Hcalls. reflexivity.
    + eexists. split; [reflexivity|]. split; reflexivity.
Qed.

(** *** Generation failures (generate_answer, both files) *)

Lemma try_generate_success svc prompt language terms g :
  snd (MistralService.try_generate svc prompt language terms) = Ok g ->
  MistralService.success g = true.
Proof.
  unfold MistralService.try_generate.
  destruct (MistralService.model svc _ _) as [response|e]; simpl;
    [|discriminate].
  destruct (MistralService.first_choice_text response) as [raw|e]; simpl;
    [|discriminate].
  destruct (MistralService.purity_pass language terms _) as [log purified].
  simpl.
  destruct purified as [t|e]; simpl; [|discriminate].
  destruct (MistralService.completion_tokens response); simpl;
    [|discriminate].
  intros Hg. injection Hg as <-. reflexivity.
Qed.

Lemma adapter_outcome svc query cs grade language subject terms :
  let outcome :=
    snd (MistralService.try_generate svc
           (MistralService.build_mistral_prompt
              query cs grade language subject terms) language terms) in
  snd (MistralService.generate_answer svc query cs grade language subject terms)
  = match outcome with
    | Ok g => g
    | Raise e => failure_dict e
    end.
Proof.
  unfold MistralService.generate_answer.
  destruct (MistralService.try_generate svc _ language terms) as [log outcome].
  simpl. destruct outcome; reflexivity.
Qed.

Lemma orchestrator_degrades o svc query cs grade subject language terms :
  RagOrchestrator.llm_service o = Some svc ->
  MistralService.success
    (snd (MistralService.generate_answer
            svc query cs grade language subject terms)) = false ->
  snd (RagOrchestrator.generate_answer o query cs grade subject language terms)
  = lit "Error: Could not generate response".
Proof.
  intros Hsvc Hfail. unfold RagOrchestrator.generate_answer. rewrite Hsvc.
  destruct (MistralService.generate_answer svc query cs grade language
                                           subject terms) as [log result].
  simpl in Hfail. rewrite Hfail. reflexivity.
Qed.

(** C5: [generate_answer] of the adapter is a function into result dicts:
    the prompt is built from well-formed chunks before the [try] and the
    body of the [try] is the only part that can fail.  When the model call
    fails, and whenever the body fails, the dict has [success = False], the
    text of the exception as [error], the fixed answer and 0 tokens; a
    dict that comes from a body that did not fail has [success = True].
    The orchestrator answers a failed generation with the fixed degraded
    text, and [process_query] then returns a response carrying that text
    rather than raising. *)
Theorem generation_failure_is_structured (svc : MistralService.service) :
  (forall query cs grade language subject terms,
     let prompt :=
       MistralService.build_mistral_prompt
         query cs grade language subject terms in
     let outcome :=
       snd (MistralService.try_generate svc prompt language terms) in
     let result :=
       snd (MistralService.generate_answer
              svc query cs grade language subject terms) in
     (forall e,
        MistralService.model svc prompt
          (MistralService.sampling_of (MistralService.config svc)) = Raise e ->
        outcome = Raise e) /\
     (forall e, outcome = Raise e ->
        result = failure_dict e /\
        MistralService.success result = false /\
        MistralService.error result = Some (exn_str e)) /\
     (forall g, outcome = Ok g ->
        result = g /\ MistralService.success result = true) /\
     (forall o, RagOrchestrator.llm_service o = Some svc ->
        MistralService.success result = false ->
        snd (RagOrchestrator.generate_answer
               o query cs grade subject language terms)
        = lit "Error: Could not generate response")) /\
  (forall o query grade subject top_k language e emb retrieved cs,
     RagOrchestrator.llm_service o = Some svc ->
     (forall prompt params, MistralService.model svc prompt params = Raise e) ->
     RagOrchestrator.embedding_model o (RagOrchestrator.search_query_of query)
     = Ok emb ->
     RagOrchestrator.vector_store o emb grade subject (lit "english") top_k
     = Ok retrieved ->
     RagOrchestrator.context_chunks_of retrieved = Ok cs ->
     exists response,
       snd (RagOrchestrator.process_query o query grade subject top_k language)
       = Ok response /\
       RagOrchestrator.answer response
       = lit "Error: Could not generate response").
Proof.
  assert (Hmodel : forall prompt language terms e,
            MistralService.model svc prompt
              (MistralService.sampling_of (MistralService.config svc))
            = Raise e ->
            snd (MistralService.try_generate svc prompt language terms)
            = Raise e).
  { intros prompt language terms e He.
    unfold MistralService.try_generate. now rewrite He. }
  split.
  - intros query cs grade language subject terms. cbv zeta.
    rewrite adapter_outcome. cbv zeta.
    split; [intros e He; now apply Hmodel|].
    split; [intros e He; rewrite He; repeat split|].
    split.
    + intros g Hg. rewrite Hg. split; [reflexivity|].
      eapply try_generate_success; exact Hg.
    + intros o Hsvc Hfail.
      apply (orchestrator_degrades o svc); [exact Hsvc|].
      now rewrite adapter_outcome.
  - intros o query grade subject top_k language e emb retrieved cs
           Hsvc Hraise Hemb Hsearch Hcs.
    unfold RagOrchestrator.process_query.
    rewrite Hemb, Hsearch, Hcs.
    match goal with
    | |- context [RagOrchestrator.generate_answer o query cs grade ?s ?l ?t] =>
        assert (Hdeg : snd (RagOrchestrator.generate_answer
                              o query cs grade s l t)
                       = lit "Error: Could not generate response");
        [|destruct (RagOrchestrator.generate_answer o query cs grade s l t)
            as [log answer]]
    end.
    { apply (orchestrator_degrades o svc); [exact Hsvc|].
      rewrite adapter_outcome. cbv zeta. rewrite (Hmodel _ _ _ e); auto. }
    simpl in Hdeg. subst answer. eexists. split; reflexivity.
Qed.

(** *** Confidence (process_query, lines 184-202) *)

(** C9: a response of [process_query] has confidence 0.9, whatever the
    query, the chunks and the answer; and there is a response as soon as
    the embedding, the search and the reading of the chunks succeed. *)
Theorem confidence_is_constant
    (o : RagOrchestrator.orchestrator) (query : str) (grade : Z)
    (subject : option str) (top_k : option Z) (language : option str) :
  (forall response,
     snd (RagOrchestrator.process_query o query grade subject top_k language)
     = Ok response ->
     RagOrchestrator.confidence response = (9 # 10)%Q) /\
  (forall emb retrieved cs,
     RagOrchestrator.embedding_model o (RagOrchestrator.search_query_of query)
     = Ok emb ->
     RagOrchestrator.vector_store o emb grade subject (lit "english") top_k
     = Ok retrieved ->
     RagOrchestrator.context_chunks_of retrieved = Ok cs ->
     exists response,
       snd (RagOrchestrator.process_query o query grade subject top_k language)
       = Ok response /\
       RagOrchestrator.confidence response = (9 # 10)%Q).
Proof.
  unfold RagOrchestrator.process_query. split.
  - intros response.
    destruct (RagOrchestrator.embedding_model o _) as [emb|e];
      [|discriminate].
    destruct (RagOrchestrator.vector_store o emb grade subject _ top_k)
      as [retrieved|e]; [|discriminate].
    destruct (RagOrchestrator.context_chunks_of retrieved) as [cs|e];
      [|discriminate].
    destruct (RagOrchestrator.generate_answer _ _ _ _ _ _ _) as [log answer].
    simpl. intros Hr. injection Hr as <-. reflexivity.
  - intros emb retrieved cs Hemb Hsearch Hcs.
    rewrite Hemb, Hsearch, Hcs.
    destruct (RagOrchestrator.generate_answer _ _ _ _ _ _ _) as [log answer].
    simpl. eexists. split; reflexivity.
Qed.

(** *** Reported tokens (api_server.py, lines 328-355) *)

Lemma try_process_query_tokens o elapsed_ms request response :
  snd (ApiServer.try_process_query o elapsed_ms request) = Ok response ->
  ApiServer.qm_tokens_used (ApiServer.metadata response)
  = ApiServer.reported_tokens o.
Proof.
  unfold ApiServer.try_process_query.
  destruct (ApiServer.adjust_top_k _ _) as [k|e]; [|discriminate].
  destruct (RagOrchestrator.process_query _ _ _ _ _ _) as [log outcome].
  destruct outcome as [r|e]; simpl; [|discriminate].
  intros Hr. injection Hr as <-. reflexivity.
Qed.

Lemma process_query_tokens o elapsed_ms request response :
  snd (ApiServer.process_query (Some o) elapsed_ms request) = inr response ->
  ApiServer.qm_tokens_used (ApiServer.metadata response)
  = ApiServer.reported_tokens o.
Proof.
  unfold ApiServer.process_query.
  pose proof (try_process_query_tokens o elapsed_ms request) as Htok.
  destruct (ApiServer.try_process_query o elapsed_ms request)
    as [log outcome].
  destruct outcome as [r|e]; simpl in *; [|discriminate].
  intros Hr. injection Hr as <-. now apply Htok.
Qed.

Lemma canned_count svc text n query cs grade language subject terms :
  let result :=
    snd (MistralService.generate_answer
           {| MistralService.config := MistralService.config svc;
              MistralService.model := canned text n |}
           query cs grade language subject terms) in
  MistralService.success result = true ->
  MistralService.tokens_used result = n.
Proof.
  cbv zeta. unfold MistralService.generate_answer, MistralService.try_generate.
  cbn [MistralService.model MistralService.config canned].
  cbn [MistralService.first_choice_text MistralService.choices].
  destruct (MistralService.purity_pass language terms _) as [log [t|e]];
    cbn; [reflexivity|discriminate].
Qed.

(** C10: in a successful response of the [/query] operation, [tokens_used]
    is [max_tokens] of the configuration of the language model service
    (512 in the default configuration, and 512 when there is no service).
    It is not read from the generation call: it is the same whatever the
    language model answers.  With a model that reports [n] completion
    tokens the generation call counts [n] and the response still reports
    the limit, so the two agree exactly when [n] is the limit. *)
Theorem reported_tokens_is_configured_limit
    (o : RagOrchestrator.orchestrator) (elapsed_ms : Z)
    (request : ApiServer.QueryRequest) :
  (forall response,
     snd (ApiServer.process_query (Some o) elapsed_ms request) = inr response ->
     (forall svc, RagOrchestrator.llm_service o = Some svc ->
        ApiServer.qm_tokens_used (ApiServer.metadata response)
        = MistralService.max_tokens (MistralService.config svc)) /\
     (RagOrchestrator.llm_service o = None ->
        ApiServer.qm_tokens_used (ApiServer.metadata response) = 512%Z)) /\
  MistralService.max_tokens MistralService.default_config = 512%Z /\
  (forall m response response',
     snd (ApiServer.process_query (Some o) elapsed_ms request) = inr response ->
     snd (ApiServer.process_query (Some (with_model o m)) elapsed_ms request)
     = inr response' ->
     ApiServer.qm_tokens_used (ApiServer.metadata response')
     = ApiServer.qm_tokens_used (ApiServer.metadata response)) /\
  (forall svc text n response,
     RagOrchestrator.llm_service o = Some svc ->
     snd (ApiServer.process_query (Some (with_model o (canned text n)))
                                  elapsed_ms request) = inr response ->
     (forall query cs grade language subject terms,
        let result :=
          snd (MistralService.generate_answer
                 {| MistralService.config := MistralService.config svc;
                    MistralService.model := canned text n |}
                 query cs grade language subject terms) in
        MistralService.success result = true ->
        MistralService.tokens_used result = n) /\
     ApiServer.qm_tokens_used (ApiServer.metadata response)
     = MistralService.max_tokens (MistralService.config svc) /\
     (ApiServer.qm_tokens_used (ApiServer.metadata response) = n
      <-> n = MistralService.max_tokens (MistralService.config svc))).
Proof.
  split; [|split; [reflexivity|split]].
  - intros response Hr. apply process_query_tokens in Hr.
    unfold ApiServer.reported_tokens in Hr. split.
    + intros svc Hsvc. now rewrite Hsvc in Hr.
    + intros Hnone. now rewrite Hnone in Hr.
  - intros m response response' Hr Hr'.
    apply process_query_tokens in Hr, Hr'. rewrite Hr, Hr'.
    unfold ApiServer.reported_tokens, with_model. simpl.
    destruct (RagOrchestrator.llm_service o); reflexivity.
  - intros svc text n response Hsvc Hr.
    apply process_query_tokens in Hr.
    unfold ApiServer.reported_tokens, with_model in Hr.
    cbn [RagOrchestrator.llm_service] in Hr. rewrite Hsvc in Hr.
    cbn [option_map MistralService.config] in Hr.
    split; [intros; now apply canned_count|].
    split; [exact Hr|]. rewrite Hr. split; intros Heq; now symmetry.
Qed.

End WithRuntime.

(** C10 as stated fails when the generation call happens to use up the
    limit: with a model that reports 512 completion tokens the response
    reports 512, which is the count of the generation call of that
    request. *)
Lemma reported_tokens_equal_the_actual_count :
  let m := canned (lit "Natural numbers are the counting numbers.") 512%Z in
  let asked := lit "What are natural numbers?" in
  option_map (fun x => ApiServer.qm_tokens_used (ApiServer.metadata x))
    (response_of
       (snd (@ApiServer.process_query latin_devanagari (Some (demo m)) 12%Z
               (request asked (lit "english")))))
  = Some 512%Z /\
  match RagOrchestrator.context_chunks_of [counting_chunk] with
  | Ok cs =>
      let result :=
        snd (@MistralService.generate_answer latin_devanagari
               {| MistralService.config := MistralService.default_config;
                  MistralService.model := m |}
               asked cs 6%Z (lit "english") (lit "mathematics") None) in
      MistralService.success result = true /\
      MistralService.tokens_used result = 512%Z
  | Raise _ => False
  end.
Proof. cbv zeta. repeat split; vm_compute; reflexivity. Qed.

End Pipeline.

(** ** The sanitizers of a Hindi answer
       (mistral_service.py lines 196-205, rag_orchestrator.py lines 235-246) *)

Module Sanitizer.
Import Py Data Re Spec.

Lemma prefix_len_le p s : prefix_len p s <= length s.
Proof. induction s as [|c s IH]; simpl; [|destruct (p c)]; lia. Qed.

Lemma count_long_runs_split s : forall run,
  count_long_runs run s
  = (if 4 <=? run + prefix_len ascii_letter s then 1 else 0)
    + count_long_runs 0 (skipn (prefix_len ascii_letter s) s).
Proof.
  induction s as [|c s IH]; intros run; simpl.
  - now rewrite Nat.add_0_r, Nat.add_0_r.
  - destruct (ascii_letter c) eqn:Hc; simpl.
    + rewrite IH. now rewrite Nat.add_succ_r.
    + rewrite Hc, Nat.add_0_r. reflexivity.
Qed.

(** A text is matched literally, up to case: [term] against the start of
    [s]. *)
Section Matching.
Context `{runtime}.

Lemma last_of_cons prev c l : last_of prev (c :: l) = last_of (Some c) l.
Proof.
  unfold last_of. simpl.
  destruct (rev l) as [|x xs] eqn:Hrev; simpl; reflexivity.
Qed.

Lemma star_greedy_total p prev s : forall n (k : cont),
  (forall q t m, k q t m = Some m) ->
  star_greedy p k prev s n = Some (n + prefix_len p s).
Proof.
  revert prev. induction s as [|c s IH]; intros prev n k Hk; simpl.
  - now rewrite Hk, Nat.add_0_r.
  - destruct (p c).
    + rewrite (IH (Some c) (S n) k Hk). cbn iota. f_equal. lia.
    + now rewrite Hk, Nat.add_0_r.
Qed.

Lemma match_english_word prev s :
  match_at english_word false prev s
  = if 4 <=? prefix_len ascii_letter s
    then Some (prefix_len ascii_letter s) else None.
Proof.
  unfold match_at, english_word, Seq. simpl fold_right. simpl run.
  destruct s as [|c1 s]; simpl; auto.
  destruct (ascii_letter c1); simpl; auto.
  destruct s as [|c2 s]; simpl; auto.
  destruct (ascii_letter c2); simpl; auto.
  destruct s as [|c3 s]; simpl; auto.
  destruct (ascii_letter c3); simpl; auto.
  destruct s as [|c4 s]; simpl; auto.
  destruct (ascii_letter c4); simpl; auto.
  now rewrite star_greedy_total.
Qed.

Lemma findall_skip r : forall k s prev,
  k <= length s ->
  exists prev', findall_go r k prev s = findall_go r 0 prev' (skipn k s).
Proof.
  induction k as [|k IH]; intros s prev Hk.
  - exists prev. reflexivity.
  - destruct s as [|c s]; simpl in Hk; [lia|].
    simpl. apply IH. lia.
Qed.

Lemma findall_english_word_count n : forall s prev,
  length s <= n ->
  length (findall_go english_word 0 prev s) = count_long_runs 0 s.
Proof.
  induction n as [|n IH]; intros s prev Hn.
  - destruct s; simpl in *; [reflexivity|lia].
  - destruct s as [|c s]; [reflexivity|].
    simpl in Hn.
    change (findall_go english_word 0 prev (c :: s))
      with (match match_at english_word false prev (c :: s) with
            | None => findall_go english_word 0 (Some c) s
            | Some (S m) =>
                firstn (S m) (c :: s) :: findall_go english_word m (Some c) s
            | Some O =>
                [] ::
                match match_at english_word true prev (c :: s) with
                | Some (S m) =>
                    firstn (S m) (c :: s)
                    :: findall_go english_word m (Some c) s
                | _ => findall_go english_word 0 (Some c) s
                end
            end).
    rewrite match_english_word.
    rewrite (count_long_runs_split (c :: s) 0).
    pose proof (prefix_len_le ascii_letter s) as Hle.
    destruct (ascii_letter c) eqn:Hc; cbn [prefix_len]; rewrite Hc;
      cbn [Nat.add skipn].
    + destruct (4 <=? S (prefix_len ascii_letter s)) eqn:Hlong.
      * destruct (findall_skip english_word (prefix_len ascii_letter s) s
                               (Some c) Hle) as [prev' ->].
        cbn [length]. rewrite IH; [reflexivity|].
        rewrite length_skipn. lia.
      * rewrite IH by lia.
        rewrite (count_long_runs_split s 0). cbn [Nat.add].
        apply Nat.leb_gt in Hlong.
        destruct (4 <=? prefix_len ascii_letter s) eqn:Hl; [|reflexivity].
        apply Nat.leb_le in Hl. lia.
    + change (4 <=? 0) with false. cbn iota.
      rewrite IH by lia. cbn [count_long_runs]. rewrite Hc. reflexivity.
Qed.

(** The literal part of the whole-word pattern. *)
Lemma run_literal term : forall (k : cont) prev s n,
  run (Seq (map (fun p => Chr (ignorecase_eq p)) term)) k prev s n
  = if ci_prefix term s
    then k (last_of prev (firstn (length term) s))
           (skipn (length term) s) (n + length term)
    else None.
Proof.
  induction term as [|p term IH]; intros k prev s n.
  - simpl. now rewrite Nat.add_0_r.
  - change (Seq (map (fun p => Chr (ignorecase_eq p)) (p :: term)))
      with (Cat (Chr (ignorecase_eq p))
                (Seq (map (fun p => Chr (ignorecase_eq p)) term))).
    destruct s as [|c s]; [reflexivity|].
    simpl. destruct (ignorecase_eq p c); simpl; [|reflexivity].
    rewrite IH. rewrite last_of_cons.
    replace (S n + length term) with (n + S (length term)) by lia.
    reflexivity.
Qed.

(** The whole-word pattern matches at a position exactly when the position
    is a word boundary, the term stands there up to case, and its end is a
    word boundary; the match is the term's length long. *)
Lemma match_whole_word term must_advance prev s :
  match_at (whole_word_ignorecase term) must_advance prev s
  = if at_boundary prev s
       && ci_prefix term s
       && at_boundary (last_of prev (firstn (length term) s))
                      (skipn (length term) s)
       && negb (must_advance && (length term =? 0))
    then Some (length term) else None.
Proof.
  unfold match_at, whole_word_ignorecase. simpl run.
  destruct (at_boundary prev s); simpl; [|reflexivity].
  rewrite run_literal.
  destruct (ci_prefix term s); simpl; [|reflexivity].
  destruct (at_boundary _ _); simpl; [|reflexivity].
  destruct (must_advance && (length term =? 0)); reflexivity.
Qed.

Lemma StronglySorted_weaken {A} (R R' : A -> A -> Prop) l :
  (forall a b, R a b -> R' a b) -> StronglySorted R l -> StronglySorted R' l.
Proof.
  intros Himp. induction 1 as [|x l Hs IH Hx]; constructor; auto.
  eapply Forall_impl; [|exact Hx]. intros b. apply Himp.
Qed.

Lemma longest_first_sorted (g : glossary) :
  Permutation g (longest_first g) /\
  StronglySorted (fun a b => len (fst b) <= len (fst a)) (longest_first g).
Proof.
  unfold longest_first. split; [apply SortFacts.sort_desc_perm|].
  eapply StronglySorted_weaken; [|apply SortFacts.sort_desc_sorted].
  - intros a b Hab. cbv beta in Hab. apply Nat.ltb_ge in Hab. exact Hab.
  - intros x y Hyx. apply Nat.ltb_lt in Hyx. apply Nat.ltb_ge. lia.
  - intros x y z Hzy Hyx. apply Nat.ltb_ge in Hzy, Hyx. apply Nat.ltb_ge. lia.
Qed.

(** *** The two substitutions, as the scans they are *)

Lemma ci_prefix_length term : forall s,
  ci_prefix term s = true -> length term <= length s.
Proof.
  induction term as [|p term IH]; intros [|c s] Hs; simpl in *;
    try lia; try discriminate.
  apply andb_true_iff in Hs as [_ Hs]. specialize (IH s Hs). lia.
Qed.

Lemma sub_go_skip r repl : forall k s prev,
  k <= length s ->
  sub_go r repl k prev s
  = sub_go r repl 0 (last_of prev (firstn k s)) (skipn k s).
Proof.
  induction k as [|k IH]; intros s prev Hk; [reflexivity|].
  destruct s as [|c s]; cbn [length] in Hk; [lia|].
  cbn [sub_go firstn skipn]. rewrite last_of_cons. apply IH. lia.
Qed.

(** The scan of [re.sub] for the pattern of a glossary term: where the term
    stands, up to case, between two word boundaries, the replacement is
    written and the scan goes on behind the term; anywhere else the code
    point is copied. *)
Lemma sub_go_whole_word term repl prev c s :
  term <> [] ->
  sub_go (whole_word_ignorecase term) repl 0 prev (c :: s)
  = if at_boundary prev (c :: s)
       && ci_prefix term (c :: s)
       && at_boundary (last_of prev (firstn (length term) (c :: s)))
                      (skipn (length term) (c :: s))
    then repl ++ sub_go (whole_word_ignorecase term) repl 0
                   (last_of prev (firstn (length term) (c :: s)))
                   (skipn (length term) (c :: s))
    else c :: sub_go (whole_word_ignorecase term) repl 0 (Some c) s.
Proof.
  intros Hterm. cbn [sub_go]. rewrite match_whole_word.
  cbn [andb negb]. rewrite andb_true_r.
  destruct (at_boundary prev (c :: s)
            && ci_prefix term (c :: s)
            && at_boundary (last_of prev (firstn (length term) (c :: s)))
                           (skipn (length term) (c :: s))) eqn:Hhere;
    [|reflexivity].
  apply andb_true_iff in Hhere as [Hhere _].
  apply andb_true_iff in Hhere as [_ Hci].
  apply ci_prefix_length in Hci.
  destruct term as [|p term]; [now destruct Hterm|].
  cbn [length] in *. cbn [firstn skipn]. rewrite last_of_cons.
  f_equal. apply sub_go_skip. lia.
Qed.

Lemma sub_go_whole_word_nil term repl prev :
  term <> [] -> sub_go (whole_word_ignorecase term) repl 0 prev [] = [].
Proof.
  intros Hterm. cbn [sub_go]. rewrite match_whole_word.
  destruct term as [|p term]; [now destruct Hterm|].
  cbn [ci_prefix]. now rewrite andb_false_r.
Qed.

Lemma replace_go_skip old new : forall k s,
  k <= length s -> replace_go old new k s = replace_go old new 0 (skipn k s).
Proof.
  induction k as [|k IH]; intros s Hk; [reflexivity|].
  destruct s as [|c s]; cbn [length] in Hk; [lia|].
  cbn [replace_go skipn]. apply IH. lia.
Qed.

Lemma startswith_length p : forall s,
  startswith p s = true -> length p <= length s.
Proof.
  induction p as [|a p IH]; intros [|b s] Hs; simpl in *;
    try lia; try discriminate.
  apply andb_true_iff in Hs as [_ Hs]. specialize (IH s Hs). lia.
Qed.

(** The scan of [str.replace]: where the term stands as it is written, the
    replacement is written and the scan goes on behind it; anywhere else the
    code point is copied.  No word boundary is looked at. *)
Lemma replace_scan old new c s :
  old <> [] ->
  replace (c :: s) old new
  = if startswith old (c :: s)
    then new ++ replace (skipn (length old) (c :: s)) old new
    else c :: replace s old new.
Proof.
  intros Hold. destruct old as [|a old]; [now destruct Hold|].
  unfold replace. cbn [replace_go].
  destruct (startswith (a :: old) (c :: s)) eqn:Hs; [|reflexivity].
  apply startswith_length in Hs. cbn [length] in *.
  cbn [skipn].
  replace (S (length old) - 1) with (length old) by lia.
  f_equal. apply replace_go_skip. lia.
Qed.

(** *** The removal of parentheticals *)

Lemma close_paren_is_no_letter c :
  other_than 41%N c = false -> ascii_letter c = false.
Proof.
  unfold other_than. intros Hc. apply negb_false_iff, N.eqb_eq in Hc.
  subst c. reflexivity.
Qed.

(** Behind the letter: the rest of the fragment and the closing
    parenthesis. *)
Lemma run_rest_of_parenthetical must_advance : forall s prev n,
  star_greedy (other_than 41%N)
    (run (Cat (Lit 41%N) Eps)
         (fun _ _ m => if must_advance && (m =? 0) then None else Some m))
    prev s n
  = if match skipn (prefix_len (other_than 41%N) s) s with
       | x :: _ => (x =? 41)%N
       | [] => false
       end
    then Some (n + prefix_len (other_than 41%N) s + 1) else None.
Proof.
  induction s as [|c s IH]; intros prev n; [reflexivity|].
  cbn [star_greedy prefix_len]. destruct (other_than 41%N c) eqn:Hc.
  - cbn [skipn]. rewrite IH.
    destruct (match skipn (prefix_len (other_than 41%N) s) s with
              | x :: _ => (x =? 41)%N
              | [] => false
              end).
    + f_equal. lia.
    + cbn [run Lit]. unfold other_than in Hc.
      apply negb_true_iff in Hc. rewrite N.eqb_sym in Hc. now rewrite Hc.
  - cbn [skipn run Lit]. unfold other_than in Hc.
    apply negb_false_iff in Hc. rewrite Hc.
    rewrite N.eqb_sym in Hc. rewrite Hc.
    replace (n + 0 + 1) with (S n) by lia.
    cbn [Nat.eqb]. now rewrite andb_false_r.
Qed.

(** From the opening parenthesis on: the fragment up to the first closing
    parenthesis matches when it holds a letter. *)
Lemma run_parenthetical must_advance : forall s prev n,
  star_greedy (other_than 41%N)
    (run (Cat (Chr ascii_letter)
              (Cat (Star (other_than 41%N)) (Cat (Lit 41%N) Eps)))
         (fun _ _ m => if must_advance && (m =? 0) then None else Some m))
    prev s n
  = if existsb ascii_letter (firstn (prefix_len (other_than 41%N) s) s)
       && match skipn (prefix_len (other_than 41%N) s) s with
          | x :: _ => (x =? 41)%N
          | [] => false
          end
    then Some (n + prefix_len (other_than 41%N) s + 1) else None.
Proof.
  induction s as [|c s IH]; intros prev n; [reflexivity|].
  cbn [star_greedy prefix_len]. destruct (other_than 41%N c) eqn:Hc.
  - cbn [skipn firstn existsb]. rewrite IH.
    destruct (existsb ascii_letter (firstn (prefix_len (other_than 41%N) s) s)
              && match skipn (prefix_len (other_than 41%N) s) s with
                 | x :: _ => (x =? 41)%N
                 | [] => false
                 end) eqn:Hrest.
    + apply andb_true_iff in Hrest as [Hex Hclose].
      rewrite Hex, Hclose, orb_true_r. cbn [andb]. f_equal. lia.
    + change (run (Cat (Chr ascii_letter) ?r) ?k prev (c :: s) n)
        with (if ascii_letter c
              then star_greedy (other_than 41%N)
                     (run (Cat (Lit 41%N) Eps) k) (Some c) s (S n)
              else None).
      destruct (ascii_letter c) eqn:Hletter; cbn [orb].
      * rewrite run_rest_of_parenthetical.
        destruct (match skipn (prefix_len (other_than 41%N) s) s with
                  | x :: _ => (x =? 41)%N
                  | [] => false
                  end); cbn [andb]; [f_equal; lia|reflexivity].
      * now rewrite Hrest.
  - change (run (Cat (Chr ascii_letter) ?r) ?k prev (c :: s) n)
      with (if ascii_letter c
            then star_greedy (other_than 41%N)
                   (run (Cat (Lit 41%N) Eps) k) (Some c) s (S n)
            else None).
    now rewrite (close_paren_is_no_letter c Hc).
Qed.

Lemma match_parenthetical must_advance prev c s :
  match_at latin_parenthetical must_advance prev (c :: s)
  = if (c =? 40)%N
       && existsb ascii_letter (firstn (prefix_len (other_than 41%N) s) s)
       && match skipn (prefix_len (other_than 41%N) s) s with
          | x :: _ => (x =? 41)%N
          | [] => false
          end
    then Some (prefix_len (other_than 41%N) s + 2) else None.
Proof.
  unfold match_at.
  change (run latin_parenthetical ?k prev (c :: s) 0)
    with (if (40 =? c)%N
          then star_greedy (other_than 41%N)
                 (run (Cat (Chr ascii_letter)
                           (Cat (Star (other_than 41%N))
                                (Cat (Lit 41%N) Eps))) k)
                 (Some c) s 1
          else None).
  rewrite (N.eqb_sym 40 c).
  destruct (c =? 40)%N; [|reflexivity]. cbn [andb].
  rewrite run_parenthetical.
  destruct (existsb _ _ && _); [f_equal; lia|reflexivity].
Qed.

Lemma last_of_snoc prev l x : last_of prev (l ++ [x]) = Some x.
Proof. unfold last_of. now rewrite rev_app_distr. Qed.

Lemma firstn_next {A} (l : list A) : forall k x t,
  skipn k l = x :: t -> firstn (S k) l = firstn k l ++ [x].
Proof.
  induction l as [|y l IH]; intros [|k] x t Hk; try discriminate.
  - cbn in Hk. injection Hk as -> _. reflexivity.
  - cbn [skipn] in Hk. cbn [firstn app]. f_equal. eapply IH; eauto.
Qed.

(** The scan that removes the parentheticals: a fragment that runs from an
    opening parenthesis to the first closing parenthesis behind it is
    replaced when it holds a basic Latin letter, and the scan goes on behind
    the closing parenthesis; anywhere else the code point is copied. *)
Lemma sub_go_parenthetical repl prev c s :
  sub_go latin_parenthetical repl 0 prev (c :: s)
  = if (c =? 40)%N
       && existsb ascii_letter (firstn (prefix_len (other_than 41%N) s) s)
       && match skipn (prefix_len (other_than 41%N) s) s with
          | x :: _ => (x =? 41)%N
          | [] => false
          end
    then repl ++ sub_go latin_parenthetical repl 0 (Some 41%N)
                   (skipn (prefix_len (other_than 41%N) s + 1) s)
    else c :: sub_go latin_parenthetical repl 0 (Some c) s.
Proof.
  cbn [sub_go]. rewrite match_parenthetical.
  destruct ((c =? 40)%N
            && existsb ascii_letter
                 (firstn (prefix_len (other_than 41%N) s) s)
            && match skipn (prefix_len (other_than 41%N) s) s with
               | x :: _ => (x =? 41)%N
               | [] => false
               end) eqn:Hhere; [|reflexivity].
  apply andb_true_iff in Hhere as [_ Hclose].
  destruct (skipn (prefix_len (other_than 41%N) s) s) as [|x t] eqn:Hskip;
    [discriminate|].
  apply N.eqb_eq in Hclose. subst x.
  replace (prefix_len (other_than 41%N) s + 2)
    with (S (prefix_len (other_than 41%N) s + 1)) by lia.
  f_equal.
  assert (Hlen : prefix_len (other_than 41%N) s + 1 <= length s).
  { rewrite <- (firstn_skipn (prefix_len (other_than 41%N) s) s) at 2.
    rewrite length_app, Hskip, length_firstn. cbn [length].
    pose proof (prefix_len_le (other_than 41%N) s). lia. }
  rewrite sub_go_skip by exact Hlen. f_equal.
  rewrite Nat.add_1_r, (firstn_next _ _ _ _ Hskip). apply last_of_snoc.
Qed.

(** C8, as the code has it.  (1) For a Hindi answer the adapter counts the
    maximal runs of 4 or more basic Latin letters.  (2) Only when the count
    is above 5 does it log the warning, and only when in addition the
    glossary is there and not empty does it substitute; otherwise the text
    stays as it is.  (3) The substitution goes through the glossary by
    decreasing length of the English term, and a term is replaced where it
    stands, up to case, between two word boundaries.  (4) The orchestrator
    then, for a Hindi answer with a glossary, whatever the count, replaces
    every occurrence of each term, as written, capitalized, in upper and in
    lower case, longest term first, removes the parentheticals that hold a
    basic Latin letter and collapses the whitespace.  (5) Without a glossary
    neither stage alters the cleaned text.  (6) The substitution of the
    adapter is the [re.sub] of each term in that order, and its scan writes
    the Hindi term where the English term stands, up to case, between two
    word boundaries, going on behind the term, and copies the code point
    anywhere else.  (7) The replacement of the orchestrator is, for each
    term, the [str.replace] of the four spellings in turn, whose scan writes
    the Hindi term wherever the spelling stands, inside a word or not.
    (8) The removal of the parentheticals is the scan that drops a fragment
    running from an opening parenthesis to the first closing parenthesis
    behind it when the fragment holds a basic Latin letter, goes on behind
    the closing parenthesis, and copies the code point anywhere else. *)
Theorem hindi_sanitizer_stages :
  (forall s, length (findall english_word s) = count_long_runs 0 s) /\
  (forall language terms s,
     MistralService.purity_pass language terms s
     = if MistralService.is_hindi language && (5 <? count_long_runs 0 s)
       then ([WarnEnglishWords (count_long_runs 0 s)],
             if truthy terms
             then MistralService.substitute_terms terms s
             else Ok s)
       else ([], Ok s)) /\
  (forall terms,
     Permutation (items terms) (longest_first (items terms)) /\
     StronglySorted (fun a b => len (fst b) <= len (fst a))
                    (longest_first (items terms))) /\
  (forall term must_advance prev s,
     match_at (whole_word_ignorecase term) must_advance prev s
     = if at_boundary prev s
          && ci_prefix term s
          && at_boundary (last_of prev (firstn (length term) s))
                         (skipn (length term) s)
          && negb (must_advance && (length term =? 0))
       then Some (length term) else None) /\
  (forall language terms answer,
     MistralService.is_hindi language = true -> truthy terms = true ->
     RagOrchestrator.polish language terms answer
     = collapse_ws
         (remove latin_parenthetical
            (fold_left RagOrchestrator.replace_term
                       (longest_first (items terms))
                       (MistralService.clean_citations answer)))) /\
  (forall language terms s,
     truthy terms = false ->
     snd (MistralService.purity_pass language terms s) = Ok s /\
     RagOrchestrator.polish language terms s
     = MistralService.clean_citations s) /\
  ((forall terms s,
      MistralService.substitute_terms terms s
      = fold_left
          (fun acc p => bind acc (sub (whole_word_ignorecase (fst p)) (snd p)))
          (longest_first (items terms)) (Ok s)) /\
   (forall term hindi s,
      existsb (fun c => (c =? 92)%N) hindi = false ->
      sub (whole_word_ignorecase term) hindi s
      = Ok (sub_go (whole_word_ignorecase term) hindi 0 None s)) /\
   (forall term hindi prev,
      term <> [] ->
      sub_go (whole_word_ignorecase term) hindi 0 prev [] = [] /\
      forall c s,
        sub_go (whole_word_ignorecase term) hindi 0 prev (c :: s)
        = if at_boundary prev (c :: s)
             && ci_prefix term (c :: s)
             && at_boundary (last_of prev (firstn (length term) (c :: s)))
                            (skipn (length term) (c :: s))
          then hindi ++ sub_go (whole_word_ignorecase term) hindi 0
                          (last_of prev (firstn (length term) (c :: s)))
                          (skipn (length term) (c :: s))
          else c :: sub_go (whole_word_ignorecase term) hindi 0 (Some c) s)) /\
  ((forall answer p,
      RagOrchestrator.replace_term answer p
      = replace
          (replace
             (replace (replace answer (fst p) (snd p))
                      (capitalize (fst p)) (snd p))
             (upper (fst p)) (snd p))
          (lower (fst p)) (snd p)) /\
   (forall old new,
      old <> [] ->
      replace [] old new = [] /\
      forall c s,
        replace (c :: s) old new
        = if startswith old (c :: s)
          then new ++ replace (skipn (length old) (c :: s)) old new
          else c :: replace s old new)) /\
  ((forall s, remove latin_parenthetical s
              = sub_go latin_parenthetical [] 0 None s) /\
   (forall prev, sub_go latin_parenthetical [] 0 prev [] = []) /\
   (forall prev c s,
      sub_go latin_parenthetical [] 0 prev (c :: s)
      = if (c =? 40)%N
           && existsb ascii_letter
                (firstn (prefix_len (other_than 41%N) s) s)
           && match skipn (prefix_len (other_than 41%N) s) s with
              | x :: _ => (x =? 41)%N
              | [] => false
              end
        then sub_go latin_parenthetical [] 0 (Some 41%N)
               (skipn (prefix_len (other_than 41%N) s + 1) s)
        else c :: sub_go latin_parenthetical [] 0 (Some c) s)).
Proof.
  assert (Hcount : forall s,
            length (findall english_word s) = count_long_runs 0 s).
  { intros s. unfold findall.
    now apply (findall_english_word_count (length s)). }
  assert (Hpass : forall language terms s,
     MistralService.purity_pass language terms s
     = if MistralService.is_hindi language && (5 <? count_long_runs 0 s)
       then ([WarnEnglishWords (count_long_runs 0 s)],
             if truthy terms
             then MistralService.substitute_terms terms s
             else Ok s)
       else ([], Ok s)).
  { intros language terms s. unfold MistralService.purity_pass.
    rewrite Hcount.
    destruct (MistralService.is_hindi language); [|reflexivity].
    destruct (5 <? count_long_runs 0 s); reflexivity. }
  split; [exact Hcount|]. split; [exact Hpass|].
  split; [intros terms; apply longest_first_sorted|].
  split; [apply match_whole_word|].
  split; [|split; [|split; [|split]]].
  - intros language terms answer Hhindi Hterms.
    unfold RagOrchestrator.polish, RagOrchestrator.replace_english_terms.
    now rewrite Hhindi, Hterms.
  - intros language terms s Hnone. split.
    + rewrite Hpass, Hnone.
      destruct (MistralService.is_hindi language && _); reflexivity.
    + unfold RagOrchestrator.polish. rewrite Hnone.
      now rewrite andb_false_r.
  - split; [reflexivity|]. split.
    + intros term hindi s Hplain. unfold sub. now rewrite Hplain.
    + intros term hindi prev Hterm.
      split; [now apply sub_go_whole_word_nil|].
      intros c s. now apply sub_go_whole_word.
  - split; [reflexivity|].
    intros old new Hold. split.
    + destruct old; [now destruct Hold|reflexivity].
    + intros c s. now apply replace_scan.
  - split; [reflexivity|]. split; [reflexivity|].
    intros prev c s. apply (sub_go_parenthetical [] prev c s).
Qed.

End Matching.

(** C8 as stated fails on the answer "The leaf is often green" with the
    glossary of the orchestrator: it holds 3 runs of 4 or more letters, not
    more than 5, and the adapter leaves it as it is, yet the pipeline
    substitutes: "green" is replaced, and so is the "of" inside "often",
    which is not a whole word. *)
Lemma substitution_below_threshold_inside_words :
  let answer := lit "The leaf is often green" in
  let terms := Some RagOrchestrator.get_hindi_terms in
  let o := {|
    RagOrchestrator.embedding_model := fun _ => Ok [];
    RagOrchestrator.vector_store := fun _ _ _ _ _ => Ok [];
    RagOrchestrator.llm_service := Some {|
      MistralService.config := MistralService.default_config;
      MistralService.model := fun _ _ =>
        Ok {| MistralService.choices := [Some answer];
              MistralService.usage_completion_tokens := Some 7%Z |} |} |} in
  length (@findall latin_devanagari english_word answer) = 3 /\
  @MistralService.purity_pass latin_devanagari (lit "hindi") terms answer
  = ([], Ok answer) /\
  @RagOrchestrator.polish latin_devanagari (lit "hindi") terms answer
  = lit "The leaf is काten हरा" /\
  snd (@RagOrchestrator.generate_answer latin_devanagari o (lit "What is a leaf?")
         [] 6%Z (lit "science") (lit "hindi") terms)
  = lit "The leaf is काten हरा".
Proof. cbv zeta. repeat split; vm_compute; reflexivity. Qed.

End Sanitizer.

(** ** Runs of the pipeline on concrete inputs *)

Module Runs.
Import Py Data Spec.

#[local] Existing Instance latin_devanagari.

(** A Hindi query: the table term is rewritten for the embedding and the
    prompt holds the query as it came. *)
Example hindi_query_run :
  let query := lit "प्रकाश क्या है?" in
  let run :=
    RagOrchestrator.process_query
      (demo (canned (lit "प्रकाश ऊर्जा का एक रूप है।") 9%Z))
      query 6%Z (Some (lit "science")) (Some 3%Z) (Some (lit "hindi")) in
  RagOrchestrator.search_query_of query = lit "light क्या है?" /\
  nth_error (fst run) 0 = Some (CallEncode (lit "light क्या है?")) /\
  match nth_error (fst run) 2 with
  | Some (CallModel prompt _) =>
      contains prompt query = true /\
      contains prompt (lit "light क्या है?") = false
  | _ => False
  end.
Proof. cbv zeta. repeat split; vm_compute; reflexivity. Qed.

(** A successful query: the model reports 7 completion tokens, the response
    reports 512, and the confidence is 0.9. *)
Example reported_tokens_run :
  let o := demo (canned (lit "Natural numbers are the counting numbers.") 7%Z) in
  let r := response_of (snd (ApiServer.process_query (Some o) 12%Z
                               (request (lit "What are natural numbers?")
                                        (lit "english")))) in
  option_map (fun x => ApiServer.qm_tokens_used (ApiServer.metadata x)) r
  = Some 512%Z /\
  option_map (fun x => ApiServer.qm_confidence (ApiServer.metadata x)) r
  = Some (9 # 10)%Q /\
  option_map ApiServer.answer r
  = Some (lit "Natural numbers are the counting numbers.") /\
  MistralService.tokens_used
    (snd (MistralService.generate_answer
            {| MistralService.config := MistralService.default_config;
               MistralService.model :=
                 canned (lit "Natural numbers are the counting numbers.") 7%Z |}
            (lit "What are natural numbers?") [] 6%Z (lit "english")
            (lit "mathematics") None))
  = 7%Z.
Proof. cbv zeta. repeat split; vm_compute; reflexivity. Qed.

(** A failing model: the adapter answers with the failure dict and the
    query still gets a response, carrying the degraded text. *)
Example failing_model_run :
  let svc := {| MistralService.config := MistralService.default_config;
                MistralService.model := failing |} in
  let dict :=
    snd (MistralService.generate_answer svc (lit "What are natural numbers?")
           [] 6%Z (lit "english") (lit "mathematics") None) in
  MistralService.success dict = false /\
  MistralService.error dict = Some (lit "llama_decode returned 1") /\
  option_map ApiServer.answer
    (response_of (snd (ApiServer.process_query (Some (demo failing)) 12%Z
                         (request (lit "What are natural numbers?")
                                  (lit "english")))))
  = Some (lit "Error: Could not generate response").
Proof. cbv zeta. repeat split; vm_compute; reflexivity. Qed.

(** Scenario B of the specification: a leaked "natural numbers" is replaced
    by the Hindi term of the glossary. *)
Example leaked_term_run :
  let terms := Some [(lit "natural numbers", lit "प्राकृतिक संख्याएँ")] in
  let o := demo (canned (lit "natural numbers गिनती की संख्याएँ हैं।") 9%Z) in
  snd (RagOrchestrator.generate_answer o (lit "What are natural numbers?")
         [] 6%Z (lit "mathematics") (lit "hindi") terms)
  = lit "प्राकृतिक संख्याएँ गिनती की संख्याएँ हैं।".
Proof. vm_compute. reflexivity. Qed.

(** Three chunks at distances 0.3, 0.1, 0.3: the nearest comes first and the
    two tied ones keep their retrieval order; an excerpt is cut at 150 code
    points. *)
Example ranked_citations_run :
  let chunk id d t := {|
    rc_chunk_id := Some id; rc_text := Some t;
    rc_metadata := None; rc_distance := Some d |} in
  let out :=
    ApiServer.format_citations
      [chunk (lit "a") (3 # 10)%Q (lit "first");
       chunk (lit "b") (1 # 10)%Q (repeat 120%N 151);
       chunk (lit "c") (3 # 10)%Q (lit "third")]
      6%Z (lit "social_science") in
  map ApiServer.id out = [1; 2; 3] /\
  map ApiServer.chunk_id out = [lit "b"; lit "a"; lit "c"] /\
  map ApiServer.relevance out = [(900 # 1000)%Q; (700 # 1000)%Q; (700 # 1000)%Q] /\
  map ApiServer.excerpt out
  = [repeat 120%N 150 ++ lit "..."; lit "first"; lit "third"] /\
  map ApiServer.source out
  = repeat (lit "NCERT Social Science Grade 6") 3.
Proof. cbv zeta. repeat split; vm_compute; reflexivity. Qed.

End Runs.

(* ================================================================== *)
(** * Part III: further properties of the code *)
(* ================================================================== *)

(** ** The prompt and the adapter (mistral_service.py) *)

Module PromptFacts.
Import Py Data MistralService Spec.

Lemma truncate_chunk_len t : len (truncate_chunk t) <= 803.
Proof.
  unfold truncate_chunk.
  destruct (chunk_ceiling <? len t) eqn:E.
  - unfold len, slice_to. rewrite length_app, length_firstn.
    assert (Hell : length ellipsis = 3) by (vm_compute; reflexivity).
    rewrite Hell. unfold chunk_ceiling. lia.
  - apply Nat.ltb_ge in E. unfold chunk_ceiling in E. lia.
Qed.

Lemma label_len h i : i < 10 -> len (label h i) <= 11.
Proof.
  intros Hi. destruct h;
    do 10 (destruct i as [|i]; [vm_compute; lia|]); lia.
Qed.

Lemma labelled_len h chunks : forall i,
  i + length chunks <= 10 ->
  len (labelled h i chunks) <= 816 * length chunks.
Proof.
  induction chunks as [|c rest IH]; intros i Hi; [simpl; lia|].
  cbn [labelled length] in *. rewrite ContextAssembly.chunk_content_label.
  unfold len in *. rewrite !length_app.
  pose proof (label_len h i ltac:(lia)) as Hl.
  pose proof (truncate_chunk_len (cc_text c)) as Ht.
  specialize (IH (S i) ltac:(lia)). unfold len in *.
  cbn [length]. lia.
Qed.

Lemma firstn_snoc {A} (l : list A) : forall k x,
  nth_error l k = Some x -> firstn (S k) l = firstn k l ++ [x].
Proof.
  induction l as [|y l IH]; intros [|k] x Hx; try discriminate.
  - injection Hx as ->. reflexivity.
  - cbn [firstn app]. f_equal. apply IH. exact Hx.
Qed.

(** X1: the context blob holds every chunk exactly when the labelled
    contents of all of them fit in 3500 code points, and up to four chunks
    always fit, whatever their texts. *)
Theorem context_whole_iff_fits
    (is_hindi_query : bool) (context_chunks : list context_chunk) :
  (build_context is_hindi_query context_chunks
   = labelled is_hindi_query 1 context_chunks
   <-> len (labelled is_hindi_query 1 context_chunks) <= 3500) /\
  (length context_chunks <= 4 ->
   build_context is_hindi_query context_chunks
   = labelled is_hindi_query 1 context_chunks).
Proof.
  assert (Hfit : len (labelled is_hindi_query 1 context_chunks) <= 3500 ->
                 build_context is_hindi_query context_chunks
                 = labelled is_hindi_query 1 context_chunks).
  { intros Hlen. unfold build_context.
    destruct (ContextAssembly.context_loop_spec is_hindi_query context_chunks
                1 [] 0 ltac:(unfold max_context_chars; lia))
      as (k & Hk & Heq & _ & Hstop).
    rewrite Heq. cbn [fst app].
    destruct (nth_error context_chunks k) as [c|] eqn:Hc.
    - exfalso. specialize (Hstop c eq_refl).
      pose proof (ContextAssembly.labelled_firstn_le is_hindi_query (S k)
                    context_chunks 1) as Hle.
      rewrite (firstn_snoc _ _ _ Hc), ContextAssembly.labelled_snoc in Hle.
      unfold len in *. rewrite length_app, length_firstn in Hle.
      replace (Nat.min k (length context_chunks)) with k in Hle by lia.
      unfold max_context_chars in Hstop. cbn [Nat.add] in Hstop, Hle. lia.
    - apply nth_error_None in Hc.
      now rewrite firstn_all2 by exact Hc. }
  split; [split; [|exact Hfit]|].
  - intros Heq. unfold build_context in Heq.
    destruct (ContextAssembly.context_loop_spec is_hindi_query context_chunks
                1 [] 0 ltac:(unfold max_context_chars; lia))
      as (k & _ & Hrun & Hin & _).
    rewrite Hrun in Heq. cbn [fst app] in Heq. rewrite <- Heq.
    unfold max_context_chars in Hin. cbn [Nat.add] in Hin. exact Hin.
  - intros Hfour. apply Hfit.
    pose proof (labelled_len is_hindi_query context_chunks 1 ltac:(lia)). lia.
Qed.

Section WithRuntime.
Context `{runtime}.

Lemma terms_block_first_15 (hindi_terms : option glossary) :
  terms_block (option_map (firstn 15) hindi_terms) = terms_block hindi_terms.
Proof.
  destruct hindi_terms as [[|p g]|]; try reflexivity.
  unfold terms_block. cbn [option_map items].
  change (truthy (Some (firstn 15 (p :: g)))) with true.
  change (truthy (Some (p :: g))) with true. cbv iota.
  now rewrite firstn_firstn.
Qed.

(** X2: the prompt depends on the glossary only for a Hindi answer, and
    then only through its first 15 pairs: the later terms never reach the
    model. *)
Theorem prompt_reads_first_15_terms
    (query : str) (context_chunks : list context_chunk) (grade : Z)
    (language subject : str) (hindi_terms : option glossary) :
  build_mistral_prompt query context_chunks grade language subject hindi_terms
  = build_mistral_prompt query context_chunks grade language subject
      (if is_hindi language then option_map (firstn 15) hindi_terms else None).
Proof.
  unfold build_mistral_prompt, envelope.
  destruct (is_hindi language); [|reflexivity].
  now rewrite terms_block_first_15.
Qed.

(** X3: the adapter reports success exactly when the model returned a
    completion whose first choice has a text, the substitution of the
    glossary raised nothing and the usage count is there; the answer and the
    token count are then the sanitized text and the count of the model.  In
    every other case the result is the failure dict with no tokens: a
    completion without choices fails with the text of the [IndexError], and a
    completion without a usage count loses the text already computed. *)
Theorem adapter_success_iff
    (svc : service) (query : str) (context_chunks : list context_chunk)
    (grade : Z) (language subject : str) (hindi_terms : option glossary) :
  let prompt :=
    build_mistral_prompt query context_chunks grade language subject
                         hindi_terms in
  let called := model svc prompt (sampling_of (config svc)) in
  let result :=
    snd (generate_answer svc query context_chunks grade language subject
                         hindi_terms) in
  (success result = true <->
   exists response raw text n,
     called = Ok response /\
     first_choice_text response = Ok raw /\
     snd (purity_pass language hindi_terms (clean_citations (strip raw)))
     = Ok text /\
     usage_completion_tokens response = Some n /\
     answer result = text /\ tokens_used result = n /\ error result = None) /\
  (success result = false ->
   answer result = lit "Error: Could not generate response" /\
   tokens_used result = 0%Z /\ error result <> None) /\
  (forall response, called = Ok response -> choices response = [] ->
   success result = false /\
   error result = Some (lit "list index out of range")) /\
  (forall response, called = Ok response ->
   usage_completion_tokens response = None ->
   success result = false).
Proof.
  cbv zeta. unfold generate_answer, try_generate.
  destruct (model svc _ (sampling_of (config svc))) as [response|e] eqn:Hcall.
  2:{ cbn. split; [|split; [|split]]; try discriminate.
      - split; [discriminate|].
        intros (response & raw & text & n & Hr & _). discriminate.
      - intros _. repeat split. discriminate. }
  unfold first_choice_text.
  destruct (choices response) as [|[raw|] rest] eqn:Hch.
  1,3: cbn; (split; [|split; [|split]]);
       [ split; [discriminate|];
         intros (r & raw' & text & n & Hr & Hraw & _);
         injection Hr as <-; rewrite Hch in Hraw; discriminate
       | intros _; repeat split; discriminate
       | intros r Hr Hnil; injection Hr as <-;
         first [ split; reflexivity | congruence ]
       | intros r Hr Hnone; reflexivity ].
  destruct (purity_pass language hindi_terms (clean_citations (strip raw)))
    as [log [text|e]] eqn:Hpur.
  2:{ cbn. split; [|split; [|split]].
      - split; [discriminate|].
        intros (r & raw' & text & n & Hr & Hraw & Htext & _).
        injection Hr as <-. rewrite Hch in Hraw. injection Hraw as <-.
        rewrite Hpur in Htext. discriminate.
      - intros _. repeat split. discriminate.
      - intros r Hr Hnil. injection Hr as <-. congruence.
      - intros r Hr Hnone. reflexivity. }
  unfold completion_tokens.
  destruct (usage_completion_tokens response) as [n|] eqn:Hus.
  - cbn. split; [|split; [|split]].
    + split; [|reflexivity]. intros _. exists response, raw, text, n.
      rewrite Hch, Hpur, Hus. repeat split.
    + discriminate.
    + intros r Hr Hnil. injection Hr as <-. congruence.
    + intros r Hr Hnone. injection Hr as <-. congruence.
  - cbn. split; [|split; [|split]].
    + split; [discriminate|].
      intros (r & raw' & text' & n & Hr & _ & _ & Hn & _).
      injection Hr as <-. congruence.
    + intros _. repeat split. discriminate.
    + intros r Hr Hnil. injection Hr as <-. congruence.
    + intros r Hr Hnone. reflexivity.
Qed.

End WithRuntime.
End PromptFacts.

(** ** Whitespace: [' '.join(s.split())] *)

Module Whitespace.
Import Py Data Spec Props.

Lemma forallb_rev {A} (p : A -> bool) (l : list A) :
  forallb p (rev l) = forallb p l.
Proof.
  induction l as [|x l IH]; [reflexivity|].
  cbn [rev forallb]. rewrite forallb_app, IH. cbn. now rewrite andb_true_r, andb_comm.
Qed.

Lemma is_token_rev cur :
  cur <> [] -> forallb (fun c => negb (isspace c)) cur = true ->
  is_token (rev cur) = true.
Proof.
  intros Hne Hall. unfold is_token.
  destruct (rev cur) as [|c r] eqn:Hrev.
  - apply (f_equal (@rev _)) in Hrev. rewrite rev_involutive in Hrev.
    now destruct Hne.
  - rewrite <- Hrev, forallb_rev. exact Hall.
Qed.

Lemma split_go_tokens s : forall cur,
  forallb (fun c => negb (isspace c)) cur = true ->
  Forall (fun w => is_token w = true) (split_go cur s).
Proof.
  induction s as [|c s IH]; intros cur Hcur.
  - cbn [split_go]. destruct cur as [|x cur]; constructor; [|constructor].
    apply is_token_rev; [discriminate|exact Hcur].
  - cbn [split_go]. destruct (isspace c) eqn:Hc.
    + destruct cur as [|x cur]; [now apply IH|].
      constructor; [|now apply IH].
      apply is_token_rev; [discriminate|exact Hcur].
    + apply IH. cbn [forallb]. now rewrite Hc.
Qed.

Lemma split_go_token_app w : forall cur s,
  forallb (fun c => negb (isspace c)) w = true ->
  split_go cur (w ++ s) = split_go (rev w ++ cur) s.
Proof.
  induction w as [|c w IH]; intros cur s Hw; [reflexivity|].
  cbn [forallb] in Hw. apply andb_true_iff in Hw as [Hc Hw].
  apply negb_true_iff in Hc.
  cbn [app split_go rev]. rewrite Hc, IH by exact Hw.
  now rewrite <- app_assoc.
Qed.

Lemma token_parts w :
  is_token w = true ->
  forallb (fun c => negb (isspace c)) w = true /\ rev w <> [].
Proof.
  destruct w as [|c w]; [discriminate|]. intros Hw. split; [exact Hw|].
  intros Hrev. apply (f_equal (@rev _)) in Hrev.
  rewrite rev_involutive in Hrev. discriminate.
Qed.

Lemma split_join ws :
  Forall (fun w => is_token w = true) ws -> split (join [32%N] ws) = ws.
Proof.
  unfold split. induction 1 as [|w ws Hw Hws IH]; [reflexivity|].
  destruct (token_parts w Hw) as [Hall Hne].
  destruct ws as [|w2 ws].
  - cbn [join]. rewrite <- (app_nil_r w) at 1.
    rewrite split_go_token_app by exact Hall. rewrite app_nil_r.
    cbn [split_go]. destruct (rev w) eqn:Hrev; [now destruct Hne|].
    now rewrite <- Hrev, rev_involutive.
  - change (join [32%N] (w :: w2 :: ws))
      with (w ++ 32%N :: join [32%N] (w2 :: ws)).
    rewrite split_go_token_app by exact Hall. rewrite app_nil_r.
    cbn [split_go]. change (isspace 32%N) with true. cbv iota.
    destruct (rev w) eqn:Hrev; [now destruct Hne|].
    rewrite <- Hrev, rev_involutive. f_equal. exact IH.
Qed.

Lemma join_tokens_starts_clean ws :
  Forall (fun w => is_token w = true) ws ->
  starts_clean (join [32%N] ws) = true.
Proof.
  intros Hws. destruct Hws as [|w ws Hw Hws]; [reflexivity|].
  destruct w as [|c w]; [discriminate|].
  cbn [is_token forallb] in Hw. apply andb_true_iff in Hw as [Hc _].
  destruct ws; cbn [join app starts_clean]; exact Hc.
Qed.

Lemma join_tokens_ends_clean ws :
  Forall (fun w => is_token w = true) ws ->
  starts_clean (rev (join [32%N] ws)) = true.
Proof.
  induction 1 as [|w ws Hw Hws IH]; [reflexivity|].
  destruct ws as [|w2 ws].
  - cbn [join]. destruct (token_parts w Hw) as [Hall Hne].
    destruct (rev w) as [|c r] eqn:Hrev; [now destruct Hne|].
    cbn [starts_clean]. rewrite <- forallb_rev, Hrev in Hall.
    cbn [forallb] in Hall. now apply andb_true_iff in Hall as [Hc _].
  - change (join [32%N] (w :: w2 :: ws))
      with (w ++ 32%N :: join [32%N] (w2 :: ws)).
    rewrite rev_app_distr. cbn [rev]. rewrite <- !app_assoc.
    destruct (rev (join [32%N] (w2 :: ws))) as [|c r] eqn:Hrev.
    + exfalso. apply (f_equal (@rev _)) in Hrev.
      rewrite rev_involutive in Hrev.
      apply Forall_inv in Hws. destruct w2; [discriminate|].
      destruct ws; discriminate.
    + exact IH.
Qed.

(** The normal form: collapsing the whitespace twice is collapsing it once,
    and a collapsed text has no whitespace at either end. *)
Lemma collapse_ws_normal s :
  collapse_ws (collapse_ws s) = collapse_ws s /\
  edge_clean (collapse_ws s) = true.
Proof.
  unfold collapse_ws.
  pose proof (split_go_tokens s [] eq_refl) as Htok. fold (split s) in Htok.
  split; [now rewrite split_join|].
  unfold edge_clean.
  now rewrite join_tokens_starts_clean, join_tokens_ends_clean.
Qed.

Section WithRuntime.
Context `{runtime}.

(** X4: every answer the orchestrator returns, generated, degraded or the
    notice of a missing service, is in whitespace normal form: collapsing
    its whitespace changes nothing, and it neither starts nor ends with
    whitespace.  The adapter's answer is in normal form whenever the answer
    language is not Hindi. *)
Theorem answers_are_whitespace_normal
    (o : RagOrchestrator.orchestrator) (svc : MistralService.service)
    (query : str) (context_chunks : list context_chunk) (grade : Z)
    (subject language : str) (hindi_terms : option glossary) :
  let answer :=
    snd (RagOrchestrator.generate_answer o query context_chunks grade subject
                                         language hindi_terms) in
  let adapted :=
    MistralService.answer
      (snd (MistralService.generate_answer svc query context_chunks grade
                                           language subject hindi_terms)) in
  (collapse_ws answer = answer /\ edge_clean answer = true) /\
  (MistralService.is_hindi language = false ->
   collapse_ws adapted = adapted /\ edge_clean adapted = true).
Proof.
  cbv zeta. split.
  - unfold RagOrchestrator.generate_answer.
    destruct (RagOrchestrator.llm_service o) as [svc'|];
      [|split; vm_compute; reflexivity].
    destruct (MistralService.generate_answer svc' query context_chunks grade
                language subject hindi_terms) as [log result].
    destruct (MistralService.success result);
      [|split; vm_compute; reflexivity].
    cbn [snd]. unfold RagOrchestrator.polish.
    destruct (MistralService.is_hindi language && truthy hindi_terms).
    + unfold RagOrchestrator.replace_english_terms. apply collapse_ws_normal.
    + unfold MistralService.clean_citations. apply collapse_ws_normal.
  - intros Hlang.
    unfold MistralService.generate_answer, MistralService.try_generate.
    destruct (MistralService.model svc _ _) as [response|e];
      [|split; vm_compute; reflexivity].
    destruct (MistralService.first_choice_text response) as [raw|e];
      [|split; vm_compute; reflexivity].
    unfold MistralService.purity_pass. rewrite Hlang.
    cbn [Py.bind]. 
    destruct (MistralService.completion_tokens response) as [n|e];
      [|split; vm_compute; reflexivity].
    cbn. unfold MistralService.clean_citations. apply collapse_ws_normal.
Qed.

End WithRuntime.
End Whitespace.

(** ** The query translation (_translate_hindi_query, lines 56-83) *)

Module Translation.
Import Py Data Spec Props.

(** *** [startswith], [in] and [replace] *)

Lemma startswith_app p : forall s,
  startswith p s = true <-> exists post, s = p ++ post.
Proof.
  induction p as [|a p IH]; intros s.
  - split; [intros _; now exists s|reflexivity].
  - destruct s as [|b s]; cbn [startswith].
    + split; [discriminate|]. intros [post Hpost]. discriminate.
    + rewrite andb_true_iff, N.eqb_eq, IH. split.
      * intros [-> [post ->]]. now exists post.
      * intros [post Hpost]. injection Hpost as -> ->. split; eauto.
Qed.

Lemma contains_app s t :
  contains s t = true <-> exists pre post, s = pre ++ t ++ post.
Proof.
  split.
  - induction s as [|c s IH]; cbn [contains]; rewrite orb_true_iff.
    + intros [Hs|]; [|discriminate].
      apply startswith_app in Hs as [post ->]. now exists [], post.
    + intros [Hs|Hc].
      * apply startswith_app in Hs as [post ->]. now exists [], post.
      * destruct (IH Hc) as (pre & post & ->). now exists (c :: pre), post.
  - intros (pre & post & ->). induction pre as [|c pre IH].
    + cbn [app]. destruct (t ++ post) eqn:E; cbn [contains];
        rewrite <- E; apply orb_true_iff; left;
        apply startswith_app; now exists post.
    + cbn [app contains]. now rewrite IH, orb_true_r.
Qed.

Lemma contains_trans s b t :
  contains s b = true -> contains b t = true -> contains s t = true.
Proof.
  rewrite !contains_app.
  intros (pre & post & ->) (pre' & post' & ->).
  exists (pre ++ pre'), (post' ++ post). now rewrite <- !app_assoc.
Qed.

Lemma contains_cons c s t :
  contains (c :: s) t = startswith t (c :: s) || contains s t.
Proof. reflexivity. Qed.

Lemma replace_go_absent old new : forall s,
  contains s old = false -> replace_go old new 0 s = s.
Proof.
  induction s as [|c s IH]; [reflexivity|].
  rewrite contains_cons. intros Hc. apply orb_false_iff in Hc as [Hs Hc].
  cbn [replace_go]. rewrite Hs. f_equal. now apply IH.
Qed.

Lemma replace_absent s old new :
  old <> [] -> contains s old = false -> replace s old new = s.
Proof.
  intros Hne Hc. destruct old; [now destruct Hne|].
  unfold replace. now apply replace_go_absent.
Qed.

(** *** Code points outside ASCII *)

Lemma count_app a b :
  count_non_ascii (a ++ b) = count_non_ascii a + count_non_ascii b.
Proof. unfold count_non_ascii. now rewrite filter_app, length_app. Qed.

Lemma count_ascii s : isascii s = true -> count_non_ascii s = 0.
Proof.
  unfold count_non_ascii, isascii, non_ascii.
  induction s as [|c s IH]; [reflexivity|].
  cbn [forallb filter]. intros Hs. apply andb_true_iff in Hs as [Hc Hs].
  rewrite Hc. cbn [negb]. now apply IH.
Qed.

Lemma count_cons_le c s : count_non_ascii s <= count_non_ascii (c :: s).
Proof.
  unfold count_non_ascii. cbn [filter]. destruct (non_ascii c); cbn [length]; lia.
Qed.

Lemma count_skipn_le k : forall s,
  count_non_ascii (skipn k s) <= count_non_ascii s.
Proof.
  induction k as [|k IH]; intros [|c s]; cbn [skipn]; try lia.
  pose proof (IH s). pose proof (count_cons_le c s). lia.
Qed.

Lemma replace_go_count old new : isascii new = true -> forall s skip,
  count_non_ascii (replace_go old new skip s) <= count_non_ascii (skipn skip s).
Proof.
  intros Hnew. induction s as [|c s IH]; intros skip.
  - cbn [replace_go]. destruct skip; cbn; lia.
  - cbn [replace_go]. destruct skip as [|k]; [|cbn [skipn]; apply IH].
    cbn [skipn]. destruct (startswith old (c :: s)).
    + rewrite count_app, (count_ascii _ Hnew).
      pose proof (IH (length old - 1)).
      pose proof (count_skipn_le (length old - 1) s).
      pose proof (count_cons_le c s). lia.
    + specialize (IH 0). cbn [skipn] in IH.
      unfold count_non_ascii in *. cbn [filter].
      destruct (non_ascii c); cbn [length]; lia.
Qed.

Lemma replace_count_le s old new :
  isascii new = true -> old <> [] ->
  count_non_ascii (replace s old new) <= count_non_ascii s.
Proof.
  intros Hnew Hne. destruct old; [now destruct Hne|]. unfold replace.
  apply (replace_go_count _ _ Hnew s 0).
Qed.

Lemma replace_go_count_lt old new :
  isascii new = true -> 0 < count_non_ascii old ->
  forall s, contains s old = true ->
  count_non_ascii (replace_go old new 0 s) < count_non_ascii s.
Proof.
  intros Hnew Hold. assert (Hne : old <> []) by (intros ->; cbn in Hold; lia).
  induction s as [|c s IH].
  - destruct old; [now destruct Hne|]. discriminate.
  - rewrite contains_cons. intros Hc. cbn [replace_go].
    destruct (startswith old (c :: s)) eqn:Hs.
    + rewrite count_app, (count_ascii _ Hnew).
      pose proof (replace_go_count old new Hnew s (length old - 1)) as Hle.
      apply startswith_app in Hs as [post Hpost].
      destruct old as [|a old]; [now destruct Hne|].
      injection Hpost as Ha Hpost. subst a s.
      assert (Hlen : length (c :: old) - 1 = length old)
        by (cbn [length]; lia).
      rewrite Hlen, skipn_app, Nat.sub_diag, skipn_all in Hle.
      cbn [app skipn] in Hle.
      change (c :: old ++ post) with ((c :: old) ++ post).
      rewrite count_app, Hlen. cbn [Nat.add]. lia.
    + cbn [orb] in Hc. specialize (IH Hc).
      unfold count_non_ascii in *. cbn [filter].
      destruct (non_ascii c); cbn [length]; lia.
Qed.

Lemma well_formed_cons p table :
  well_formed (p :: table) = true ->
  0 < count_non_ascii (fst p) /\ fst p <> [] /\
  isascii (snd p) = true /\ snd p <> [] /\ well_formed table = true.
Proof.
  unfold well_formed. cbn [forallb]. rewrite !andb_true_iff.
  intros [[Hk Hv] Hrest]. apply Nat.ltb_lt in Hk.
  repeat split; try assumption.
  - intros E. rewrite E in Hk. cbn in Hk. lia.
  - destruct (snd p); [discriminate|exact Hv].
  - destruct (snd p); [discriminate|discriminate].
Qed.

Lemma fold_count_le query table : forall translated,
  well_formed table = true ->
  count_non_ascii
    (fold_left (fun translated_query p =>
                  if contains query (fst p)
                  then replace translated_query (fst p) (snd p)
                  else translated_query) table translated)
  <= count_non_ascii translated.
Proof.
  induction table as [|p table IH]; intros translated Hwf;
    [cbn [fold_left]; lia|].
  apply well_formed_cons in Hwf as (_ & Hne & Hnew & _ & Hwf).
  cbn [fold_left]. etransitivity; [apply IH; exact Hwf|].
  destruct (contains query (fst p)); [|lia].
  now apply replace_count_le.
Qed.

Lemma fold_count_lt query table :
  well_formed table = true ->
  existsb (fun p => contains query (fst p)) table = true ->
  count_non_ascii (translate_with table query) < count_non_ascii query.
Proof.
  unfold translate_with. induction table as [|p table IH]; [discriminate|].
  intros Hwf Hex. pose proof Hwf as Hwf'.
  apply well_formed_cons in Hwf as (Hold & Hne & Hnew & _ & Hwf).
  cbn [fold_left existsb] in *.
  destruct (contains query (fst p)) eqn:Hc.
  - eapply Nat.le_lt_trans; [apply fold_count_le; exact Hwf|].
    destruct (fst p) as [|a old] eqn:Hk; [now destruct Hne|].
    unfold replace. rewrite <- Hk in *.
    now apply replace_go_count_lt.
  - apply IH; assumption.
Qed.

Lemma ascii_holds_no_term s t :
  isascii s = true -> 0 < count_non_ascii t -> contains s t = false.
Proof.
  intros Hs Ht. destruct (contains s t) eqn:Hc; [|reflexivity].
  apply contains_app in Hc as (pre & post & ->).
  apply count_ascii in Hs. rewrite !count_app in Hs. lia.
Qed.

Lemma table_well_formed : well_formed RagOrchestrator.hindi_to_english = true.
Proof. vm_compute. reflexivity. Qed.

Lemma no_known_term_existsb query :
  no_known_term query = false <->
  existsb (fun p => contains query (fst p)) RagOrchestrator.hindi_to_english
  = true.
Proof.
  unfold no_known_term.
  induction RagOrchestrator.hindi_to_english as [|p table IH];
    [split; discriminate|].
  cbn [forallb existsb]. destruct (contains query (fst p)); cbn; [tauto|exact IH].
Qed.

(** X5: the translation leaves a query as it is exactly when no term of the
    table occurs in it; it never adds a code point outside ASCII, and a
    query with a table term loses at least one. *)
Theorem translation_changes_iff_term_occurs (query : str) :
  (RagOrchestrator.translate_hindi_query query = query
   <-> no_known_term query = true) /\
  count_non_ascii (RagOrchestrator.translate_hindi_query query)
  <= count_non_ascii query /\
  (no_known_term query = false ->
   count_non_ascii (RagOrchestrator.translate_hindi_query query)
   < count_non_ascii query).
Proof.
  assert (Hlt : no_known_term query = false ->
                count_non_ascii (RagOrchestrator.translate_hindi_query query)
                < count_non_ascii query).
  { intros Hno. apply no_known_term_existsb in Hno.
    apply (fold_count_lt query _ table_well_formed Hno). }
  split; [split|split; [|exact Hlt]].
  - intros Heq. destruct (no_known_term query) eqn:Hno; [reflexivity|].
    specialize (Hlt eq_refl). rewrite Heq in Hlt. lia.
  - intros Hno. unfold RagOrchestrator.translate_hindi_query.
    now apply Pipeline.translate_untouched.
  - apply (fold_count_le query _ query table_well_formed).
Qed.

(** X6: the test [not query.isascii()] in front of the translation changes
    nothing: an ASCII query holds no term of the table, so the string that
    is embedded is the translation of the query in every case. *)
Theorem ascii_guard_is_redundant (query : str) :
  RagOrchestrator.search_query_of query
  = RagOrchestrator.translate_hindi_query query /\
  (isascii query = true -> RagOrchestrator.search_query_of query = query).
Proof.
  unfold RagOrchestrator.search_query_of.
  destruct (isascii query) eqn:Hascii; cbn [negb]; [|split; [reflexivity|discriminate]].
  assert (Hno : no_known_term query = true).
  { unfold no_known_term. apply forallb_forall. intros p Hp.
    apply negb_true_iff, ascii_holds_no_term; [exact Hascii|].
    pose proof table_well_formed as Hwf. unfold well_formed in Hwf.
    rewrite forallb_forall in Hwf. specialize (Hwf p Hp).
    apply andb_true_iff in Hwf as [Hk _]. now apply Nat.ltb_lt. }
  split; [|reflexivity]. symmetry.
  unfold RagOrchestrator.translate_hindi_query.
  now apply Pipeline.translate_untouched.
Qed.

(** *** Entries shadowed by an earlier entry *)

Lemma ascii_not_non_ascii a n :
  non_ascii a = true -> non_ascii n = false -> (a =? n)%N = false.
Proof.
  intros Ha Hn. apply N.eqb_neq. intros ->. congruence.
Qed.

Lemma pure_parts t :
  pure_non_ascii t = true ->
  exists a t', t = a :: t' /\ non_ascii a = true /\ forallb non_ascii t' = true.
Proof.
  destruct t as [|a t']; [discriminate|]. cbn [pure_non_ascii forallb].
  intros Ht. apply andb_true_iff in Ht as [Ha Ht]. now exists a, t'.
Qed.

Lemma plain_parts new :
  plain_ascii new = true ->
  exists n new', new = n :: new' /\ non_ascii n = false /\ isascii new = true.
Proof.
  destruct new as [|n new']; [discriminate|]. cbn [plain_ascii].
  intros Hnew. exists n, new'. repeat split; [|exact Hnew].
  unfold isascii in Hnew. cbn [forallb] in Hnew.
  apply andb_true_iff in Hnew as [Hn _]. unfold non_ascii. now rewrite Hn.
Qed.

(** A run of code points outside ASCII at the start of the rewritten text
    was at the start of the text. *)
Lemma startswith_through_replace old n new' : non_ascii n = false ->
  forall s t, forallb non_ascii t = true ->
  startswith t (replace_go old (n :: new') 0 s) = true -> startswith t s = true.
Proof.
  intros Hn. induction s as [|c s IH]; intros [|a t] Ht; try reflexivity.
  - cbn. discriminate.
  - cbn [forallb] in Ht. apply andb_true_iff in Ht as [Ha Ht].
    cbn [replace_go]. destruct (startswith old (c :: s)).
    + cbn [app startswith]. now rewrite (ascii_not_non_ascii a n Ha Hn).
    + cbn [startswith]. rewrite !andb_true_iff. intros [Hac Hrest].
      split; [exact Hac|]. now apply IH.
Qed.

Lemma contains_ascii_prefix new t r :
  isascii new = true -> pure_non_ascii t = true ->
  contains (new ++ r) t = contains r t.
Proof.
  intros Hnew Ht. apply pure_parts in Ht as (a & t' & -> & Ha & _).
  induction new as [|n new IH]; [reflexivity|].
  unfold isascii in Hnew. cbn [forallb] in Hnew.
  apply andb_true_iff in Hnew as [Hn Hnew].
  cbn [app]. rewrite contains_cons. cbn [startswith].
  rewrite (ascii_not_non_ascii a n Ha); [now apply IH|].
  unfold non_ascii. now rewrite Hn.
Qed.

Lemma contains_nil_pure t : pure_non_ascii t = true -> contains [] t = false.
Proof. destruct t; [discriminate|reflexivity]. Qed.

Lemma startswith_cons_through_replace old new t c s :
  plain_ascii new = true -> pure_non_ascii t = true ->
  startswith t (c :: replace_go old new 0 s) = true ->
  startswith t (c :: s) = true.
Proof.
  intros Hnew Ht.
  destruct (plain_parts new Hnew) as (n & new' & -> & Hn & _).
  destruct (pure_parts t Ht) as (a & t' & -> & _ & Ht').
  cbn [startswith]. rewrite !andb_true_iff. intros [Hac Hst].
  split; [exact Hac|].
  exact (startswith_through_replace old n new' Hn s t' Ht' Hst).
Qed.

(** A replacement by ASCII text brings in no occurrence of a term written
    without ASCII. *)
Lemma replace_go_keeps_absent old new t :
  plain_ascii new = true -> pure_non_ascii t = true ->
  forall s skip, contains s t = false ->
  contains (replace_go old new skip s) t = false.
Proof.
  intros Hnew Ht.
  destruct (plain_parts new Hnew) as (n & new' & Enew & Hn & Hascii).
  induction s as [|c s IH]; intros skip Hs.
  - cbn [replace_go]. now apply contains_nil_pure.
  - rewrite contains_cons in Hs. apply orb_false_iff in Hs as [Hstart Hs].
    cbn [replace_go]. destruct skip as [|k]; [|now apply IH].
    destruct (startswith old (c :: s)).
    + rewrite contains_ascii_prefix by assumption. now apply IH.
    + rewrite contains_cons, (IH 0 Hs), orb_false_r.
      destruct (startswith t (c :: replace_go old new 0 s)) eqn:Hst;
        [|reflexivity].
      apply startswith_cons_through_replace in Hst; [congruence|assumption..].
Qed.

(** After the replacement of a term written without ASCII by ASCII text no
    occurrence of the term is left. *)
Lemma replace_go_removes old new :
  plain_ascii new = true -> pure_non_ascii old = true ->
  forall s skip, contains (replace_go old new skip s) old = false.
Proof.
  intros Hnew Hold.
  destruct (plain_parts new Hnew) as (n & new' & Enew & Hn & Hascii).
  induction s as [|c s IH]; intros skip.
  - cbn [replace_go]. now apply contains_nil_pure.
  - cbn [replace_go]. destruct skip as [|k]; [|now apply IH].
    destruct (startswith old (c :: s)) eqn:Hstart.
    + rewrite contains_ascii_prefix by assumption. now apply IH.
    + rewrite contains_cons, (IH 0), orb_false_r.
      destruct (startswith old (c :: replace_go old new 0 s)) eqn:Hst;
        [|reflexivity].
      apply startswith_cons_through_replace in Hst; [congruence|assumption..].
Qed.

Lemma fold_unshadowed query : forall table seen translated,
  well_formed table = true ->
  Forall (fun t => pure_non_ascii t = true) seen ->
  (forall t, In t seen -> contains query t = true ->
             contains translated t = false) ->
  fold_left (fun translated_query p =>
               if contains query (fst p)
               then replace translated_query (fst p) (snd p)
               else translated_query) table translated
  = fold_left (fun translated_query p =>
                 if contains query (fst p)
                 then replace translated_query (fst p) (snd p)
                 else translated_query) (unshadowed seen table) translated.
Proof.
  induction table as [|p table IH]; intros seen translated Hwf Hseen Hinv;
    [reflexivity|].
  pose proof Hwf as Hwf'.
  apply well_formed_cons in Hwf' as (_ & Hne & Hascii & Hnew & Hrest).
  assert (Hplain : plain_ascii (snd p) = true).
  { unfold plain_ascii. destruct (snd p); [now destruct Hnew|exact Hascii]. }
  cbn [unshadowed fold_left].
  destruct (existsb (contains (fst p)) seen) eqn:Hsh.
  - apply existsb_exists in Hsh as (t & Hin & Hpt).
    replace (if contains query (fst p)
             then replace translated (fst p) (snd p) else translated)
      with translated; [now apply IH|].
    destruct (contains query (fst p)) eqn:Hq; [|reflexivity].
    symmetry. apply replace_absent; [exact Hne|].
    destruct (contains translated (fst p)) eqn:Hc; [|reflexivity].
    rewrite <- (Hinv t Hin (contains_trans _ _ _ Hq Hpt)).
    symmetry. exact (contains_trans _ _ _ Hc Hpt).
  - cbn [fold_left]. apply IH; [exact Hrest| |].
    + destruct (pure_non_ascii (fst p)) eqn:Hpure; [constructor|]; assumption.
    + intros t Hin Hqt.
      assert (Hcases : (t = fst p /\ pure_non_ascii (fst p) = true)
                       \/ In t seen).
      { destruct (pure_non_ascii (fst p)); [|now right].
        destruct Hin as [<-|Hin]; [now left|now right]. }
      destruct (contains query (fst p)) eqn:Hq.
      * destruct (fst p) as [|a old] eqn:Hk; [now destruct Hne|].
        unfold replace. rewrite <- Hk in *. clear Hk.
        destruct Hcases as [[-> Hpure]|Hin'].
        -- now apply replace_go_removes.
        -- apply replace_go_keeps_absent; [exact Hplain| |now apply Hinv].
           rewrite Forall_forall in Hseen. now apply Hseen.
      * destruct Hcases as [[-> _]|Hin']; [congruence|now apply Hinv].
Qed.

(** X7: three entries of the translation table can never fire.  A query
    that holds the Hindi for sunlight, opaque or translucent holds the
    Hindi for light or transparent, which stands earlier in the table and is
    rewritten first, so the longer term is no longer there when its turn
    comes: the translation is the one of the table without the three, and
    the Hindi for opaque comes out as its first letter followed by
    "transparent". *)
Theorem shadowed_entries_never_fire :
  (forall query,
     RagOrchestrator.translate_hindi_query query
     = translate_with (unshadowed [] RagOrchestrator.hindi_to_english) query) /\
  filter (fun p => negb (in_list (fst p)
                     (map fst (unshadowed [] RagOrchestrator.hindi_to_english))))
         RagOrchestrator.hindi_to_english
  = [(lit "सूर्य का प्रकाश", lit "sunlight");
     (lit "अपारदर्शी", lit "opaque");
     (lit "अर्धपारदर्शी", lit "translucent")] /\
  RagOrchestrator.translate_hindi_query (lit "सूर्य का प्रकाश")
  = lit "सूर्य का light" /\
  RagOrchestrator.translate_hindi_query (lit "अपारदर्शी") = lit "अtransparent".
Proof.
  split; [|repeat split; vm_compute; reflexivity].
  intros query. unfold RagOrchestrator.translate_hindi_query, translate_with.
  apply fold_unshadowed.
  - exact table_well_formed.
  - constructor.
  - intros t [].
Qed.

End Translation.

(** ** The calls of a query (rag_orchestrator.py, process_query) *)

Module Orchestration.
Import Py Data Spec Props.

Lemma Forall_of_calls (P : event -> Prop) (t : trace) :
  (forall e, is_call e = false -> P e) -> Forall P (calls t) -> Forall P t.
Proof.
  intros Hrest. unfold calls. induction t as [|e t IH]; [constructor|].
  cbn [filter]. destruct (is_call e) eqn:He.
  - intros Hall. inversion Hall; subst. constructor; auto.
  - intros Hall. constructor; auto.
Qed.

Section WithRuntime.
Context `{runtime}.

(** X8: a query makes at most one call to each collaborator, in the order
    embedding, search, language model, and never repeats one; the search is
    always for the language english with the grade, subject and number of
    results of the caller; the language model is called exactly when the
    query gets a response and a service is configured. *)
Theorem one_call_per_collaborator
    (o : RagOrchestrator.orchestrator) (query : str) (grade : Z)
    (subject : option str) (top_k : option Z) (language : option str) :
  let run :=
    RagOrchestrator.process_query o query grade subject top_k language in
  exists n embedding prompt params,
    calls (fst run)
    = firstn n [CallEncode (RagOrchestrator.search_query_of query);
                CallSearch embedding grade subject (lit "english") top_k;
                CallModel prompt params] /\
    1 <= n <= 3 /\
    (n = 3 <-> (exists response, snd run = Ok response)
               /\ RagOrchestrator.llm_service o <> None).
Proof.
  cbv zeta. unfold RagOrchestrator.process_query.
  destruct (RagOrchestrator.embedding_model o _) as [emb|e].
  2:{ exists 1, [], [], (MistralService.sampling_of MistralService.default_config).
      cbn [fst snd]. repeat split; try lia; try discriminate.
      intros [[r Hr] _]. discriminate. }
  destruct (RagOrchestrator.vector_store o emb grade subject _ top_k)
    as [retrieved|e].
  2:{ exists 2, emb, [], (MistralService.sampling_of MistralService.default_config).
      cbn [fst snd]. repeat split; try lia; try discriminate.
      intros [[r Hr] _]. discriminate. }
  destruct (RagOrchestrator.context_chunks_of retrieved) as [cs|e].
  2:{ exists 2, emb, [], (MistralService.sampling_of MistralService.default_config).
      cbn [fst snd]. repeat split; try lia; try discriminate.
      intros [[r Hr] _]. discriminate. }
  match goal with
  | |- context [RagOrchestrator.generate_answer o query cs grade ?s ?l ?t] =>
      pose proof (Pipeline.calls_generate o query cs grade s l t) as Hlog;
      destruct (RagOrchestrator.generate_answer o query cs grade s l t)
        as [log answer]
  end.
  cbn [fst snd] in *. rewrite Pipeline.calls_app, Hlog.
  destruct (RagOrchestrator.llm_service o) as [svc|].
  - eexists 3, emb, _, _. split; [reflexivity|]. split; [lia|].
    split; [|reflexivity]. intros _. split; [eauto|discriminate].
  - exists 2, emb, [], (MistralService.sampling_of MistralService.default_config).
    split; [reflexivity|]. split; [lia|].
    split; [discriminate|]. intros [_ Hsvc]. now destruct Hsvc.
Qed.

(** X9: what is retrieved depends neither on the answer language nor on the
    language model: with another language asked for and another model behind
    the service, the run makes the same embedding and search calls and ends
    in the same exception or in a response with the same chunks and the same
    citations. *)
Theorem retrieval_ignores_language_and_model
    (o : RagOrchestrator.orchestrator) (m : MistralService.llama)
    (query : str) (grade : Z) (subject : option str) (top_k : option Z)
    (language language' : option str) :
  let run :=
    RagOrchestrator.process_query o query grade subject top_k language in
  let run' :=
    RagOrchestrator.process_query (with_model o m) query grade subject top_k
                                  language' in
  same_retrieval (snd run) (snd run') /\
  firstn 2 (calls (fst run)) = firstn 2 (calls (fst run')).
Proof.
  cbv zeta. unfold RagOrchestrator.process_query.
  change (RagOrchestrator.embedding_model (with_model o m))
    with (RagOrchestrator.embedding_model o).
  change (RagOrchestrator.vector_store (with_model o m))
    with (RagOrchestrator.vector_store o).
  destruct (RagOrchestrator.embedding_model o _) as [emb|e];
    [|split; reflexivity].
  destruct (RagOrchestrator.vector_store o emb grade subject _ top_k)
    as [retrieved|e]; [|split; reflexivity].
  destruct (RagOrchestrator.context_chunks_of retrieved) as [cs|e];
    [|split; reflexivity].
  do 2 match goal with
  | |- context [RagOrchestrator.generate_answer ?o' query cs grade ?s ?l ?t] =>
      destruct (RagOrchestrator.generate_answer o' query cs grade s l t)
  end.
  cbn [fst snd same_retrieval RagOrchestrator.retrieved_chunks
       RagOrchestrator.citations].
  split; [split; reflexivity|]. rewrite !Pipeline.calls_app. reflexivity.
Qed.

Lemma context_chunks_of_ok chunks : forall cs,
  RagOrchestrator.context_chunks_of chunks = Ok cs ->
  Forall2 (fun chunk c =>
             rc_text chunk = Some (cc_text c) /\
             rc_metadata chunk = Some (cc_metadata c))
          chunks cs.
Proof.
  induction chunks as [|chunk chunks IH]; intros cs;
    cbn [RagOrchestrator.context_chunks_of].
  - intros [= <-]. constructor.
  - unfold RagOrchestrator.context_chunk_of.
    destruct (rc_text chunk) as [t|] eqn:Ht; [|discriminate].
    destruct (rc_metadata chunk) as [m|] eqn:Hm; [|discriminate]. cbn [bind].
    destruct (RagOrchestrator.context_chunks_of chunks) as [cs'|];
      [|discriminate].
    cbn [bind]. intros [= <-]. constructor; [now split|now apply IH].
Qed.

(** X24: a response of the orchestrator exists only when every retrieved
    chunk has a text and a metadata record; its citations are one per
    retrieved chunk, in retrieval order and not by relevance, each with the
    chapter and page number of its chunk or "Unknown"; and its language is
    the one asked for, or english. *)
Theorem orchestrator_citations_follow_retrieval
    (o : RagOrchestrator.orchestrator) (query : str) (grade : Z)
    (subject : option str) (top_k : option Z) (language : option str) :
  match snd (RagOrchestrator.process_query o query grade subject top_k
                                           language) with
  | Ok response =>
      Forall2
        (fun chunk c =>
           rc_text chunk <> None /\
           exists m,
             rc_metadata chunk = Some m /\
             RagOrchestrator.chapter c
             = ApiServer.get (md_chapter m) (lit "Unknown") /\
             RagOrchestrator.page c
             = match md_page_num m with
               | Some n => inl n
               | None => inr (lit "Unknown")
               end)
        (RagOrchestrator.retrieved_chunks response)
        (RagOrchestrator.citations response) /\
      RagOrchestrator.language response
      = RagOrchestrator.or_default language (lit "english")
  | Raise _ => True
  end.
Proof.
  unfold RagOrchestrator.process_query.
  destruct (RagOrchestrator.embedding_model o _) as [emb|e]; [|exact I].
  destruct (RagOrchestrator.vector_store o emb grade subject _ top_k)
    as [retrieved|e]; [|exact I].
  destruct (RagOrchestrator.context_chunks_of retrieved) as [cs|e] eqn:Hcs;
    [|exact I].
  destruct (RagOrchestrator.generate_answer _ _ _ _ _ _ _) as [log answer].
  cbn [snd RagOrchestrator.retrieved_chunks RagOrchestrator.citations
       RagOrchestrator.language].
  split; [|reflexivity].
  apply context_chunks_of_ok in Hcs. clear -Hcs.
  induction Hcs as [|chunk c chunks cs [Ht Hm] _ IH]; cbn [map];
    constructor; [|exact IH].
  split; [congruence|]. exists (cc_metadata c). split; [exact Hm|].
  unfold RagOrchestrator.citation_of.
  cbn [RagOrchestrator.chapter RagOrchestrator.page].
  split; [|reflexivity]. now destruct (md_chapter (cc_metadata c)).
Qed.

(** Every search of a run asks for the number of results it was given. *)
Lemma process_query_searches o query grade subject top_k language :
  searches_ask top_k
    (fst (RagOrchestrator.process_query o query grade subject top_k language)).
Proof.
  unfold searches_ask. apply Forall_of_calls.
  { intros [] He; try exact I. discriminate. }
  unfold RagOrchestrator.process_query.
  destruct (RagOrchestrator.embedding_model o _) as [emb|e];
    [|repeat constructor].
  destruct (RagOrchestrator.vector_store o emb grade subject _ top_k)
    as [retrieved|e]; [|repeat constructor].
  destruct (RagOrchestrator.context_chunks_of retrieved) as [cs|e];
    [|repeat constructor].
  match goal with
  | |- context [RagOrchestrator.generate_answer o query cs grade ?s ?l ?t] =>
      pose proof (Pipeline.calls_generate o query cs grade s l t) as Hlog;
      destruct (RagOrchestrator.generate_answer o query cs grade s l t)
        as [log answer]
  end.
  cbn [fst snd] in *. rewrite Pipeline.calls_app, Hlog.
  destruct (RagOrchestrator.llm_service o); repeat constructor.
Qed.

End WithRuntime.
End Orchestration.

(** ** The response of the API (api_server.py) *)

Module Responses.
Import Py Data ApiServer Spec Props.

Lemma str_eqb_eq a b : str_eqb a b = true <-> a = b.
Proof.
  unfold str_eqb. destruct (list_eq_dec N.eq_dec a b); split; congruence.
Qed.

(** *** [strip] *)

Lemma lstrip_is_clean s : starts_clean (lstrip s) = true.
Proof.
  induction s as [|c s IH]; [reflexivity|]. cbn [lstrip].
  destruct (isspace c) eqn:Hc; [exact IH|].
  cbn [starts_clean]. now rewrite Hc.
Qed.

Lemma lstrip_len s : len (lstrip s) <= len s.
Proof.
  unfold len. induction s as [|c s IH]; [reflexivity|]. cbn [lstrip].
  destruct (isspace c); cbn [length]; lia.
Qed.

Lemma lstrip_snoc x c :
  isspace c = false -> lstrip (x ++ [c]) = lstrip x ++ [c].
Proof.
  intros Hc. induction x as [|a x IH]; cbn [app lstrip].
  - now rewrite Hc.
  - destruct (isspace a); [exact IH|reflexivity].
Qed.

Lemma strip_is_edge_clean s : edge_clean (strip s) = true.
Proof.
  unfold edge_clean, strip, rstrip.
  rewrite rev_involutive, lstrip_is_clean, andb_true_r.
  pose proof (lstrip_is_clean s) as Hl.
  destruct (lstrip s) as [|c l]; [reflexivity|].
  cbn [starts_clean] in Hl. apply negb_true_iff in Hl.
  cbn [rev]. rewrite lstrip_snoc by exact Hl.
  rewrite rev_app_distr. cbn [rev app starts_clean]. now rewrite Hl.
Qed.

Lemma strip_len s : len (strip s) <= len s.
Proof.
  unfold strip, rstrip, len. rewrite length_rev.
  etransitivity; [apply lstrip_len|]. unfold len. rewrite length_rev.
  apply lstrip_len.
Qed.

Lemma dots : lit "..." = [46; 46; 46]%N.
Proof. vm_compute. reflexivity. Qed.

Lemma excerpt_well_formed full_text :
  edge_clean (excerpt_of full_text) = true /\ len (excerpt_of full_text) <= 153.
Proof.
  unfold excerpt_of. cbv zeta.
  pose proof (strip_is_edge_clean (slice_to excerpt_limit full_text)) as Hclean.
  pose proof (strip_len (slice_to excerpt_limit full_text)) as Hlen.
  assert (Hcut : len (slice_to excerpt_limit full_text) <= 150).
  { unfold len, slice_to, excerpt_limit. rewrite length_firstn. lia. }
  destruct (excerpt_limit <? len full_text); [|split; [exact Hclean|lia]].
  rewrite dots. split.
  - unfold edge_clean in *. rewrite rev_app_distr.
    apply andb_true_iff in Hclean as [Hstart _].
    destruct (strip (slice_to excerpt_limit full_text)); [reflexivity|].
    cbn [app rev starts_clean] in *. rewrite Hstart. reflexivity.
  - unfold len in *. rewrite length_app. cbn [length]. lia.
Qed.

(** *** Sorting a list through a map *)

Lemma insert_desc_map {A B} (f : A -> B)
    (aboveA : A -> A -> bool) (aboveB : B -> B -> bool) :
  (forall x y, aboveB (f y) (f x) = aboveA y x) ->
  forall x l,
    insert_desc aboveB (f x) (map f l) = map f (insert_desc aboveA x l).
Proof.
  intros Hab x l. induction l as [|y l IH]; [reflexivity|].
  cbn [map insert_desc]. rewrite Hab.
  destruct (aboveA y x); [|reflexivity]. cbn [map]. now rewrite IH.
Qed.

Lemma sort_desc_map {A B} (f : A -> B)
    (aboveA : A -> A -> bool) (aboveB : B -> B -> bool) :
  (forall x y, aboveB (f y) (f x) = aboveA y x) ->
  forall l, sort_desc aboveB (map f l) = map f (sort_desc aboveA l).
Proof.
  intros Hab l. induction l as [|x l IH]; [reflexivity|].
  cbn [map sort_desc]. rewrite IH. now apply insert_desc_map.
Qed.

Lemma map_snd_enumerate {A} (l : list A) : forall i,
  map snd (enumerate_from i l) = l.
Proof.
  induction l as [|x l IH]; intros i; [reflexivity|].
  cbn [enumerate_from map snd]. now rewrite IH.
Qed.

Lemma in_enumerate_from {A} (l : list A) : forall i k x,
  In (k, x) (enumerate_from i l) -> In x l.
Proof.
  induction l as [|y l IH]; intros i k x Hin; [destruct Hin|].
  destruct Hin as [Heq|Hin]; [injection Heq as _ <-; now left|].
  right. eapply IH; eauto.
Qed.

Lemma map_renumbered {B} (f : Citation -> B) :
  (forall c i, f (set_id c i) = f c) ->
  forall l i,
    map f (map (fun ic => set_id (snd ic) (fst ic + 1)) (enumerate_from i l))
    = map f l.
Proof.
  intros Hf. induction l as [|c l IH]; intros i; [reflexivity|].
  cbn [enumerate_from map fst snd]. now rewrite Hf, IH.
Qed.

Lemma more_relevant_chunk_false y x :
  more_relevant_chunk y x = false <-> (sc_relevance y <= sc_relevance x)%Q.
Proof.
  unfold more_relevant_chunk. rewrite Qle_alt.
  rewrite <- (Qcompare_antisym (sc_relevance x) (sc_relevance y)).
  destruct (sc_relevance x ?= sc_relevance y)%Q; simpl; split; congruence.
Qed.

Lemma or_default_not_empty x default :
  default <> [] -> RagOrchestrator.or_default x default <> [].
Proof.
  intros Hd. unfold RagOrchestrator.or_default.
  destruct x as [[|c s]|]; try exact Hd. discriminate.
Qed.

Section WithRuntime.
Context `{runtime}.

(** The retrieved chunks with their positions, sorted by decreasing
    relevance: the order common to the citations and the source chunks. *)
Lemma citations_through_positions chunks grade subject :
  sort_desc more_relevant
    (map (fun ic => citation_of grade subject (fst ic) (snd ic))
         (enumerate_from 0 chunks))
  = map (fun ic => citation_of grade subject (fst ic) (snd ic))
        (sort_desc
           (fun y x : nat * retrieved_chunk =>
              match (relevance_of (snd x) ?= relevance_of (snd y))%Q with
              | Lt => true
              | _ => false
              end)
           (enumerate_from 0 chunks)).
Proof. apply sort_desc_map. intros x y. reflexivity. Qed.

Lemma sources_through_positions chunks :
  format_source_chunks chunks
  = map (fun ic : nat * retrieved_chunk => source_chunk_of (snd ic))
        (sort_desc
           (fun y x : nat * retrieved_chunk =>
              match (relevance_of (snd x) ?= relevance_of (snd y))%Q with
              | Lt => true
              | _ => false
              end)
           (enumerate_from 0 chunks)).
Proof.
  unfold format_source_chunks.
  rewrite <- (map_snd_enumerate chunks 0) at 1. rewrite map_map.
  apply sort_desc_map. intros x y. reflexivity.
Qed.

(** X10: the citations and the source chunks of a response stand in the
    same order: at every position the citation and the source chunk come
    from the same retrieved chunk, with the same chunk id and relevance, and
    the excerpt of the citation is cut from the full text of the source
    chunk. *)
Theorem citations_and_sources_in_same_order
    (retrieved_chunks : list retrieved_chunk) (grade : Z) (subject : str) :
  let citations := format_citations retrieved_chunks grade subject in
  let sources := format_source_chunks retrieved_chunks in
  map chunk_id citations = map sc_chunk_id sources /\
  map relevance citations = map sc_relevance sources /\
  map excerpt citations
  = map (fun s => excerpt_of (sc_full_text s)) sources.
Proof.
  cbv zeta. unfold format_citations.
  rewrite citations_through_positions, sources_through_positions.
  rewrite !map_renumbered by reflexivity. rewrite !map_map.
  repeat split; apply map_ext; intros [i chunk]; reflexivity.
Qed.

Lemma chapter_fallback grade subject idx chunk :
  chapter (citation_of grade subject idx chunk) = lit "Unknown" ->
  section (citation_of grade subject idx chunk) = lit "General"
  \/ section (citation_of grade subject idx chunk) = lit "Unknown".
Proof.
  unfold citation_of. cbv zeta. cbn [chapter section].
  destruct (str_eqb _ (lit "Unknown") && negb (str_eqb _ (lit "General")))
    eqn:Hcond.
  - intros Heq. now right.
  - intros Heq. left. rewrite Heq in Hcond.
    apply andb_false_iff in Hcond as [Hu|Hg].
    + assert (Ht : str_eqb (lit "Unknown") (lit "Unknown") = true)
        by now apply str_eqb_eq.
      congruence.
    + apply negb_false_iff in Hg. now apply str_eqb_eq.
Qed.

(** X11: every citation of a response is built from one of the retrieved
    chunks, carries its id and relevance, and has an excerpt of at most 153
    code points with no whitespace at either end; a citation whose chapter
    is "Unknown" has the section "General" or "Unknown". *)
Theorem every_citation_is_well_formed
    (retrieved_chunks : list retrieved_chunk) (grade : Z) (subject : str) :
  Forall
    (fun c =>
       (exists chunk,
          In chunk retrieved_chunks /\
          chunk_id c = get (rc_chunk_id chunk) [] /\
          excerpt c = excerpt_of (get (rc_text chunk) []) /\
          relevance c = relevance_of chunk) /\
       edge_clean (excerpt c) = true /\
       len (excerpt c) <= 153 /\
       (chapter c = lit "Unknown" ->
        section c = lit "General" \/ section c = lit "Unknown"))
    (format_citations retrieved_chunks grade subject).
Proof.
  apply Forall_forall. intros c Hin. unfold format_citations in Hin.
  apply in_map_iff in Hin as ([i c'] & <- & Hin).
  apply in_enumerate_from in Hin.
  apply (Permutation_in _
           (Permutation_sym (SortFacts.sort_desc_perm _ more_relevant _)))
    in Hin.
  apply (Citations.in_unsorted retrieved_chunks grade subject c') in Hin.
  destruct Hin as (chunk & Hnth & ->).
  cbn [fst snd set_id chunk_id excerpt relevance chapter section].
  split; [|split; [|split]].
  - exists chunk. split; [eapply nth_error_In; eauto|].
    repeat split; reflexivity.
  - apply excerpt_well_formed.
  - apply excerpt_well_formed.
  - apply chapter_fallback.
Qed.

(** X12: the source chunks of a response are the retrieved chunks, each
    with its full text, rearranged so that the relevance never increases. *)
Theorem source_chunks_ranked (retrieved_chunks : list retrieved_chunk) :
  let sources := format_source_chunks retrieved_chunks in
  Permutation (map source_chunk_of retrieved_chunks) sources /\
  StronglySorted (fun a b => (sc_relevance b <= sc_relevance a)%Q) sources /\
  Forall (fun s => exists chunk,
            In chunk retrieved_chunks /\
            sc_full_text s = get (rc_text chunk) [] /\
            sc_relevance s = relevance_of chunk) sources.
Proof.
  cbv zeta. unfold format_source_chunks.
  split; [apply SortFacts.sort_desc_perm|]. split.
  - eapply Sanitizer.StronglySorted_weaken;
      [|apply SortFacts.sort_desc_sorted].
    + intros a b Hab. cbv beta in Hab. now apply more_relevant_chunk_false.
    + intros x y Hyx. apply more_relevant_chunk_false.
      unfold more_relevant_chunk in Hyx.
      destruct (sc_relevance x ?= sc_relevance y)%Q eqn:Hc; try discriminate.
      apply Qlt_le_weak. now apply Qlt_alt.
    + intros x y z. rewrite !more_relevant_chunk_false.
      intros Hzy Hyx. eapply Qle_trans; eauto.
  - apply Forall_forall. intros s Hin.
    apply (Permutation_in _
             (Permutation_sym
                (SortFacts.sort_desc_perm _ more_relevant_chunk _))) in Hin.
    apply in_map_iff in Hin as (chunk & <- & Hin).
    exists chunk. repeat split; assumption.
Qed.

(** X13: a Hindi answer is generated from at most three chunks: when the
    answer language is Hindi every search of the request asks for
    [min(top_k, 3)] results, and a request without [top_k] fails with
    status 500 before anything is embedded or searched; for any other
    language the searches ask for [top_k] as it came. *)
Theorem hindi_requests_ask_for_at_most_three
    (o : RagOrchestrator.orchestrator) (elapsed_ms : Z)
    (request : QueryRequest) :
  let response_language :=
    RagOrchestrator.or_default (language request) (lit "english") in
  let run := process_query (Some o) elapsed_ms request in
  (MistralService.is_hindi response_language = true ->
   match top_k request with
   | Some k =>
       (Z.min k 3 <= 3)%Z /\ searches_ask (Some (Z.min k 3)) (fst run)
   | None =>
       fst run = [] /\
       exists e, snd run = inl e /\ status_code e = 500%Z /\
         detail e
         = lit "Query processing failed: " ++
           lit "'<' not supported between instances of 'int' and 'NoneType'"
   end) /\
  (MistralService.is_hindi response_language = false ->
   searches_ask (top_k request) (fst run)).
Proof.
  cbv zeta. unfold process_query, try_process_query, adjust_top_k.
  destruct (MistralService.is_hindi _) eqn:Hlang.
  - split; [intros _|discriminate].
    destruct (top_k request) as [k|].
    + split; [lia|].
      pose proof (Orchestration.process_query_searches o (query request)
                    (grade request) (Some (subject request))
                    (Some (Z.min k 3))
                    (Some (RagOrchestrator.or_default (language request)
                                                      (lit "english"))))
        as Hs.
      destruct (RagOrchestrator.process_query _ _ _ _ _ _) as [log [r|e]];
        exact Hs.
    + split; [reflexivity|]. eexists. split; [reflexivity|].
      split; reflexivity.
  - split; [discriminate|intros _].
    pose proof (Orchestration.process_query_searches o (query request)
                  (grade request) (Some (subject request)) (top_k request)
                  (Some (RagOrchestrator.or_default (language request)
                                                    (lit "english"))))
      as Hs.
    destruct (RagOrchestrator.process_query _ _ _ _ _ _) as [log [r|e]];
      exact Hs.
Qed.

(** X14: in a response the number of chunks reported in the metadata is the
    number of citations and the number of source chunks, the citations are
    numbered 1, 2, ..., the language reported is the one asked for, or
    english when none or the empty string was given, and the detected query
    language is hindi or english. *)
Theorem response_counts_agree
    (rag_orchestrator : option RagOrchestrator.orchestrator) (elapsed_ms : Z)
    (request : QueryRequest) :
  match snd (process_query rag_orchestrator elapsed_ms request) with
  | inr response =>
      let n := qm_chunks_retrieved (metadata response) in
      length (citations response) = n /\
      length (source_chunks response) = n /\
      map id (citations response) = seq 1 n /\
      qm_language (metadata response)
      = RagOrchestrator.or_default (language request) (lit "english") /\
      qm_language (metadata response) <> [] /\
      (qm_query_language (metadata response) = lit "hindi"
       \/ qm_query_language (metadata response) = lit "english") /\
      qm_grade (metadata response) = grade request /\
      qm_subject (metadata response) = subject request
  | inl _ => True
  end.
Proof.
  unfold process_query, try_process_query.
  destruct rag_orchestrator as [o|]; [|exact I].
  destruct (adjust_top_k _ _) as [adjusted|e]; [|exact I].
  destruct (RagOrchestrator.process_query _ _ _ _ _ _) as [log [r|e]];
    [|exact I].
  cbn [snd metadata citations source_chunks qm_chunks_retrieved qm_language
       qm_query_language qm_grade qm_subject]. cbv zeta.
  assert (Hlen : length (format_citations (RagOrchestrator.retrieved_chunks r)
                           (grade request) (subject request))
                 = length (RagOrchestrator.retrieved_chunks r)).
  { unfold format_citations.
    now rewrite length_map, Citations.length_enumerate_from,
      SortFacts.sort_desc_length, length_map,
      Citations.length_enumerate_from. }
  repeat split.
  - exact Hlen.
  - unfold format_source_chunks.
    now rewrite SortFacts.sort_desc_length, length_map.
  - unfold format_citations. rewrite Citations.renumber_ids.
    now rewrite SortFacts.sort_desc_length, length_map,
      Citations.length_enumerate_from.
  - apply or_default_not_empty. discriminate.
  - unfold detect_query_language.
    destruct (negb (isascii (query request))); [now left|now right].
Qed.

End WithRuntime.
End Responses.

(** ** The vector store (vector_store.py) *)

Module StoreFacts.
Import Py Data PyDict VectorStore Spec Props.

Lemma collect_spec {B} (f : nat -> result B) indices : forall out,
  collect f indices = Ok out -> Forall2 (fun i b => f i = Ok b) indices out.
Proof.
  induction indices as [|i rest IH]; intros out; cbn [collect].
  - intros [= <-]. constructor.
  - destruct (f i) as [b|e] eqn:Hf; [|discriminate]. cbn [bind].
    destruct (collect f rest) as [bs|e]; [|discriminate]. cbn [bind].
    intros [= <-]. constructor; auto.
Qed.

Lemma at_index_ok {A} (l : list A) i x :
  at_index l i = Ok x -> nth_error l i = Some x.
Proof.
  unfold at_index. destruct (nth_error l i); [|discriminate].
  now intros [= ->].
Qed.

Lemma format_result_ok results i c :
  format_result results i = Ok c ->
  complete c = true /\
  (forall ids0, first (ids results) = Ok ids0 ->
                nth_error ids0 i = rc_chunk_id c) /\
  (forall documents0, first (documents results) = Ok documents0 ->
                      nth_error documents0 i = rc_text c).
Proof.
  unfold format_result.
  destruct (first (ids results)) as [ids0|]; [|discriminate]. cbn [bind].
  destruct (at_index ids0 i) as [chunk_id|] eqn:H1; [|discriminate].
  cbn [bind].
  destruct (first (documents results)) as [documents0|]; [|discriminate].
  cbn [bind].
  destruct (at_index documents0 i) as [text|] eqn:H2; [|discriminate].
  cbn [bind].
  destruct (first (metadatas results)) as [metadatas0|]; [|discriminate].
  cbn [bind].
  destruct (at_index metadatas0 i) as [metadata|]; [|discriminate].
  cbn [bind].
  destruct (first (distances results)) as [distances0|]; [|discriminate].
  cbn [bind].
  destruct (at_index distances0 i) as [distance|]; [|discriminate].
  cbn [bind]. intros [= <-]. cbn [rc_chunk_id rc_text].
  split; [reflexivity|]. split.
  - intros ? [= <-]. now apply at_index_ok.
  - intros ? [= <-]. now apply at_index_ok.
Qed.

Lemma map_nth_error_firstn {A} (d : list A) : forall n,
  (forall i, i < n -> nth_error d i <> None) ->
  map (nth_error d) (seq 0 n) = map Some (firstn n d).
Proof.
  induction d as [|x d IH]; intros [|n] Hn; try reflexivity.
  - exfalso. apply (Hn 0); [lia|reflexivity].
  - cbn [seq map firstn nth_error]. f_equal.
    rewrite <- seq_shift, map_map. cbn [nth_error]. apply IH.
    intros i Hi. apply (Hn (S i)). lia.
Qed.

Lemma Forall2_map_eq {A B C} (f : A -> C) (g : B -> C) l l' :
  Forall2 (fun a b => f a = g b) l l' -> map f l = map g l'.
Proof. induction 1; cbn [map]; congruence. Qed.

Lemma Forall2_left {A B} (R : A -> B -> Prop) l l' :
  Forall2 R l l' -> forall a, In a l -> exists b, In b l' /\ R a b.
Proof.
  induction 1 as [|x y l l' Hxy _ IH]; intros a Hin; [destruct Hin|].
  destruct Hin as [<-|Hin]; [exists y; split; [now left|exact Hxy]|].
  destruct (IH a Hin) as (b & Hb & Hab). exists b. split; [now right|exact Hab].
Qed.

Lemma complete_chunks_give_context chunks :
  Forall (fun c => complete c = true) chunks ->
  exists cs,
    RagOrchestrator.context_chunks_of chunks = Ok cs /\
    length cs = length chunks.
Proof.
  induction 1 as [|c chunks Hc _ (cs & Hcs & Hlen)]; [now exists []|].
  unfold complete in Hc. cbn [RagOrchestrator.context_chunks_of].
  unfold RagOrchestrator.context_chunk_of.
  destruct (rc_chunk_id c); [|discriminate].
  destruct (rc_text c) as [t|]; [|discriminate].
  destruct (rc_metadata c) as [m|]; [|discriminate].
  cbn [bind]. rewrite Hcs. cbn [bind]. eexists. split; [reflexivity|].
  cbn [length]. now rewrite Hlen.
Qed.

(** The columns of the chunks built from the answer of the collection. *)
Lemma collected_column {A} (results : query_result) (column : list A)
    (field : retrieved_chunk -> option A) n chunks :
  Forall2 (fun i c => format_result results i = Ok c) (seq 0 n) chunks ->
  (forall i c, format_result results i = Ok c ->
               nth_error column i = field c /\ field c <> None) ->
  map field chunks = map Some (firstn n column).
Proof.
  intros Hall Hfield. rewrite <- map_nth_error_firstn.
  - symmetry. apply Forall2_map_eq.
    eapply Forall2_impl; [|exact Hall]. intros i c Hc. now apply Hfield.
  - intros i Hi.
    destruct (Forall2_left _ _ _ Hall i) as (c & _ & Hc);
      [apply in_seq; lia|].
    destruct (Hfield i c Hc) as [-> Hsome]. exact Hsome.
Qed.

Section WithRuntime.
Context `{runtime}.

(** X15: the chunks [search] returns all carry the four keys, in the
    order of the collection's answer, with its ids and its documents, so
    that the orchestrator's [chunk['text']] and [chunk['metadata']] cannot
    raise on them: what the search returns always goes through the building
    of the context. *)
Theorem search_returns_complete_chunks
    (query : collection_query) (query_embedding : list Q) (grade : option Z)
    (subject language : option str) (top_k : option Z)
    (chunks : list retrieved_chunk) :
  search query query_embedding grade subject language top_k = Ok chunks ->
  Forall (fun c => complete c = true) chunks /\
  (exists context_chunks,
     RagOrchestrator.context_chunks_of chunks = Ok context_chunks /\
     length context_chunks = length chunks) /\
  exists results ids0,
    query query_embedding top_k (where_filter grade subject language)
    = Ok results /\
    first (ids results) = Ok ids0 /\
    map rc_chunk_id chunks = map Some ids0 /\
    (forall documents0,
       first (documents results) = Ok documents0 ->
       map rc_text chunks = map Some (firstn (length ids0) documents0)).
Proof.
  unfold search.
  destruct (query query_embedding top_k _) as [results|] eqn:Hq;
    [|discriminate].
  cbn [bind]. destruct (first (ids results)) as [ids0|] eqn:Hids;
    [|discriminate].
  cbn [bind]. intros Hcollect. apply collect_spec in Hcollect.
  assert (Hall : Forall (fun c => complete c = true) chunks).
  { clear -Hcollect. induction Hcollect as [|i c idx cs Hc _ IH];
      constructor; [|exact IH].
    now apply format_result_ok in Hc. }
  split; [exact Hall|]. split; [now apply complete_chunks_give_context|].
  exists results, ids0. split; [reflexivity|]. split; [exact Hids|]. split.
  - rewrite <- (firstn_all ids0) at 1.
    apply (collected_column results ids0 rc_chunk_id _ _ Hcollect).
    intros i c Hc. apply format_result_ok in Hc as (Hcomplete & Hid & _).
    split; [now apply Hid|].
    unfold complete in Hcomplete. now destruct (rc_chunk_id c).
  - intros documents0 Hdoc.
    apply (collected_column results documents0 rc_text _ _ Hcollect).
    intros i c Hc. apply format_result_ok in Hc as (Hcomplete & _ & Htext).
    split; [now apply Htext|].
    unfold complete in Hcomplete.
    destruct (rc_chunk_id c); [|discriminate]. now destruct (rc_text c).
Qed.

Lemma given_some s : s <> [] -> given (Some s) = Some s.
Proof. destruct s; [now intros []|reflexivity]. Qed.

(** X16: the filter of a search.  There is no filter exactly when neither a
    grade nor a non-empty subject or language is given; a filter has one to
    three conditions and starts with the grade when there is one, as in
    every search of the orchestrator; and the language is matched without
    regard to case for Hindi and English: two spellings with the same
    lower-case form "hindi" or "english" give the same filter. *)
Theorem search_filter_shape
    (grade : option Z) (subject language : option str) :
  (where_filter grade subject language = None
   <-> grade = None /\ given subject = None /\ given language = None) /\
  (forall conditions,
     where_filter grade subject language = Some conditions ->
     1 <= length conditions <= 3) /\
  (forall g, exists rest,
     where_filter (Some g) subject language = Some (GradeEq g :: rest)) /\
  (forall l1 l2,
     l1 <> [] -> l2 <> [] -> lower l1 = lower l2 ->
     lower l1 = lit "hindi" \/ lower l1 = lit "english" ->
     where_filter grade subject (Some l1)
     = where_filter grade subject (Some l2)).
Proof.
  unfold where_filter. split; [|split; [|split]].
  - destruct grade, (given subject), (given language); cbn;
      split; try discriminate; try tauto;
      intros (? & ? & ?); discriminate.
  - intros conditions.
    destruct grade, (given subject), (given language); cbn;
      intros [= <-]; cbn; lia.
  - intros g. cbn [app]. eexists. reflexivity.
  - intros l1 l2 H1 H2 Hlow Hcase.
    rewrite (given_some l1 H1), (given_some l2 H2).
    unfold language_condition. rewrite <- Hlow.
    destruct Hcase as [-> | ->]; reflexivity.
Qed.

End WithRuntime.
(** The collection of the example answers the one chunk, complete. *)
Lemma search_returns_complete_chunks_witness :
  @search latin_devanagari one_result [] (Some 6%Z) None
          (Some (lit "english")) (Some 3%Z)
  = Ok [counting_chunk] /\
  Forall (fun c => complete c = true) [counting_chunk].
Proof.
  assert (Hrun : @search latin_devanagari one_result [] (Some 6%Z) None
                         (Some (lit "english")) (Some 3%Z)
                 = Ok [counting_chunk]) by (vm_compute; reflexivity).
  split; [exact Hrun|].
  exact (proj1 (@search_returns_complete_chunks latin_devanagari _ _ _ _ _ _ _
                  Hrun)).
Defined.

End StoreFacts.

(** ** Ingestion: add_chunks and the rebuild script *)

Module Ingestion.
Import Py Data PyDict VectorStore RebuildScript Spec Props.

(** *** Dicts *)

Lemma str_eqb_refl k : str_eqb k k = true.
Proof. now apply Responses.str_eqb_eq. Qed.

Lemma str_eqb_neq a b : a <> b -> str_eqb a b = false.
Proof.
  intros Hab. destruct (str_eqb a b) eqn:E; [|reflexivity].
  apply Responses.str_eqb_eq in E. now destruct Hab.
Qed.

Lemma get_set_same d k v : get (set d k v) k = Some v.
Proof.
  induction d as [|[k' v'] d IH]; cbn [set get].
  - now rewrite str_eqb_refl.
  - destruct (str_eqb k k') eqn:E; cbn [get]; rewrite ?str_eqb_refl, ?E; auto.
Qed.

Lemma get_set_other d k k' v : k' <> k -> get (set d k v) k' = get d k'.
Proof.
  intros Hne. induction d as [|[k0 v0] d IH]; cbn [set get].
  - now rewrite (str_eqb_neq _ _ Hne).
  - destruct (str_eqb k k0) eqn:E; cbn [get].
    + apply Responses.str_eqb_eq in E. subst k0.
      now rewrite (str_eqb_neq _ _ Hne).
    + now rewrite IH.
Qed.

Lemma get_del_same d k : get (del d k) k = None.
Proof.
  unfold del. induction d as [|[k' v'] d IH]; [reflexivity|].
  cbn [filter fst]. destruct (str_eqb k k') eqn:E; cbn [negb]; [exact IH|].
  cbn [get]. now rewrite E.
Qed.

Lemma get_del_other d k k' : k' <> k -> get (del d k) k' = get d k'.
Proof.
  intros Hne. unfold del. induction d as [|[k0 v0] d IH]; [reflexivity|].
  cbn [filter fst get]. destruct (str_eqb k k0) eqn:E; cbn [negb].
  - apply Responses.str_eqb_eq in E. subst k0.
    now rewrite (str_eqb_neq _ _ Hne).
  - cbn [get]. now rewrite IH.
Qed.

(** *** The flattened metadata *)

Lemma get_fold_other nested : forall meta k,
  (forall kv, In kv nested -> lit "meta_" ++ fst kv <> k) ->
  get (fold_left (fun meta kv => set meta (lit "meta_" ++ fst kv) (snd kv))
                 nested meta) k
  = get meta k.
Proof.
  induction nested as [|kv nested IH]; intros meta k Hk; [reflexivity|].
  cbn [fold_left]. rewrite IH by (intros; apply Hk; now right).
  apply get_set_other. intros ->. now apply (Hk kv); [left|].
Qed.

Lemma get_in_keys (d : dict) k v : get d k = Some v -> In k (keys d).
Proof.
  unfold keys. induction d as [|[k' v'] d IH]; [discriminate|].
  cbn [get map fst]. destruct (str_eqb k k') eqn:E.
  - apply Responses.str_eqb_eq in E. now left.
  - intros Hg. right. now apply IH.
Qed.

Lemma get_fold_nested nested : NoDup (keys nested) -> forall meta k v,
  get nested k = Some v ->
  get (fold_left (fun meta kv => set meta (lit "meta_" ++ fst kv) (snd kv))
                 nested meta) (lit "meta_" ++ k)
  = Some v.
Proof.
  induction nested as [|[k1 v1] nested IH]; intros Hnd meta k v;
    [discriminate|].
  cbn [keys map fst] in Hnd. apply NoDup_cons_iff in Hnd as [Hk1 Hnd].
  cbn [get fold_left fst snd]. destruct (str_eqb k k1) eqn:E.
  - apply Responses.str_eqb_eq in E. subst k1. intros [= ->].
    rewrite get_fold_other; [apply get_set_same|].
    intros [k2 v2] Hin Heq. cbn [fst] in Heq. apply app_inv_head in Heq.
    subst k2. apply Hk1. change (In k (map fst nested)).
    apply in_map_iff. now exists (k, v2).
  - intros Hg. now apply IH.
Qed.

Lemma get_fold_keys nested : forall meta k v,
  get (fold_left (fun meta kv => set meta (lit "meta_" ++ fst kv) (snd kv))
                 nested meta) k = Some v ->
  get meta k <> None \/ exists k', k = lit "meta_" ++ k'.
Proof.
  induction nested as [|[k1 v1] nested IH]; intros meta k v Hg.
  - left. cbn [fold_left] in Hg. congruence.
  - cbn [fold_left fst snd] in Hg. apply IH in Hg as [Hg|Hg]; [|now right].
    destruct (list_eq_dec N.eq_dec k (lit "meta_" ++ k1)) as [->|Hne];
      [right; now exists k1|].
    left. now rewrite get_set_other in Hg.
Qed.

(** X17: flattening never touches the eight fields set from the top level
    of a chunk: each is there, with the value of the chunk or its default,
    whatever the nested metadata holds; every key of the nested metadata is
    there under the prefix "meta_", with its value; and there is no other
    key. *)
Theorem flatten_keeps_base_fields (chunk : dict) :
  Forall (fun kd =>
            get (flatten_metadata chunk) (fst kd)
            = Some (get_default chunk (fst kd) (snd kd)))
         base_fields /\
  (forall nested,
     get chunk (lit "metadata") = Some (VDict nested) ->
     NoDup (keys nested) ->
     forall k v, get nested k = Some v ->
       get (flatten_metadata chunk) (lit "meta_" ++ k) = Some v) /\
  (forall k, mem (flatten_metadata chunk) k = true ->
     mem base_fields k = true \/ exists k', k = lit "meta_" ++ k').
Proof.
  split; [|split].
  - unfold flatten_metadata. cbv zeta.
    assert (Hbase : forall kd, In kd base_fields ->
                      startswith (lit "meta_") (fst kd) = false).
    { intros kd Hin.
      assert (Hall : forallb (fun kd => negb (startswith (lit "meta_") (fst kd)))
                             base_fields = true) by (vm_compute; reflexivity).
      rewrite forallb_forall in Hall. apply negb_true_iff. now apply Hall. }
    apply Forall_forall. intros kd Hin.
    assert (Hmeta : forall nested,
              get (fold_left
                     (fun meta kv => set meta (lit "meta_" ++ fst kv) (snd kv))
                     nested
                     [(lit "grade", get_default chunk (lit "grade") VNone);
                      (lit "subject", get_default chunk (lit "subject") VNone);
                      (lit "language", get_default chunk (lit "language") VNone);
                      (lit "chapter",
                       get_default chunk (lit "chapter") (VStr (lit "Unknown")));
                      (lit "page_num",
                       get_default chunk (lit "page_num") (VInt (-1)));
                      (lit "section",
                       get_default chunk (lit "section") (VStr (lit "Unknown")));
                      (lit "chunk_index",
                       get_default chunk (lit "chunk_index") VNone);
                      (lit "token_count",
                       get_default chunk (lit "token_count") VNone)])
                  (fst kd)
              = Some (get_default chunk (fst kd) (snd kd))).
    { intros nested. rewrite get_fold_other.
      - unfold base_fields in Hin. cbn [In] in Hin.
        repeat (destruct Hin as [<-|Hin]; [vm_compute; reflexivity|]).
        destruct Hin.
      - intros kv _ Heq. specialize (Hbase kd Hin).
        rewrite <- Heq in Hbase.
        assert (Ht : startswith (lit "meta_") (lit "meta_" ++ fst kv) = true)
          by (apply Translation.startswith_app; eauto).
        congruence. }
    destruct (get chunk (lit "metadata")) as [[]|];
      try exact (Hmeta []). apply Hmeta.
  - intros nested Hnested Hnd k v Hk.
    unfold flatten_metadata. cbv zeta. rewrite Hnested.
    now apply get_fold_nested.
  - intros k. unfold mem.
    destruct (get (flatten_metadata chunk) k) as [v|] eqn:Hg; [|discriminate].
    intros _. unfold flatten_metadata in Hg. cbv zeta in Hg.
    assert (Hcase : forall nested,
              get (fold_left
                     (fun meta kv => set meta (lit "meta_" ++ fst kv) (snd kv))
                     nested
                     [(lit "grade", get_default chunk (lit "grade") VNone);
                      (lit "subject", get_default chunk (lit "subject") VNone);
                      (lit "language", get_default chunk (lit "language") VNone);
                      (lit "chapter",
                       get_default chunk (lit "chapter") (VStr (lit "Unknown")));
                      (lit "page_num",
                       get_default chunk (lit "page_num") (VInt (-1)));
                      (lit "section",
                       get_default chunk (lit "section") (VStr (lit "Unknown")));
                      (lit "chunk_index",
                       get_default chunk (lit "chunk_index") VNone);
                      (lit "token_count",
                       get_default chunk (lit "token_count") VNone)]) k
              = Some v ->
              match get base_fields k with Some _ => true | None => false end
              = true
              \/ exists k', k = lit "meta_" ++ k').
    { intros nested Hn. apply get_fold_keys in Hn as [Hn|Hn]; [left|now right].
      unfold base_fields. cbn [get] in *.
      repeat match goal with
             | |- context [str_eqb k ?x] => destruct (str_eqb k x)
             end; try reflexivity. now destruct Hn. }
    destruct (get chunk (lit "metadata")) as [[]|];
      try exact (Hcase [] Hg). now apply Hcase in Hg.
Qed.

(** *** The lists handed to the collection *)

Lemma items_of_spec chunks k :
  match items_of chunks k with
  | Ok vs =>
      forallb (fun c => mem c k) chunks = true /\ length vs = length chunks
  | Raise e =>
      forallb (fun c => mem c k) chunks = false /\ exn_class e = lit "KeyError"
  end.
Proof.
  induction chunks as [|c chunks IH]; [now split|].
  cbn [items_of forallb]. unfold item, mem.
  destruct (get c k); cbn [bind andb]; [|now split].
  destruct (items_of chunks k); cbn [bind]; [|exact IH].
  destruct IH as [Hall Hlen]. split; [exact Hall|]. cbn [length]. now rewrite Hlen.
Qed.

Lemma forallb_addable chunks :
  forallb addable chunks
  = forallb (fun c => mem c (lit "chunk_id")) chunks
    && forallb (fun c => mem c (lit "embedding")) chunks
    && forallb (fun c => mem c (lit "text")) chunks.
Proof.
  induction chunks as [|c chunks IH]; [reflexivity|].
  cbn [forallb]. rewrite IH. unfold addable.
  destruct (mem c (lit "chunk_id")), (mem c (lit "embedding")),
    (mem c (lit "text")); cbn [andb]; try reflexivity;
    rewrite ?andb_false_r; reflexivity.
Qed.

(** X18: [add_chunks] reads the three keys of every chunk before it
    touches the collection: when a chunk lacks an id, an embedding or a text
    it raises [KeyError] and nothing is added; otherwise the collection
    receives four lists with one entry per chunk. *)
Theorem add_chunks_checks_keys_first
    (collection : Type) (add : collection -> batch -> result collection)
    (store : collection) (embedded_chunks : list dict) :
  (forallb addable embedded_chunks = true ->
   exists b,
     prepare embedded_chunks = Ok b /\
     add_chunks add store embedded_chunks = add store b /\
     length (b_ids b) = length embedded_chunks /\
     length (b_embeddings b) = length embedded_chunks /\
     length (b_documents b) = length embedded_chunks /\
     length (b_metadatas b) = length embedded_chunks) /\
  (forallb addable embedded_chunks = false ->
   exists e,
     add_chunks add store embedded_chunks = Raise e /\
     exn_class e = lit "KeyError").
Proof.
  rewrite forallb_addable. unfold add_chunks, prepare.
  pose proof (items_of_spec embedded_chunks (lit "chunk_id")) as H1.
  pose proof (items_of_spec embedded_chunks (lit "embedding")) as H2.
  pose proof (items_of_spec embedded_chunks (lit "text")) as H3.
  destruct (items_of embedded_chunks (lit "chunk_id")) as [ids|e1];
    destruct H1 as [-> H1]; cbn [bind andb].
  2:{ split; [discriminate|]. intros _. now exists e1. }
  destruct (items_of embedded_chunks (lit "embedding")) as [embeddings|e2];
    destruct H2 as [-> H2]; cbn [bind andb].
  2:{ split; [discriminate|]. intros _. now exists e2. }
  destruct (items_of embedded_chunks (lit "text")) as [documents|e3];
    destruct H3 as [-> H3]; cbn [bind andb].
  2:{ split; [discriminate|]. intros _. now exists e3. }
  split; [|discriminate]. intros _. eexists. split; [reflexivity|].
  cbn [b_ids b_embeddings b_documents b_metadatas].
  rewrite length_map. now repeat split.
Qed.

(** *** Batches *)

Lemma slice_next {A} (l : list A) i step :
  slice i (i + step) l ++ skipn (i + step) l = skipn i l.
Proof.
  unfold slice. destruct (le_lt_dec i (length l)) as [Hi|Hi].
  - rewrite <- (firstn_skipn (i + step) l) at 3. rewrite skipn_app.
    f_equal. rewrite length_firstn.
    replace (i - Nat.min (i + step) (length l)) with 0 by lia. reflexivity.
  - rewrite (@skipn_all2 _ i (firstn (i + step) l))
      by (rewrite length_firstn; lia).
    rewrite (@skipn_all2 _ (i + step) l) by lia.
    rewrite (@skipn_all2 _ i l) by lia. reflexivity.
Qed.

Lemma range_from_concat {A} (l : list A) step : 0 < step ->
  forall fuel i, length l <= i + fuel ->
  concat (map (fun j => slice j (j + step) l)
              (range_from fuel i (length l) step))
  = skipn i l.
Proof.
  intros Hstep. induction fuel as [|fuel IH]; intros i Hfuel.
  - cbn [range_from map concat]. symmetry. apply skipn_all2. lia.
  - cbn [range_from]. destruct (i <? length l) eqn:Hi.
    + cbn [map concat]. rewrite IH by lia. apply slice_next.
    + apply Nat.ltb_ge in Hi. cbn [map concat]. symmetry.
      now apply skipn_all2.
Qed.

Lemma range_from_below step stop : forall fuel i j,
  In j (range_from fuel i stop step) -> j < stop.
Proof.
  induction fuel as [|fuel IH]; intros i j Hin; [destruct Hin|].
  cbn [range_from] in Hin. destruct (i <? stop) eqn:Hi; [|destruct Hin].
  destruct Hin as [<-|Hin]; [now apply Nat.ltb_lt|]. eapply IH; eauto.
Qed.

Lemma batches_concat chunks : concat (batches chunks) = chunks.
Proof.
  unfold batches, range.
  rewrite (range_from_concat chunks batch_size) by (unfold batch_size; lia).
  reflexivity.
Qed.

Lemma batches_sizes chunks :
  Forall (fun b => 1 <= length b <= 100) (batches chunks).
Proof.
  unfold batches, range. apply Forall_forall. intros b Hin.
  apply in_map_iff in Hin as (j & <- & Hj).
  apply range_from_below in Hj. unfold slice, batch_size.
  rewrite length_skipn, length_firstn. lia.
Qed.

Lemma items_of_app a b k :
  items_of (a ++ b) k
  = bind (items_of a k) (fun x =>
    bind (items_of b k) (fun y => Ok (x ++ y))).
Proof.
  induction a as [|c a IH]; cbn [app items_of bind].
  - now destruct (items_of b k).
  - destruct (item c k); cbn [bind]; [|reflexivity]. rewrite IH.
    destruct (items_of a k); cbn [bind]; [|reflexivity].
    now destruct (items_of b k).
Qed.

Lemma prepare_app a b whole :
  prepare (a ++ b) = Ok whole ->
  exists pa pb,
    prepare a = Ok pa /\ prepare b = Ok pb /\
    b_ids whole = b_ids pa ++ b_ids pb /\
    b_embeddings whole = b_embeddings pa ++ b_embeddings pb /\
    b_documents whole = b_documents pa ++ b_documents pb /\
    b_metadatas whole = b_metadatas pa ++ b_metadatas pb.
Proof.
  unfold prepare. rewrite !items_of_app.
  destruct (items_of a (lit "chunk_id")); cbn [bind]; [|discriminate].
  destruct (items_of b (lit "chunk_id")); cbn [bind]; [|discriminate].
  destruct (items_of a (lit "embedding")); cbn [bind]; [|discriminate].
  destruct (items_of b (lit "embedding")); cbn [bind]; [|discriminate].
  destruct (items_of a (lit "text")); cbn [bind]; [|discriminate].
  destruct (items_of b (lit "text")); cbn [bind]; [|discriminate].
  intros [= <-]. do 2 eexists. split; [reflexivity|]. split; [reflexivity|].
  cbn [b_ids b_embeddings b_documents b_metadatas].
  rewrite map_app. now repeat split.
Qed.

Lemma prepared_concat bs : forall whole,
  prepare (concat bs) = Ok whole ->
  exists parts,
    prepared bs = Ok parts /\
    concat (map b_ids parts) = b_ids whole /\
    concat (map b_embeddings parts) = b_embeddings whole /\
    concat (map b_documents parts) = b_documents whole /\
    concat (map b_metadatas parts) = b_metadatas whole.
Proof.
  induction bs as [|b bs IH]; intros whole Hw.
  - exists []. cbn in Hw. injection Hw as <-. now repeat split.
  - cbn [concat] in Hw.
    apply prepare_app in Hw as (pa & pb & Ha & Hb & H1 & H2 & H3 & H4).
    destruct (IH pb Hb) as (parts & Hparts & I1 & I2 & I3 & I4).
    exists (pa :: parts). cbn [prepared]. rewrite Ha, Hparts. cbn [bind].
    split; [reflexivity|]. cbn [map concat].
    now rewrite I1, I2, I3, I4, H1, H2, H3, H4.
Qed.

Lemma fold_raise {collection : Type}
    (add : collection -> batch -> result collection) parts e :
  fold_left (fun acc p => bind acc (fun st => add st p)) parts (Raise e)
  = Raise e.
Proof. induction parts as [|p parts IH]; [reflexivity|exact IH]. Qed.

Lemma add_each_prepared {collection : Type}
    (add : collection -> batch -> result collection) bs :
  forall parts store,
    prepared bs = Ok parts ->
    add_each add store bs
    = fold_left (fun acc p => bind acc (fun st => add st p)) parts (Ok store).
Proof.
  induction bs as [|b bs IH]; intros parts store.
  - intros [= <-]. reflexivity.
  - cbn [prepared add_each]. unfold add_chunks.
    destruct (prepare b) as [p|]; cbn [bind]; [|discriminate].
    destruct (prepared bs) as [ps|]; cbn [bind]; [|discriminate].
    intros [= <-]. cbn [fold_left bind].
    destruct (add store p) as [store'|e]; cbn [bind].
    + now apply IH.
    + now rewrite fold_raise.
Qed.

(** X19: the rebuild adds every chunk exactly once and in order: the
    batches of the loop are between 1 and 100 chunks long and put end to end
    they are the list of all chunks; when every chunk has its id, embedding
    and text, the ids, embeddings, documents and metadata handed to the
    collection batch after batch are, put end to end, those of a single
    [add_chunks] on the whole list, and the run is the sequence of the
    [add] calls on these batches. *)
Theorem batching_is_lossless (all_chunks : list dict) :
  concat (batches all_chunks) = all_chunks /\
  Forall (fun b => 1 <= length b <= 100) (batches all_chunks) /\
  (forall whole,
     prepare all_chunks = Ok whole ->
     exists parts,
       prepared (batches all_chunks) = Ok parts /\
       concat (map b_ids parts) = b_ids whole /\
       concat (map b_embeddings parts) = b_embeddings whole /\
       concat (map b_documents parts) = b_documents whole /\
       concat (map b_metadatas parts) = b_metadatas whole /\
       forall (collection : Type)
              (add : collection -> batch -> result collection) store,
         add_in_batches add store all_chunks
         = fold_left (fun acc p => bind acc (fun st => add st p))
                     parts (Ok store)).
Proof.
  split; [apply batches_concat|]. split; [apply batches_sizes|].
  intros whole Hwhole. rewrite <- (batches_concat all_chunks) in Hwhole.
  destruct (prepared_concat _ _ Hwhole) as (parts & Hparts & H1 & H2 & H3 & H4).
  exists parts. repeat split; try assumption.
  intros collection add store. unfold add_in_batches.
  now apply add_each_prepared.
Qed.

(** *** New embeddings *)

Lemma zip_set_length chunks : forall embeddings,
  length (zip_set chunks embeddings) = length chunks.
Proof.
  induction chunks as [|c chunks IH]; intros [|e embeddings];
    cbn [zip_set length]; auto.
Qed.

Lemma zip_set_other chunks k : k <> lit "embedding" -> forall embeddings,
  map (fun c => get c k) (zip_set chunks embeddings)
  = map (fun c => get c k) chunks.
Proof.
  intros Hk. induction chunks as [|c chunks IH]; intros [|e embeddings];
    cbn [zip_set map]; auto.
  now rewrite get_set_other, IH.
Qed.

Lemma zip_set_embedding chunks : forall embeddings,
  length embeddings = length chunks ->
  map (fun c => get c (lit "embedding")) (zip_set chunks embeddings)
  = map (fun e => Some (VList (map VFloat e))) embeddings.
Proof.
  induction chunks as [|c chunks IH]; intros [|e embeddings] Hlen;
    try discriminate; [reflexivity|].
  cbn [zip_set map]. rewrite get_set_same, IH; [reflexivity|].
  cbn [length] in Hlen. lia.
Qed.

Lemma load_drops_embedding chunks :
  map (fun c => get c (lit "embedding"))
      (load_chunks_without_embeddings chunks)
  = map (fun _ => None) chunks.
Proof.
  unfold load_chunks_without_embeddings. rewrite map_map.
  apply map_ext. intros c. unfold mem.
  destruct (get c (lit "embedding")) eqn:Hg; [apply get_del_same|exact Hg].
Qed.

Lemma load_keeps_other chunks k : k <> lit "embedding" ->
  map (fun c => get c k) (load_chunks_without_embeddings chunks)
  = map (fun c => get c k) chunks.
Proof.
  intros Hk. unfold load_chunks_without_embeddings. rewrite map_map.
  apply map_ext. intros c.
  destruct (mem c (lit "embedding")); [now apply get_del_other|reflexivity].
Qed.

(** X20: after the reload and the new embedding run every chunk is there,
    in order, with all its other keys as they were in the file; no chunk
    keeps its old embedding when it is reloaded, and when the model answers
    one vector per text every chunk carries the new vector of its text, so
    that the later [chunk['embedding']] of [add_chunks] cannot raise. *)
Theorem rebuilt_chunks_carry_new_embeddings
    (encode : encoder) (chunks out : list dict) :
  generate_multilingual_embeddings encode
    (load_chunks_without_embeddings chunks) = Ok out ->
  map (fun c => get c (lit "embedding"))
      (load_chunks_without_embeddings chunks)
  = map (fun _ => None) chunks /\
  length out = length chunks /\
  (forall k, k <> lit "embedding" ->
     map (fun c => get c k) out = map (fun c => get c k) chunks) /\
  exists texts embeddings,
    map (fun c => get c (lit "text")) chunks = map Some texts /\
    encode texts = Ok embeddings /\
    (length embeddings = length chunks ->
     map (fun c => get c (lit "embedding")) out
     = map (fun e => Some (VList (map VFloat e))) embeddings /\
     forallb (fun c => mem c (lit "embedding")) out = true).
Proof.
  unfold generate_multilingual_embeddings.
  destruct (items_of (load_chunks_without_embeddings chunks) (lit "text"))
    as [texts|] eqn:Htexts; cbn [bind]; [|discriminate].
  destruct (encode texts) as [embeddings|] eqn:Henc; cbn [bind];
    [|discriminate].
  intros [= <-]. split; [apply load_drops_embedding|].
  assert (Hlen : length (load_chunks_without_embeddings chunks)
                 = length chunks)
    by (unfold load_chunks_without_embeddings; apply length_map).
  split; [now rewrite zip_set_length|]. split.
  { intros k Hk. rewrite zip_set_other by exact Hk.
    now apply load_keeps_other. }
  exists texts, embeddings. split; [|split; [exact Henc|]].
  - rewrite <- (load_keeps_other chunks (lit "text")) by discriminate.
    clear -Htexts. revert texts Htexts.
    induction (load_chunks_without_embeddings chunks) as [|c l IH];
      intros texts; cbn [items_of].
    + now intros [= <-].
    + unfold item. destruct (get c (lit "text")) eqn:Hg; cbn [bind];
        [|discriminate].
      destruct (items_of l (lit "text")); cbn [bind]; [|discriminate].
      intros [= <-]. cbn [map]. rewrite Hg. f_equal. now apply IH.
  - intros Hemb. rewrite <- Hlen in Hemb.
    pose proof (zip_set_embedding _ _ Hemb) as Hz. split; [exact Hz|].
    apply forallb_forall. intros c Hin. unfold mem.
    apply (in_map (fun c => get c (lit "embedding"))) in Hin.
    rewrite Hz in Hin. apply in_map_iff in Hin as (e & <- & _). reflexivity.
Qed.

(** The run on the two sample chunks. *)
Lemma rebuilt_chunks_carry_new_embeddings_witness :
  generate_multilingual_embeddings sample_encoder
    (load_chunks_without_embeddings sample_chunks) = Ok sample_rebuilt /\
  length sample_rebuilt = length sample_chunks.
Proof.
  assert (Hrun : generate_multilingual_embeddings sample_encoder
                   (load_chunks_without_embeddings sample_chunks)
                 = Ok sample_rebuilt) by (vm_compute; reflexivity).
  split; [exact Hrun|].
  exact (proj1 (proj2 (rebuilt_chunks_carry_new_embeddings
                         sample_encoder sample_chunks sample_rebuilt Hrun))).
Defined.

End Ingestion.

(** ** The life cycle of the language model service (mistral_service.py) *)

Module Lifecycle.
Import Py Data MistralService MistralLifecycle.

(** X21: the service comes up exactly when the model file exists and the
    loader succeeds; without the file the loader is not consulted and the
    exception is [FileNotFoundError].  The model information of a service
    that came up agrees with its configuration: the context window is the
    configured one, the GPU counts as enabled exactly when a positive number
    of layers is configured, the layers reported are that number or 0, and
    the GPU type is "CPU" exactly when the GPU is not enabled. *)
Theorem model_info_matches_configuration
    (path_exists : str -> bool) (Llama : loader)
    (config : option MistralConfig) :
  let cfg := match config with Some c => c | None => default_config end in
  match init path_exists Llama config with
  | Ok self =>
      let info := get_model_info self in
      path_exists (model_path cfg) = true /\
      MistralService.config (svc self) = cfg /\
      Llama (model_path cfg) (n_ctx cfg) (n_threads cfg) (n_gpu_layers cfg)
            (verbose cfg) = Ok (model (svc self)) /\
      mi_context_window info = n_ctx cfg /\
      mi_n_gpu_layers info = Z.max 0 (n_gpu_layers cfg) /\
      (mi_gpu_enabled info = true <-> (0 < n_gpu_layers cfg)%Z) /\
      (mi_gpu_type info = lit "CPU" <-> mi_gpu_enabled info = false)
  | Raise e =>
      (path_exists (model_path cfg) = false /\ e = not_found cfg /\
       exn_class e = lit "FileNotFoundError")
      \/ (path_exists (model_path cfg) = true /\
          Llama (model_path cfg) (n_ctx cfg) (n_threads cfg) (n_gpu_layers cfg)
                (verbose cfg) = Raise e)
  end.
Proof.
  cbv zeta. unfold init.
  set (cfg := match config with Some c => c | None => default_config end).
  destruct (path_exists (model_path cfg)); cbn [negb];
    [|left; now repeat split].
  destruct (Llama _ _ _ _ _) as [m|e]; cbn [bind]; [|right; now split].
  unfold get_model_info.
  cbn [svc gpu_enabled MistralService.config model mi_context_window
       mi_n_gpu_layers mi_gpu_enabled mi_gpu_type].
  repeat split; try reflexivity.
  - destruct (0 <? n_gpu_layers cfg)%Z eqn:Hgpu.
    + apply Z.ltb_lt in Hgpu. lia.
    + apply Z.ltb_ge in Hgpu. lia.
  - intros Hgpu. now apply Z.ltb_lt.
  - intros Hgpu. now apply Z.ltb_lt.
  - destruct (0 <? n_gpu_layers cfg)%Z; [|reflexivity].
    intros Heq. vm_compute in Heq. discriminate.
  - destruct (0 <? n_gpu_layers cfg)%Z; [discriminate|reflexivity].
Qed.

End Lifecycle.

(** ** The command-line manager (run_rag_with_mistral.py) *)

Module Manager.
Import Py Data Spec Props RagManager.

Section WithRuntime.
Context `{runtime}.

(** The lower-case form of "english" is neither "hindi" nor "hi". *)
Hypothesis english_is_not_hindi :
  MistralService.is_hindi (lit "english") = false.

Lemma adapter_english svc question cs grade subject :
  Forall (english_only question grade subject)
    (fst (MistralService.generate_answer svc question cs grade (lit "english")
                                         subject None)).
Proof.
  unfold MistralService.generate_answer, MistralService.try_generate.
  assert (Hcall : forall params,
            english_only question grade subject
              (CallModel
                 (MistralService.build_mistral_prompt question cs grade
                    (lit "english") subject None) params))
    by (intros params; now exists cs).
  destruct (MistralService.model svc _ _) as [response|e];
    [|repeat constructor; apply Hcall].
  destruct (MistralService.first_choice_text response) as [raw|e];
    [|repeat constructor; apply Hcall].
  unfold MistralService.purity_pass. rewrite english_is_not_hindi.
  cbn [bind].
  destruct (MistralService.completion_tokens response) as [n|e];
    repeat constructor; apply Hcall.
Qed.

Lemma process_query_english rag question grade subject top_k :
  Forall (english_only question grade
            (RagOrchestrator.or_default subject (lit "science")))
    (fst (RagOrchestrator.process_query rag question grade subject top_k None)).
Proof.
  unfold RagOrchestrator.process_query.
  cbn [RagOrchestrator.or_default]. rewrite english_is_not_hindi.
  destruct (RagOrchestrator.embedding_model rag _) as [emb|e];
    [|repeat constructor].
  destruct (RagOrchestrator.vector_store rag emb grade subject _ top_k)
    as [retrieved|e]; [|repeat constructor].
  destruct (RagOrchestrator.context_chunks_of retrieved) as [cs|e];
    [|repeat constructor].
  unfold RagOrchestrator.generate_answer.
  destruct (RagOrchestrator.llm_service rag) as [svc|];
    [|repeat constructor].
  pose proof (adapter_english svc question cs grade
                (RagOrchestrator.or_default subject (lit "science"))) as Hlog.
  destruct (MistralService.generate_answer svc question cs grade _ _ None)
    as [log result].
  cbn [fst] in Hlog.
  destruct (MistralService.success result); cbn [fst];
    repeat (apply Forall_cons; [exact I|]);
    rewrite ?Forall_app; repeat split; try exact Hlog; repeat constructor.
Qed.

(** X22: the manager always answers in English: its query goes to the
    orchestrator without a language, so the response language is "english"
    even for a question written in Hindi, every prompt is the English one
    built from the question as typed and without a glossary, no Hindi check
    of the answer is made, and the search asks for the given number of
    results. *)
Theorem manager_answers_in_english
    (rag : RagOrchestrator.orchestrator) (asked : str) (grade : Z)
    (subject : option str) (top_k : Z) :
  let run := query rag asked grade subject top_k in
  Forall (english_only asked grade
            (RagOrchestrator.or_default subject (lit "science")))
         (fst run) /\
  searches_ask (Some top_k) (fst run) /\
  match snd run with
  | Ok r =>
      language r = lit "english" /\ question r = asked /\
      RagManager.grade r = grade /\ RagManager.subject r = subject
  | Raise _ => True
  end.
Proof.
  cbv zeta. unfold query.
  pose proof (process_query_english rag asked grade subject (Some top_k))
    as Hlog.
  pose proof (Orchestration.process_query_searches rag asked grade subject
                (Some top_k) None) as Hsearch.
  assert (Hlang : forall r,
            snd (RagOrchestrator.process_query rag asked grade subject
                   (Some top_k) None) = Ok r ->
            RagOrchestrator.language r = lit "english").
  { intros r. unfold RagOrchestrator.process_query.
    destruct (RagOrchestrator.embedding_model rag _); [|discriminate].
    destruct (RagOrchestrator.vector_store rag _ _ _ _ _); [|discriminate].
    destruct (RagOrchestrator.context_chunks_of _); [|discriminate].
    destruct (RagOrchestrator.generate_answer _ _ _ _ _ _ _).
    cbn [snd]. now intros [= <-]. }
  destruct (RagOrchestrator.process_query rag asked grade subject
              (Some top_k) None) as [log [r|e]].
  - cbn [fst snd bind] in *. repeat split; try assumption.
    now apply Hlang.
  - cbn [fst snd bind] in *. repeat split; assumption.
Qed.

(** X23: a batch is all or nothing: results are written only when every
    question of the file was answered, one result per question, in order,
    each in English and with grade 6 when the entry has none; one entry
    without a question, or one query that raises, loses the answers of all
    the entries before it. *)
Theorem batch_is_all_or_nothing
    (rag : RagOrchestrator.orchestrator) (questions : list question_data) :
  match snd (batch_process rag (Ok questions)) with
  | inr results =>
      Forall2 (fun q_data r =>
                 q_question q_data = Some (question r) /\
                 RagManager.grade r
                 = match q_grade q_data with Some g => g | None => 6%Z end /\
                 RagManager.subject r = q_subject q_data /\
                 snd (ask rag q_data) = Ok r)
              questions results
  | inl e =>
      exists q_data, In q_data questions /\ snd (ask rag q_data) = Raise e
  end.
Proof.
  unfold batch_process.
  induction questions as [|q_data rest IH]; [constructor|].
  cbn [ask_all].
  destruct (ask rag q_data) as [log [r|e]] eqn:Hask.
  2:{ cbn [snd]. exists q_data. split; [now left|]. now rewrite Hask. }
  destruct (ask_all rag rest) as [log' [rs|e]]; cbn [snd bind] in *.
  - constructor; [|exact IH].
    assert (Hr : snd (ask rag q_data) = Ok r) by now rewrite Hask.
    clear Hask. split; [|split; [|split; [|exact Hr]]];
      unfold ask, query in Hr;
      destruct (q_question q_data) as [asked|]; try discriminate;
      destruct (RagOrchestrator.process_query _ _ _ _ _ _) as [l [resp|e]];
      try discriminate; cbn [snd bind] in Hr; injection Hr as <-;
      reflexivity.
  - destruct IH as (q & Hin & Hq). exists q. split; [now right|exact Hq].
Qed.

End WithRuntime.

(** With the tables of the two scripts of the repository "english" is not
    Hindi, and the manager answers the question of the example in
    English. *)
Lemma manager_answers_in_english_witness :
  @MistralService.is_hindi latin_devanagari (lit "english") = false /\
  searches_ask (Some 5%Z)
    (fst (@query latin_devanagari
            (demo (canned (lit "Natural numbers are the counting numbers.") 7%Z))
            (lit "What are natural numbers?") 6%Z None 5%Z)).
Proof.
  assert (Henglish : @MistralService.is_hindi latin_devanagari (lit "english")
                     = false) by (vm_compute; reflexivity).
  split; [exact Henglish|].
  exact (proj1 (proj2 (@manager_answers_in_english latin_devanagari Henglish
                         (demo (canned
                                  (lit "Natural numbers are the counting numbers.")
                                  7%Z))
                         (lit "What are natural numbers?") 6%Z None 5%Z))).
Defined.

End Manager.
